(** * A shallow embedding of the appium-ios-remotexpc wire engines

    The development follows the TypeScript sources of the instrumentation
    (DTX) protocol and of the file-conduit (AFC) protocol:

    - [dvt/dtx-message.ts]            fixed-layout DTX headers,
    - [dvt/channel-fragmenter.ts]     fragment reassembly,
    - [dvt/channel.ts]                selector conversion,
    - [dvt/nskeyedarchiver-decoder.ts] the archive decoder,
    - [dvt/index.ts]                  the DVT service (channels, receive path),
    - [afc/codec.ts], [afc/index.ts], [afc/stream-utils.ts]  the AFC client.

    Conventions.  A Node [Buffer] is a list of bytes; JavaScript numbers
    that the code uses as lengths, offsets, indices and wire fields are
    integers in [Z]; a function that can throw returns a [result]; code
    that talks to the device threads an explicit state. *)

From Stdlib Require Import ZArith Lia List String Ascii Bool DecimalString.
From coqutil Require Import Word.LittleEndianList Byte.
From stdpp Require Import gmap strings list.

Local Open Scope Z_scope.

(** ** Exceptions and buffers *)

(** A thrown JavaScript error.  [Err] carries the static part of the
    message of a [new Error(...)]; [RangeErr] is Node's ERR_OUT_OF_RANGE
    (a buffer access outside the buffer, a value outside the width of the
    field written); [TypeErr] is a TypeError or SyntaxError of a builtin. *)
Inductive JsError : Type :=
| Err (msg : string)
| RangeErr
| TypeErr.

Inductive result (A : Type) : Type :=
| Ok (a : A)
| Throw (e : JsError).
Arguments Ok {A} a.
Arguments Throw {A} e.

Definition rbind {A B : Type} (r : result A) (k : A -> result B) : result B :=
  match r with
  | Ok a => k a
  | Throw e => Throw e
  end.

Declare Scope result_scope.
Delimit Scope result_scope with result.
Notation "x <- r ;; k" := (rbind r (fun x => k))
  (at level 100, r at next level, right associativity) : result_scope.
Local Open Scope result_scope.

Definition is_ok {A : Type} (r : result A) : bool :=
  match r with Ok _ => true | Throw _ => false end.

Abbreviation Buffer := (list Init.Byte.byte).

(** [Buffer.alloc(n)]: [n] zero bytes. *)
Definition alloc (n : nat) : Buffer := repeat Init.Byte.x00 n.

(** A relative index of [TypedArray.prototype.subarray]: a negative index
    counts from the end, and the result is clamped to the buffer. *)
Definition rel_index (len i : Z) : Z :=
  if i <? 0 then Z.max (len + i) 0 else Z.min i len.

(** [buf.subarray(start, end)]: the view is empty when the end does not
    lie after the start. *)
Definition subarray (b : Buffer) (s e : Z) : Buffer :=
  let len := Z.of_nat (length b) in
  let s' := rel_index len s in
  let e' := rel_index len e in
  firstn (Z.to_nat (e' - s')) (skipn (Z.to_nat s') b).

(** [buf.subarray(start)]. *)
Definition subarray_from (b : Buffer) (s : Z) : Buffer :=
  skipn (Z.to_nat (rel_index (Z.of_nat (length b)) s)) b.

Definition blen (b : Buffer) : Z := Z.of_nat (length b).

(** [buf.readUIntNNLE(offset)] for a field of [n] bytes: Node throws
    ERR_OUT_OF_RANGE unless [0 <= offset <= length - n]. *)
Definition readUIntLE (n : nat) (b : Buffer) (off : Z) : result Z :=
  if (0 <=? off) && (off + Z.of_nat n <=? blen b)
  then Ok (le_combine (firstn n (skipn (Z.to_nat off) b)))
  else Throw RangeErr.

Definition readUInt16LE := readUIntLE 2.
Definition readUInt32LE := readUIntLE 4.
Definition readBigUInt64LE := readUIntLE 8.

(** [buf.readInt32LE(offset)]: the same four bytes read as two's
    complement. *)
Definition readInt32LE (b : Buffer) (off : Z) : result Z :=
  u <- readUInt32LE b off ;;
  Ok (if 2 ^ 31 <=? u then u - 2 ^ 32 else u).

(** The bytes of [b] with [bs] copied in at [off]. *)
Definition write_at (b : Buffer) (off : nat) (bs : Buffer) : Buffer :=
  firstn off b ++ bs ++ skipn (off + length bs) b.

(** [buf.writeUIntNNLE(value, offset)]: Node throws ERR_OUT_OF_RANGE when
    the value is outside [0, 2^(8n)) or the field does not fit in the
    buffer. *)
Definition writeUIntLE (n : nat) (b : Buffer) (v : Z) (off : nat)
  : result Buffer :=
  if (0 <=? v) && (v <? 2 ^ (8 * Z.of_nat n))
     && (Z.of_nat off + Z.of_nat n <=? blen b)
  then Ok (write_at b off (le_split n v))
  else Throw RangeErr.

Definition writeUInt16LE := writeUIntLE 2.
Definition writeUInt32LE := writeUIntLE 4.
Definition writeBigUInt64LE := writeUIntLE 8.

(** [buf.writeInt32LE(value, offset)]: the value must lie in
    [-2^31, 2^31); it is stored in two's complement. *)
Definition writeInt32LE (b : Buffer) (v : Z) (off : nat) : result Buffer :=
  if (- 2 ^ 31 <=? v) && (v <? 2 ^ 31) && (Z.of_nat off + 4 <=? blen b)
  then Ok (write_at b off (le_split 4 v))
  else Throw RangeErr.

(** ** DTX message headers ([dvt/dtx-message.ts]) *)

Module DTX_CONSTANTS.
Definition MESSAGE_HEADER_MAGIC : Z := 0x1f3d5b79.
Definition MESSAGE_HEADER_SIZE : Z := 32.
Definition PAYLOAD_HEADER_SIZE : Z := 16.
Definition MESSAGE_AUX_MAGIC : Z := 0x1f0.
Definition EMPTY_DICTIONARY : Z := 0xa.
Definition INSTRUMENTS_MESSAGE_TYPE : Z := 2.
Definition EXPECTS_REPLY_MASK : Z := 0x1000.
Definition AUX_TYPE_OBJECT : Z := 2.
Definition AUX_TYPE_INT32 : Z := 3.
Definition AUX_TYPE_INT64 : Z := 6.
End DTX_CONSTANTS.

Record DTXMessageHeader : Type := mkDTXMessageHeader {
  magic : Z;
  cb : Z;
  fragmentId : Z;
  fragmentCount : Z;
  length_ : Z;
  identifier : Z;
  conversationIndex : Z;
  channelCode : Z;
  expectsReply : Z
}.

Record DTXMessagePayloadHeader : Type := mkDTXMessagePayloadHeader {
  flags : Z;
  auxiliaryLength : Z;
  totalLength : Z
}.

Module DTXMessage.

Definition parseMessageHeader (buffer : Buffer) : result DTXMessageHeader :=
  if blen buffer <? DTX_CONSTANTS.MESSAGE_HEADER_SIZE
  then Throw (Err "Buffer too small for DTX message header")
  else
    magic <- readUInt32LE buffer 0 ;;
    cb <- readUInt32LE buffer 4 ;;
    fragmentId <- readUInt16LE buffer 8 ;;
    fragmentCount <- readUInt16LE buffer 10 ;;
    len <- readUInt32LE buffer 12 ;;
    identifier <- readUInt32LE buffer 16 ;;
    conversationIndex <- readUInt32LE buffer 20 ;;
    channelCode <- readInt32LE buffer 24 ;;
    expectsReply <- readUInt32LE buffer 28 ;;
    Ok (mkDTXMessageHeader magic cb fragmentId fragmentCount len identifier
          conversationIndex channelCode expectsReply).

Definition buildMessageHeader (header : DTXMessageHeader) : result Buffer :=
  let buffer := alloc (Z.to_nat DTX_CONSTANTS.MESSAGE_HEADER_SIZE) in
  buffer <- writeUInt32LE buffer (magic header) 0 ;;
  buffer <- writeUInt32LE buffer (cb header) 4 ;;
  buffer <- writeUInt16LE buffer (fragmentId header) 8 ;;
  buffer <- writeUInt16LE buffer (fragmentCount header) 10 ;;
  buffer <- writeUInt32LE buffer (length_ header) 12 ;;
  buffer <- writeUInt32LE buffer (identifier header) 16 ;;
  buffer <- writeUInt32LE buffer (conversationIndex header) 20 ;;
  buffer <- writeInt32LE buffer (channelCode header) 24 ;;
  buffer <- writeUInt32LE buffer (expectsReply header) 28 ;;
  Ok buffer.

Definition parsePayloadHeader (buffer : Buffer)
  : result DTXMessagePayloadHeader :=
  if blen buffer <? DTX_CONSTANTS.PAYLOAD_HEADER_SIZE
  then Throw (Err "Buffer too small for DTX payload header")
  else
    flags <- readUInt32LE buffer 0 ;;
    auxiliaryLength <- readUInt32LE buffer 4 ;;
    totalLength <- readBigUInt64LE buffer 8 ;;
    Ok (mkDTXMessagePayloadHeader flags auxiliaryLength totalLength).

Definition buildPayloadHeader (header : DTXMessagePayloadHeader)
  : result Buffer :=
  let buffer := alloc (Z.to_nat DTX_CONSTANTS.PAYLOAD_HEADER_SIZE) in
  buffer <- writeUInt32LE buffer (flags header) 0 ;;
  buffer <- writeUInt32LE buffer (auxiliaryLength header) 4 ;;
  buffer <- writeBigUInt64LE buffer (totalLength header) 8 ;;
  Ok buffer.

End DTXMessage.

(** The fields of a header fit their wire widths. *)
Definition header_fits (h : DTXMessageHeader) : Prop :=
  0 <= magic h < 2 ^ 32 /\ 0 <= cb h < 2 ^ 32 /\
  0 <= fragmentId h < 2 ^ 16 /\ 0 <= fragmentCount h < 2 ^ 16 /\
  0 <= length_ h < 2 ^ 32 /\ 0 <= identifier h < 2 ^ 32 /\
  0 <= conversationIndex h < 2 ^ 32 /\
  - 2 ^ 31 <= channelCode h < 2 ^ 31 /\
  0 <= expectsReply h < 2 ^ 32.

Definition payload_header_fits (p : DTXMessagePayloadHeader) : Prop :=
  0 <= flags p < 2 ^ 32 /\ 0 <= auxiliaryLength p < 2 ^ 32 /\
  0 <= totalLength p < 2 ^ 64.

(** Sample headers. *)
Definition sample_header : DTXMessageHeader :=
  mkDTXMessageHeader DTX_CONSTANTS.MESSAGE_HEADER_MAGIC 32 1 3 4096 7 0 (-5) 1.

Definition sample_payload_header : DTXMessagePayloadHeader :=
  mkDTXMessagePayloadHeader 0x1002 24 (2 ^ 40 + 17).

(** ** A state-and-exception monad

    Code that performs I/O is a function from the state before the call
    to the outcome (a value or a thrown error) and the state after it.
    An exception does not undo the effects that preceded it. *)

Definition SE (S A : Type) : Type := S -> result A * S.

Definition se_ret {S A : Type} (a : A) : SE S A := fun s => (Ok a, s).

Definition se_throw {S A : Type} (e : JsError) : SE S A :=
  fun s => (Throw e, s).

Definition se_bind {S A B : Type} (m : SE S A) (k : A -> SE S B) : SE S B :=
  fun s =>
    match m s with
    | (Ok a, s') => k a s'
    | (Throw e, s') => (Throw e, s')
    end.

(** [try { m } catch (e) { h e }]. *)
Definition se_catch {S A : Type} (m : SE S A) (h : JsError -> SE S A)
  : SE S A :=
  fun s =>
    match m s with
    | (Ok a, s') => (Ok a, s')
    | (Throw e, s') => h e s'
    end.

(** A pure computation that may throw, run inside stateful code. *)
Definition se_lift {S A : Type} (r : result A) : SE S A := fun s => (r, s).

Definition se_get {S : Type} : SE S S := fun s => (Ok s, s).
Definition se_put {S : Type} (s : S) : SE S unit := fun _ => (Ok tt, s).

Notation "x <~ m ;; k" := (se_bind m (fun x => k))
  (at level 100, m at next level, right associativity) : result_scope.
Notation "m ;;; k" := (se_bind m (fun _ => k))
  (at level 100, right associativity) : result_scope.

(** ** The file-conduit codec ([afc/constants.ts], [afc/codec.ts]) *)

(** JavaScript strings on the wire: a string is identified with the bytes
    of its UTF-8 encoding ([Buffer.from(s, 'utf8')] and
    [buf.toString('utf8')] are the two directions). *)
Definition utf8_bytes (s : string) : Buffer := list_byte_of_string s.
Definition utf8_string (b : Buffer) : string := string_of_list_byte b.

Fixpoint buffer_equals (a b : Buffer) : bool :=
  match a, b with
  | [], [] => true
  | x :: a', y :: b' => Byte.eqb x y && buffer_equals a' b'
  | _, _ => false
  end.

(** [Buffer.from('CFA6LPAA', 'ascii')]. *)
Definition AFCMAGIC : Buffer := utf8_bytes "CFA6LPAA".
Definition MAXIMUM_READ_SIZE : Z := 4 * 1024 * 1024.
Definition AFC_HEADER_SIZE : Z := 40.
Definition AFC_WRITE_THIS_LENGTH : Z := 48.
Definition NULL_BYTE : Buffer := [Init.Byte.x00].

Record AfcHeader : Type := mkAfcHeader {
  afc_magic : Buffer;
  entireLength : Z;
  thisLength : Z;
  packetNum_ : Z;
  operation : Z
}.

Record AfcResponse : Type := mkAfcResponse {
  resp_status : Z;
  resp_data : Buffer;
  resp_operation : Z;
  rawHeader : AfcHeader
}.

(** [writeUInt64LE(value)]: eight fresh bytes; [writeBigUInt64LE] throws
    unless the value is in [0, 2^64). *)
Definition writeUInt64LE (value : Z) : result Buffer :=
  writeBigUInt64LE (alloc 8) value 0.

Definition readUInt64LE (buf : Buffer) (offset : Z) : result Z :=
  readBigUInt64LE buf offset.

Definition cstr (str : string) : Buffer := utf8_bytes str ++ NULL_BYTE.

(** [source.copy(target, targetStart)] for a source that fits in the
    target at that offset. *)
Definition copy (source target : Buffer) (targetStart : nat) : Buffer :=
  write_at target targetStart source.

Definition encodeHeader (op : Z) (packetNum : Z) (payloadLen : Z)
           (thisLenOverride : option Z) : result Buffer :=
  let entireLen := AFC_HEADER_SIZE + payloadLen in
  let thisLen :=
    match thisLenOverride with
    | Some v => v
    | None => AFC_HEADER_SIZE + payloadLen
    end in
  let header := alloc (Z.to_nat AFC_HEADER_SIZE) in
  let header := copy AFCMAGIC header 0 in
  b <- writeUInt64LE entireLen ;;
  let header := copy b header 8 in
  b <- writeUInt64LE thisLen ;;
  let header := copy b header 16 in
  b <- writeUInt64LE packetNum ;;
  let header := copy b header 24 in
  b <- writeUInt64LE op ;;
  let header := copy b header 32 in
  Ok header.

(** *** The socket

    A [net.Socket] seen from one sequential client: the bytes received
    and not yet consumed ([SocketState.buffer] of the source), the events
    the socket will still emit, what has been written to it, and the
    remote end.  The remote end is a function of everything written so
    far: it gives the events the socket emits in reaction to the last
    write.  When the pending events run out while a reader waits, the
    read timeout of [readExact] fires. *)
Inductive SocketEvent : Type :=
| EvData (chunk : Buffer)
| EvError (e : JsError)
| EvClose.

Record Socket : Type := mkSocket {
  sock_buffer : Buffer;
  sock_events : list SocketEvent;
  sock_written : list Buffer;
  sock_write_error : option JsError;
  sock_destroyed : bool;
  sock_peer : list Buffer -> list SocketEvent
}.

Definition sock_with_input (s : Socket) (buffer : Buffer)
           (events : list SocketEvent) (destroyed : bool) : Socket :=
  mkSocket buffer events (sock_written s) (sock_write_error s) destroyed
           (sock_peer s).

(** The waiter registered by [readExact]: data events extend the buffer
    until [n] bytes are there; an error or close event rejects the waiter
    and drops the socket state (with its buffer); with no event left the
    timer rejects it. *)
Fixpoint await_bytes (n : Z) (s : Socket) (buffer : Buffer)
         (events : list SocketEvent) : result Buffer * Socket :=
  match events with
  | [] => (Throw (Err "readExact timeout"),
           sock_with_input s buffer [] (sock_destroyed s))
  | EvData chunk :: events' =>
      let buffer' := buffer ++ chunk in
      if n <=? blen buffer'
      then (Ok (subarray buffer' 0 n),
            sock_with_input s (subarray_from buffer' n) events'
                            (sock_destroyed s))
      else await_bytes n s buffer' events'
  | EvError e :: events' =>
      (Throw e, sock_with_input s [] events' true)
  | EvClose :: events' =>
      (Throw (Err "Socket closed"), sock_with_input s [] events' true)
  end.

Definition readExact (n : Z) : SE Socket Buffer :=
  fun s =>
    if n <=? blen (sock_buffer s)
    then (Ok (subarray (sock_buffer s) 0 n),
          sock_with_input s (subarray_from (sock_buffer s) n)
                          (sock_events s) (sock_destroyed s))
    else await_bytes n s (sock_buffer s) (sock_events s).

Definition readAfcHeader : SE Socket AfcHeader :=
  buf <~ readExact AFC_HEADER_SIZE ;;
  let magic := subarray buf 0 8 in
  if negb (buffer_equals magic AFCMAGIC)
  then se_throw (Err "Invalid AFC magic")
  else
    se_lift (
      entireLength <- readUInt64LE buf 8 ;;
      thisLength <- readUInt64LE buf 16 ;;
      packetNum <- readUInt64LE buf 24 ;;
      operation <- readUInt64LE buf 32 ;;
      Ok (mkAfcHeader magic entireLength thisLength packetNum operation)).

(** [socket.write(data, cb)]. *)
Definition socket_write (data : Buffer) : SE Socket unit :=
  fun s =>
    match sock_write_error s with
    | Some e => (Throw e, s)
    | None =>
        let written := sock_written s ++ [data] in
        (Ok tt, mkSocket (sock_buffer s)
                         (sock_events s ++ sock_peer s written)
                         written None (sock_destroyed s) (sock_peer s))
    end.

Definition sendAfcPacket (op : Z) (packetNum : Z) (payload : Buffer)
           (thisLenOverride : option Z) : SE Socket unit :=
  header <~ se_lift (encodeHeader op packetNum (blen payload) thisLenOverride) ;;
  socket_write header ;;;
  if 0 <? blen payload then socket_write payload else se_ret tt.

(** [parseCStringArray]: the pieces between NUL bytes, an unterminated
    last piece included, with trailing empty strings dropped. *)
Fixpoint cstring_parts (cur : Buffer) (buf : Buffer) : list string :=
  match buf with
  | [] => match cur with [] => [] | _ => [utf8_string cur] end
  | b :: rest =>
      if Byte.eqb b Init.Byte.x00
      then utf8_string cur :: cstring_parts [] rest
      else cstring_parts (cur ++ [b]) rest
  end.

Fixpoint pop_trailing_empty (parts : list string) : list string :=
  match parts with
  | [] => []
  | p :: rest =>
      match pop_trailing_empty rest with
      | [] => if String.eqb p "" then [] else [p]
      | rest' => p :: rest'
      end
  end.

Definition parseCStringArray (buf : Buffer) : list string :=
  pop_trailing_empty (cstring_parts [] buf).

(** A JavaScript object with string values, as the list of its entries
    in insertion order; assigning to an existing key replaces its value
    in place. *)
Fixpoint kv_set (kv : list (string * string)) (k v : string)
  : list (string * string) :=
  match kv with
  | [] => [(k, v)]
  | (k', v') :: rest =>
      if String.eqb k' k then (k, v) :: rest else (k', v') :: kv_set rest k v
  end.

Fixpoint kv_get (kv : list (string * string)) (k : string) : option string :=
  match kv with
  | [] => None
  | (k', v') :: rest => if String.eqb k' k then Some v' else kv_get rest k
  end.

Fixpoint table_get (table : list (string * Z)) (k : string) : option Z :=
  match table with
  | [] => None
  | (k', v') :: rest => if String.eqb k' k then Some v' else table_get rest k
  end.

Fixpoint pair_up (kv : list (string * string)) (arr : list string)
  : list (string * string) :=
  match arr with
  | k :: v :: rest => pair_up (kv_set kv k v) rest
  | _ => kv
  end.

Definition parseKeyValueNullList (buf : Buffer)
  : result (list (string * string)) :=
  let arr := parseCStringArray buf in
  if negb (Nat.even (length arr))
  then Throw (Err "Invalid key/value AFC list (odd number of entries)")
  else Ok (pair_up [] arr).

Definition buildFopenPayload (mode : Z) (path : string) : result Buffer :=
  m <- writeUInt64LE mode ;; Ok (m ++ cstr path).

Definition buildReadPayload (handle size : Z) : result Buffer :=
  h <- writeUInt64LE handle ;;
  s <- writeUInt64LE size ;;
  Ok (h ++ s).

Definition buildClosePayload (handle : Z) : result Buffer :=
  writeUInt64LE handle.

Definition buildRemovePayload (path : string) : Buffer := cstr path.
Definition buildMkdirPayload (path : string) : Buffer := cstr path.
Definition buildStatPayload (path : string) : Buffer := cstr path.

Definition buildRenamePayload (src dst : string) : Buffer :=
  cstr src ++ cstr dst.

Definition nextReadChunkSize (left : Z) : Z := left.

(** *** What the sources import from outside [src/]

    [afc/enums.ts] (the numeric operation and status codes, the file-type
    tags and the open modes) is not part of the sources at hand, and
    [BigInt(string)], [Number.parseInt(string, 10)] and [path.posix.join]
    are builtins.  They are parameters of the model. *)
Class AfcEnv : Type := {
  OP_STATUS : Z;
  OP_READ_DIR : Z;
  OP_GET_FILE_INFO : Z;
  OP_FILE_OPEN : Z;
  OP_FILE_CLOSE : Z;
  OP_REMOVE_PATH : Z;
  OP_RENAME_PATH : Z;
  OP_READ : Z;
  OP_WRITE : Z;
  AFC_SUCCESS : Z;
  AFC_OBJECT_NOT_FOUND : Z;
  S_IFDIR : string;
  S_IFREG : string;
  S_IFLNK : string;
  (** [AFC_FOPEN_TEXTUAL_MODES]: textual mode to [AfcFopenMode]. *)
  fopen_modes : list (string * Z);
  (** [BigInt(s)]; [None] when it throws a SyntaxError. *)
  BigInt_of_string : string -> option Z;
  (** [Number.parseInt(s, 10)]; [None] is NaN. *)
  parseInt10 : string -> option Z;
  (** [path.posix.join(a, b)]. *)
  posix_join : string -> string -> string
}.

Section AfcCodec.
Context `{AfcEnv}.

Definition readAfcResponse : SE Socket AfcResponse :=
  header <~ readAfcHeader ;;
  let payloadLen := entireLength header - AFC_HEADER_SIZE in
  payload <~ (if 0 <? payloadLen then readExact payloadLen else se_ret []) ;;
  let op := operation header in
  if op =? OP_STATUS
  then
    status <~ se_lift (readUInt64LE (subarray payload 0 8) 0) ;;
    se_ret (mkAfcResponse status [] op header)
  else se_ret (mkAfcResponse AFC_SUCCESS payload op header).

(** [BigInt(kv[key])]: a missing key is [BigInt(undefined)], a
    TypeError. *)
Definition BigInt_of_field (kv : list (string * string)) (key : string)
  : result Z :=
  match kv_get kv key with
  | None => Throw TypeErr
  | Some s =>
      match BigInt_of_string s with
      | Some z => Ok z
      | None => Throw TypeErr
      end
  end.

(** [Number.parseInt(kv[key], 10)]: NaN for a missing key. *)
Definition parseInt_of_field (kv : list (string * string)) (key : string)
  : option Z :=
  match kv_get kv key with
  | None => None
  | Some s => parseInt10 s
  end.

(** [Number(BigInt(nanoseconds) / 1000000n)]: BigInt division truncates
    towards zero. *)
Definition nanosecondsToMilliseconds (kv : list (string * string))
           (key : string) : result Z :=
  ns <- BigInt_of_field kv key ;; Ok (Z.quot ns 1000000).

End AfcCodec.

(** ** The file-conduit client ([afc/index.ts], [afc/stream-utils.ts]) *)

Definition NON_LISTABLE_ENTRIES : list string := [""; "."; ".."]%string.

(** The typed attributes of [StatInfo]; dates are kept as the
    millisecond count given to [new Date]; every other attribute sent by
    the device ([st_ifmt], [LinkTarget], ...) is passed through as a
    string. *)
Record StatInfo : Type := mkStatInfo {
  st_size : Z;
  st_blocks : option Z;
  st_mtime : Z;
  st_birthtime : Z;
  st_nlink : option Z;
  st_extra : list (string * string)
}.

Definition stat_typed_keys : list string :=
  ["st_size"; "st_blocks"; "st_mtime"; "st_birthtime"; "st_nlink"]%string.

Definition st_ifmt (st : StatInfo) : option string :=
  kv_get (st_extra st) "st_ifmt".

Definition LinkTarget (st : StatInfo) : option string :=
  kv_get (st_extra st) "LinkTarget".

(** The outcome of [net.createConnection] followed by the RSD check-in,
    which the client performs when it has no live socket. *)
Inductive DialOutcome : Type :=
| DialError (e : JsError)
| DialHandshakeError (s : Socket) (e : JsError)
| DialReady (s : Socket).

Record AfcService : Type := mkAfcService {
  socket : option Socket;
  packetNum : Z;
  network : list DialOutcome
}.

(** What one iteration of a fuelled loop or recursion returns: [None]
    when the fuel ran out. *)
Definition SEF (S A : Type) : Type := S -> option (result A * S).

Definition sef_ret {S A : Type} (a : A) : SEF S A := fun s => Some (Ok a, s).

Definition sef_throw {S A : Type} (e : JsError) : SEF S A :=
  fun s => Some (Throw e, s).

Definition sef_lift {S A : Type} (m : SE S A) : SEF S A := fun s => Some (m s).

Definition sef_bind {S A B : Type} (m : SEF S A) (k : A -> SEF S B)
  : SEF S B :=
  fun s =>
    match m s with
    | None => None
    | Some (Ok a, s') => k a s'
    | Some (Throw e, s') => Some (Throw e, s')
    end.

Definition sef_catch {S A : Type} (m : SEF S A) (h : JsError -> SEF S A)
  : SEF S A :=
  fun s =>
    match m s with
    | None => None
    | Some (Ok a, s') => Some (Ok a, s')
    | Some (Throw e, s') => h e s'
    end.

Notation "x <~~ m ;; k" := (sef_bind m (fun x => k))
  (at level 100, m at next level, right associativity) : result_scope.

Section AfcService.
Context `{AfcEnv}.

Definition _connect : SE AfcService unit :=
  fun svc =>
    let dial :=
      match network svc with
      | [] => (Throw (Err "AFC connect timed out"), svc)
      | DialError e :: rest =>
          (Throw e, mkAfcService (socket svc) (packetNum svc) rest)
      | DialHandshakeError s e :: rest =>
          (Throw e, mkAfcService (Some s) (packetNum svc) rest)
      | DialReady s :: rest =>
          (Ok tt, mkAfcService (Some s) (packetNum svc) rest)
      end in
    match socket svc with
    | Some s => if sock_destroyed s then dial else (Ok tt, svc)
    | None => dial
    end.

(** Run socket code on [this.socket] once [_connect] returned it. *)
Definition on_socket {A : Type} (m : SE Socket A) : SE AfcService A :=
  fun svc =>
    match socket svc with
    | Some s =>
        let '(r, s') := m s in
        (r, mkAfcService (Some s') (packetNum svc) (network svc))
    | None => (Throw TypeErr, svc)
    end.

(** [this.packetNum++]. *)
Definition next_packetNum : SE AfcService Z :=
  fun svc =>
    (Ok (packetNum svc),
     mkAfcService (socket svc) (packetNum svc + 1) (network svc)).

Definition _dispatch (op : Z) (payload : Buffer)
           (thisLenOverride : option Z) : SE AfcService unit :=
  _connect ;;;
  n <~ next_packetNum ;;
  on_socket (sendAfcPacket op n payload thisLenOverride).

Definition _receive : SE AfcService (Z * Buffer) :=
  _connect ;;;
  res <~ on_socket readAfcResponse ;;
  se_ret (resp_status res, resp_data res).

Definition _doOperation (op : Z) (payload : Buffer)
           (thisLenOverride : option Z) : SE AfcService Buffer :=
  _dispatch op payload thisLenOverride ;;;
  res <~ _receive ;;
  let status := fst res in
  let data := snd res in
  if negb (status =? AFC_SUCCESS)
  then
    if status =? AFC_OBJECT_NOT_FOUND
    then se_throw (Err "AFC error: OBJECT_NOT_FOUND")
    else se_throw (Err "AFC operation failed")
  else se_ret data.

Definition listdir (dirPath : string) : SE AfcService (list string) :=
  data <~ _doOperation OP_READ_DIR (buildStatPayload dirPath) None ;;
  let entries := parseCStringArray data in
  se_ret (List.filter
            (fun x => negb (existsb (String.eqb x) NON_LISTABLE_ENTRIES))
            entries).

Definition stat (filePath : string) : SE AfcService StatInfo :=
  se_catch
    (data <~ _doOperation OP_GET_FILE_INFO (buildStatPayload filePath) None ;;
     kv <~ se_lift (parseKeyValueNullList data) ;;
     size <~ se_lift (BigInt_of_field kv "st_size") ;;
     let blocks := parseInt_of_field kv "st_blocks" in
     mtime <~ se_lift (nanosecondsToMilliseconds kv "st_mtime") ;;
     birthtime <~ se_lift (nanosecondsToMilliseconds kv "st_birthtime") ;;
     let nlink := parseInt_of_field kv "st_nlink" in
     let extra :=
       List.filter (fun '(k, _) => negb (existsb (String.eqb k) stat_typed_keys))
              kv in
     se_ret (mkStatInfo size blocks mtime birthtime nlink extra))
    (fun error => se_throw error).

Definition isdir (filePath : string) : SE AfcService bool :=
  st <~ stat filePath ;;
  se_ret (match st_ifmt st with
          | Some m => String.eqb m S_IFDIR
          | None => false
          end).

Definition exists_ (filePath : string) : SE AfcService bool :=
  se_catch (stat filePath ;;; se_ret true) (fun _ => se_ret false).

Definition fopen (filePath : string) (mode : string) : SE AfcService Z :=
  match table_get fopen_modes mode with
  | Some afcMode =>
      if afcMode =? 0
      then se_throw (Err "Invalid fopen mode")
      else
        se_catch
          (payload <~ se_lift (buildFopenPayload afcMode filePath) ;;
           data <~ _doOperation OP_FILE_OPEN payload None ;;
           se_lift (readBigUInt64LE data 0))
          (fun error => se_throw error)
  | None => se_throw (Err "Invalid fopen mode")
  end.
End AfcService.

Section AfcOperations.
Context `{AfcEnv}.

Definition fclose (handle : Z) : SE AfcService unit :=
  payload <~ se_lift (buildClosePayload handle) ;;
  _doOperation OP_FILE_CLOSE payload None ;;;
  se_ret tt.

(** The loop of [fwrite], one unit of fuel per chunk. *)
Fixpoint fwrite_loop (fuel : nat) (handle : Z) (data : Buffer)
         (chunkSize : Z) (offset : Z) : SEF AfcService unit :=
  if offset <? blen data
  then
    match fuel with
    | O => fun _ => None
    | S fuel' =>
        let end_ := Z.min (offset + chunkSize) (blen data) in
        let chunk := subarray data offset end_ in
        h <~~ sef_lift (se_lift (writeUInt64LE handle)) ;;
        _ <~~ sef_lift (_dispatch OP_WRITE (h ++ chunk)
                                  (Some AFC_WRITE_THIS_LENGTH)) ;;
        res <~~ sef_lift _receive ;;
        if negb (fst res =? AFC_SUCCESS)
        then sef_throw (Err "fwrite chunk failed")
        else fwrite_loop fuel' handle data chunkSize end_
    end
  else sef_ret tt.

(** [fwrite(handle, data, chunkSize = data.length)]. *)
Definition fwrite (fuel : nat) (handle : Z) (data : Buffer)
           (chunkSize : option Z) : SEF AfcService unit :=
  let effectiveChunkSize :=
    match chunkSize with Some c => c | None => blen data end in
  fwrite_loop fuel handle data effectiveChunkSize 0.

Definition rmSingle (filePath : string) (force : bool)
  : SE AfcService bool :=
  se_catch
    (_doOperation OP_REMOVE_PATH (buildRemovePayload filePath) None ;;;
     se_ret true)
    (fun error => if force then se_ret false else se_throw error).

(** The [for ... of] loop of [rm] over the entries of a directory;
    [rm_rec] is the recursive call [this.rm]. *)
Fixpoint rm_entries (rm_rec : string -> bool -> SEF AfcService (list string))
         (filePath : string) (entries : list string)
         (failedPaths : list string) : SEF AfcService (list string) :=
  match entries with
  | [] => sef_ret failedPaths
  | entry :: rest =>
      let cur := posix_join filePath entry in
      d <~~ sef_lift (isdir cur) ;;
      if d
      then
        sub <~~ rm_rec cur true ;;
        rm_entries rm_rec filePath rest (failedPaths ++ sub)
      else
        ok <~~ sef_lift (rmSingle cur true) ;;
        rm_entries rm_rec filePath rest
                   (if ok then failedPaths else failedPaths ++ [cur])
  end.

(** [rm(filePath, force = false)], one unit of fuel per level of
    directory nesting. *)
Fixpoint rm (fuel : nat) (filePath : string) (force : bool)
  : SEF AfcService (list string) :=
  match fuel with
  | O => fun _ => None
  | S fuel' =>
      ex <~~ sef_lift (exists_ filePath) ;;
      if negb ex
      then sef_ret (if force then [] else [filePath])
      else
        d <~~ sef_lift (isdir filePath) ;;
        if negb d
        then
          ok <~~ sef_lift (rmSingle filePath force) ;;
          sef_ret (if ok then [] else [filePath])
        else
          entries <~~ sef_lift (listdir filePath) ;;
          failedPaths <~~ rm_entries (rm fuel') filePath entries [] ;;
          sef_catch
            (ok <~~ sef_lift (rmSingle filePath force) ;;
             sef_ret (if ok then failedPaths else failedPaths ++ [filePath]))
            (fun err =>
               match failedPaths with
               | _ :: _ => sef_ret (failedPaths ++ [filePath])
               | [] => sef_throw err
               end)
  end.

Definition rename (src dst : string) : SE AfcService unit :=
  se_catch
    (_doOperation OP_RENAME_PATH (buildRenamePayload src dst) None ;;;
     se_ret tt)
    (fun error => se_throw error).

(** What one call of the [read()] handler of [createAfcReadStream]
    does to the stream. *)
Inductive ReadStep : Type :=
| PushEnd
| PushData (data : Buffer) (ended : bool)
| Destroy (e : JsError).

(** The [read()] handler; [left] is the byte count still expected, and
    the new value of [left] is returned with the step. *)
Definition afc_read_stream_read (handle : Z) (left : Z)
  : AfcService -> (ReadStep * Z) * AfcService :=
  fun svc =>
    if left <=? 0 then ((PushEnd, left), svc)
    else
      let toRead := nextReadChunkSize left in
      let run :=
        (payload <~ se_lift (buildReadPayload handle toRead) ;;
         _dispatch OP_READ payload None ;;;
         _receive) in
      match run svc with
      | (Throw e, svc') => ((Destroy e, left), svc')
      | (Ok (status, data), svc') =>
          if negb (status =? AFC_SUCCESS)
          then ((Destroy (Err "fread error"), left), svc')
          else ((PushData data (blen data <? toRead), left - blen data),
                svc')
      end.

(** The loop of the [write()] handler of [createAfcWriteStream]; the
    error given to the callback is the thrown error of the model. *)
Fixpoint afc_write_stream_loop (fuel : nat) (handle : Z) (chunk : Buffer)
         (chunkSize : option Z) (offset : Z) : SEF AfcService unit :=
  if offset <? blen chunk
  then
    match fuel with
    | O => fun _ => None
    | S fuel' =>
        let end_ :=
          Z.min (offset + match chunkSize with
                          | Some c => c
                          | None => blen chunk
                          end)
                (blen chunk) in
        let subchunk := subarray chunk offset end_ in
        h <~~ sef_lift (se_lift (writeUInt64LE handle)) ;;
        _ <~~ sef_lift (_dispatch OP_WRITE (h ++ subchunk)
                                  (Some AFC_WRITE_THIS_LENGTH)) ;;
        res <~~ sef_lift _receive ;;
        if negb (fst res =? AFC_SUCCESS)
        then sef_throw (Err "fwrite chunk failed")
        else afc_write_stream_loop fuel' handle chunk chunkSize end_
    end
  else sef_ret tt.

Definition afc_write_stream_write (fuel : nat) (handle : Z)
           (chunk : Buffer) (chunkSize : option Z) : SEF AfcService unit :=
  afc_write_stream_loop fuel handle chunk chunkSize 0.

End AfcOperations.

(** The bytes a reader of the socket can still obtain: the data events
    that precede the first error or close event (or the read timeout). *)
Fixpoint pending_bytes (events : list SocketEvent) : Buffer :=
  match events with
  | EvData chunk :: rest => chunk ++ pending_bytes rest
  | _ => []
  end.

Definition readable_bytes (s : Socket) : Buffer :=
  sock_buffer s ++ pending_bytes (sock_events s).

(** Sample sockets with a silent remote end and a fixed list of events:
    one that closes after ten bytes, one that delivers forty zero bytes,
    and one that delivers a well-formed header in two chunks. *)
Definition socket_of_events (events : list SocketEvent) : Socket :=
  mkSocket [] events [] None false (fun _ => []).

Definition sample_socket_short : Socket :=
  socket_of_events [EvData (alloc 10); EvClose].

Definition sample_socket_zeros : Socket :=
  socket_of_events [EvData (alloc 40)].

Definition sample_socket_header : Socket :=
  socket_of_events
    [EvData (AFCMAGIC ++ le_split 8 43);
     EvData (le_split 8 40 ++ le_split 8 7 ++ le_split 8 1 ++ alloc 3)].

(** *** Well-formed packets on the wire

    [header_lengths_ok hdr n] reads the length fields of an encoded
    header back and relates them to a payload of [n] bytes. *)
Definition header_lengths_ok `{AfcEnv} (hdr : Buffer) (payloadLen : Z) : Prop :=
  blen hdr = AFC_HEADER_SIZE /\
  firstn 8 hdr = AFCMAGIC /\
  exists entire this op,
    readUInt64LE hdr 8 = Ok entire /\
    readUInt64LE hdr 16 = Ok this /\
    readUInt64LE hdr 32 = Ok op /\
    entire = AFC_HEADER_SIZE + payloadLen /\
    (op <> OP_WRITE -> this = entire) /\
    (op = OP_WRITE -> this = AFC_WRITE_THIS_LENGTH).

(** The writes made on a socket, split into packets: a header alone when
    the payload is empty, a header followed by its payload otherwise. *)
Inductive packets_ok `{AfcEnv} : list Buffer -> Prop :=
| packets_nil : packets_ok []
| packets_bare (hdr : Buffer) (rest : list Buffer) :
    header_lengths_ok hdr 0 -> packets_ok rest -> packets_ok (hdr :: rest)
| packets_payload (hdr payload : Buffer) (rest : list Buffer) :
    0 < blen payload -> header_lengths_ok hdr (blen payload) ->
    packets_ok rest -> packets_ok (hdr :: payload :: rest).

Definition dialed_socket (d : DialOutcome) : option Socket :=
  match d with
  | DialError _ => None
  | DialHandshakeError s _ => Some s
  | DialReady s => Some s
  end.

Definition socket_packets_ok `{AfcEnv} (s : option Socket) : Prop :=
  match s with
  | Some s => packets_ok (sock_written s)
  | None => True
  end.

(** Every packet written so far, on the current socket and on the
    sockets a reconnection would yield, is well formed. *)
Definition wire_ok `{AfcEnv} (svc : AfcService) : Prop :=
  socket_packets_ok (socket svc) /\
  Forall (fun d => socket_packets_ok (dialed_socket d)) (network svc).

(** The operation code of WRITE differs from the codes of the other
    operations the client sends, as in every numeric enum without
    aliases. *)
Definition write_opcode_distinct `{AfcEnv} : Prop :=
  ~ In OP_WRITE [OP_READ_DIR; OP_GET_FILE_INFO; OP_FILE_OPEN; OP_FILE_CLOSE;
                 OP_REMOVE_PATH; OP_RENAME_PATH; OP_READ].

Definition wire_ok_after `{AfcEnv} {A : Type}
           (o : option (result A * AfcService)) : Prop :=
  match o with
  | Some (_, svc') => wire_ok svc'
  | None => True
  end.

(** *** Stand-ins used to run examples

    The numeric codes are those of the AFC protocol ([afc/enums.ts]
    itself is not among the sources).  [decimal_of_string] reads a
    string of decimal digits, on which [BigInt] and [Number.parseInt]
    agree with it; [join_segment] is [path.posix.join] on a directory
    path without trailing slash and a plain entry name. *)
Fixpoint digits_value (acc : Z) (s : string) : option Z :=
  match s with
  | EmptyString => Some acc
  | String c rest =>
      let d := Z.of_nat (nat_of_ascii c) - 48 in
      if (0 <=? d) && (d <=? 9) then digits_value (10 * acc + d) rest
      else None
  end.

Definition decimal_of_string (s : string) : option Z :=
  match s with
  | EmptyString => None
  | _ => digits_value 0 s
  end.

Definition join_segment (dir entry : string) : string :=
  (dir ++ "/" ++ entry)%string.

Definition afc_protocol_env : AfcEnv := {|
  OP_STATUS := 1;
  OP_READ_DIR := 3;
  OP_GET_FILE_INFO := 10;
  OP_FILE_OPEN := 13;
  OP_FILE_CLOSE := 20;
  OP_REMOVE_PATH := 8;
  OP_RENAME_PATH := 24;
  OP_READ := 15;
  OP_WRITE := 16;
  AFC_SUCCESS := 0;
  AFC_OBJECT_NOT_FOUND := 8;
  S_IFDIR := "S_IFDIR";
  S_IFREG := "S_IFREG";
  S_IFLNK := "S_IFLNK";
  fopen_modes := [("r", 1); ("r+", 2); ("w", 3); ("w+", 4); ("a", 5);
                  ("a+", 6)]%string;
  BigInt_of_string := decimal_of_string;
  parseInt10 := decimal_of_string;
  posix_join := join_segment
|}.

(** A response of the device as it arrives on the socket: the 40-byte
    header followed by the payload. *)
Definition device_packet (op packetNum : Z) (payload : Buffer) : Buffer :=
  match encodeHeader op packetNum (blen payload) None with
  | Ok hdr => hdr ++ payload
  | Throw _ => []
  end.

(** A STATUS response carrying a status code. *)
Definition device_status (packetNum status : Z) : Buffer :=
  device_packet 1 packetNum (le_split 8 status).

(** A DATA response. *)
Definition device_data (packetNum : Z) (payload : Buffer) : Buffer :=
  device_packet 2 packetNum payload.

(** A client that has not connected yet and will be given [s]. *)
Definition service_dialing (s : Socket) : AfcService :=
  mkAfcService None 0 [DialReady s].

(** A client whose device acknowledges one request with status 0. *)
Definition sample_write_service : AfcService :=
  service_dialing (socket_of_events [EvData (device_status 0 0)]).

Definition sample_data : Buffer :=
  [Init.Byte.x61; Init.Byte.x62; Init.Byte.x63].

(** *** A model of the device end, used in scenarios

    The device keeps a table of paths, each a directory or a file, and
    answers the requests it finds in the bytes written to the socket:
    GET_FILE_INFO with the attributes of the path, READ_DIR with the
    names in a directory, REMOVE_PATH by deleting a file or an empty
    directory.  A missing path is answered with status 8
    (OBJECT_NOT_FOUND), a directory that is not empty with status 33. *)
Definition RemoteFs : Type := list (string * bool).

Fixpoint fs_lookup (fs : RemoteFs) (path : string) : option bool :=
  match fs with
  | [] => None
  | (p, d) :: rest => if String.eqb p path then Some d else fs_lookup rest path
  end.

Fixpoint strip_prefix (pre s : string) : option string :=
  match pre, s with
  | EmptyString, _ => Some s
  | String a pre', String b s' =>
      if Ascii.eqb a b then strip_prefix pre' s' else None
  | String _ _, EmptyString => None
  end.

Fixpoint has_slash (s : string) : bool :=
  match s with
  | EmptyString => false
  | String c rest => Ascii.eqb c "/" || has_slash rest
  end.

(** The name of [path] inside [dir], when [path] is an entry of [dir]. *)
Definition entry_name (dir path : string) : option string :=
  match strip_prefix (dir ++ "/") path with
  | Some name =>
      if has_slash name || String.eqb name "" then None else Some name
  | None => None
  end.

Definition fs_children (fs : RemoteFs) (dir : string) : list string :=
  omap (fun '(p, _) => entry_name dir p) fs.

Fixpoint until_nul (b : Buffer) : Buffer :=
  match b with
  | [] => []
  | x :: rest => if Byte.eqb x Init.Byte.x00 then [] else x :: until_nul rest
  end.

Definition device_attributes (isdir : bool) : Buffer :=
  concat (map cstr
    ["st_size"; "4096"; "st_blocks"; "8"; "st_nlink"; "1";
     "st_ifmt"; if isdir then "S_IFDIR" else "S_IFREG";
     "st_mtime"; "1700000000000000000";
     "st_birthtime"; "1600000000000000000"]%string).

Definition device_handle (fs : RemoteFs) (op packetNum : Z) (payload : Buffer)
  : RemoteFs * Buffer :=
  let path := utf8_string (until_nul payload) in
  if op =? 10 then
    match fs_lookup fs path with
    | Some d => (fs, device_data packetNum (device_attributes d))
    | None => (fs, device_status packetNum 8)
    end
  else if op =? 3 then
    match fs_lookup fs path with
    | Some true =>
        (fs, device_data packetNum
               (concat (map cstr ("." :: ".." :: fs_children fs path)%string)))
    | _ => (fs, device_status packetNum 8)
    end
  else if op =? 8 then
    match fs_lookup fs path with
    | None => (fs, device_status packetNum 8)
    | Some d =>
        match fs_children fs path with
        | [] => (List.filter (fun '(p, _) => negb (String.eqb p path)) fs,
                 device_status packetNum 0)
        | _ :: _ => (fs, device_status packetNum 33)
        end
    end
  else (fs, device_status packetNum 0).

(** The device reads whole packets off the byte stream, as long as one
    is complete. *)
Fixpoint device_run (fuel : nat) (fs : RemoteFs) (bytes : Buffer)
  : RemoteFs * list Buffer :=
  match fuel with
  | O => (fs, [])
  | S fuel' =>
      if blen bytes <? AFC_HEADER_SIZE then (fs, [])
      else
        let entire := le_combine (firstn 8 (skipn 8 bytes)) in
        if (entire <? AFC_HEADER_SIZE) || (blen bytes <? entire)
        then (fs, [])
        else
          let packetNum := le_combine (firstn 8 (skipn 24 bytes)) in
          let op := le_combine (firstn 8 (skipn 32 bytes)) in
          let payload := subarray bytes AFC_HEADER_SIZE entire in
          let '(fs', response) := device_handle fs op packetNum payload in
          let '(fs'', responses) :=
            device_run fuel' fs' (subarray_from bytes entire) in
          (fs'', response :: responses)
  end.

Definition device_replay (fs : RemoteFs) (writes : list Buffer)
  : RemoteFs * list Buffer :=
  let bytes := concat writes in
  device_run (S (length bytes)) fs bytes.

(** The remote end of a socket connected to a device that starts with
    the table [fs]: the responses the last write completes. *)
Definition device_peer (fs : RemoteFs) : list Buffer -> list SocketEvent :=
  fun writes =>
    let before := snd (device_replay fs (removelast writes)) in
    let after := snd (device_replay fs writes) in
    map EvData (skipn (length before) after).

Definition device_socket (fs : RemoteFs) : Socket :=
  mkSocket [] [] [] None false (device_peer fs).

(** The table of the device after the writes made on the socket of a
    client. *)
Definition device_fs_after (fs : RemoteFs) (svc : AfcService)
  : option RemoteFs :=
  option_map (fun s => fst (device_replay fs (sock_written s))) (socket svc).

(** The paths of the REMOVE_PATH requests among the writes made on the
    socket of a client, in the order they were sent. *)
Fixpoint removed_paths (writes : list Buffer) : list string :=
  match writes with
  | hdr :: payload :: rest =>
      if le_combine (firstn 8 (skipn 32 hdr)) =? 8
      then utf8_string (until_nul payload) :: removed_paths rest
      else removed_paths rest
  | _ => []
  end.

(** A device holding a directory with one file and one empty
    subdirectory, next to an unrelated file. *)
Definition sample_fs : RemoteFs :=
  [("/stuff", true); ("/stuff/a.txt", false); ("/stuff/sub", true);
   ("/other", false)]%string.

Definition sample_rm_service : AfcService :=
  service_dialing (device_socket sample_fs).

(** *** Scenarios for [rm]

    [removes_entries dir entries s s']: starting in state [s], the device
    presents every entry of [dir] in [entries] either as something that
    is not a directory, or as a directory that exists and lists no entry,
    and accepts its removal; [s'] is the state after the last removal. *)
Inductive removes_entries `{AfcEnv} (dir : string)
  : list string -> AfcService -> AfcService -> Prop :=
| removes_none (s : AfcService) : removes_entries dir [] s s
| removes_file (entry : string) (rest : list string)
               (s s1 s2 s3 : AfcService) :
    isdir (posix_join dir entry) s = (Ok false, s1) ->
    rmSingle (posix_join dir entry) true s1 = (Ok true, s2) ->
    removes_entries dir rest s2 s3 ->
    removes_entries dir (entry :: rest) s s3
| removes_empty_dir (entry : string) (rest : list string)
                    (s s1 s2 s3 s4 s5 s6 : AfcService) :
    isdir (posix_join dir entry) s = (Ok true, s1) ->
    exists_ (posix_join dir entry) s1 = (Ok true, s2) ->
    isdir (posix_join dir entry) s2 = (Ok true, s3) ->
    listdir (posix_join dir entry) s3 = (Ok [], s4) ->
    rmSingle (posix_join dir entry) true s4 = (Ok true, s5) ->
    removes_entries dir rest s5 s6 ->
    removes_entries dir (entry :: rest) s s6.

(** Clients whose [stat] fails for different reasons: the connection
    cannot be established; the device answers with a status other than
    OBJECT_NOT_FOUND (here 7); the response does not start with the
    magic; the attribute list has an odd number of entries; the size
    attribute is not a number. *)
Definition service_unreachable : AfcService :=
  mkAfcService None 0 [DialError (Err "ECONNREFUSED")].

Definition service_scripted (responses : list Buffer) : AfcService :=
  service_dialing (socket_of_events (map EvData responses)).

Definition service_denied : AfcService :=
  service_scripted [device_status 0 7].

Definition service_garbled : AfcService :=
  service_scripted [alloc 40].

Definition service_odd_attributes : AfcService :=
  service_scripted
    [device_data 0 (concat (map cstr ["st_size"; "1"; "st_ifmt"]%string))].

Definition service_bad_size : AfcService :=
  service_scripted
    [device_data 0 (concat (map cstr ["st_size"; "big"]%string))].

(** ** Fragment reassembly ([dvt/channel-fragmenter.ts]) *)

Record ChannelFragmenter : Type := mkChannelFragmenter {
  messages : list Buffer;
  packetData : Buffer;
  streamPacketData : Buffer
}.

(** [new ChannelFragmenter()]. *)
Definition new_ChannelFragmenter : ChannelFragmenter :=
  mkChannelFragmenter [] [] [].

Module ChannelFragmenter.

(** [get()]: [this.messages.shift() || null].  A Buffer, even an empty
    one, is an object and so never replaced by [null]. *)
Definition get (f : ChannelFragmenter) : option Buffer * ChannelFragmenter :=
  match messages f with
  | [] => (None, f)
  | m :: rest =>
      (Some m, mkChannelFragmenter rest (packetData f) (streamPacketData f))
  end.

Definition addFragment (header : DTXMessageHeader) (chunk : Buffer)
           (f : ChannelFragmenter) : ChannelFragmenter :=
  if 0 <=? channelCode header
  then
    let packetData' := packetData f ++ chunk in
    if fragmentId header =? fragmentCount header - 1
    then mkChannelFragmenter (messages f ++ [packetData']) []
                             (streamPacketData f)
    else mkChannelFragmenter (messages f) packetData' (streamPacketData f)
  else
    let streamPacketData' := streamPacketData f ++ chunk in
    if fragmentId header =? fragmentCount header - 1
    then mkChannelFragmenter (messages f ++ [streamPacketData'])
                             (packetData f) []
    else mkChannelFragmenter (messages f) (packetData f) streamPacketData'.

End ChannelFragmenter.

(** Adding fragments one after the other. *)
Definition addFragments (frags : list (DTXMessageHeader * Buffer))
           (f : ChannelFragmenter) : ChannelFragmenter :=
  fold_left (fun f '(h, c) => ChannelFragmenter.addFragment h c f) frags f.

(** The accumulation buffer used for a channel code of the given sign. *)
Definition accumulator (regular : bool) (f : ChannelFragmenter) : Buffer :=
  if regular then packetData f else streamPacketData f.

(** [frags] are the fragments [0 .. n-1], in order, of one message of [n]
    fragments on channel codes of one sign ([regular]: code >= 0). *)
Definition fragments_in_order (regular : bool)
           (frags : list (DTXMessageHeader * Buffer)) : Prop :=
  forall (i : nat) (h : DTXMessageHeader) (c : Buffer),
    frags !! i = Some (h, c) ->
    fragmentId h = Z.of_nat i /\
    fragmentCount h = Z.of_nat (length frags) /\
    (0 <=? channelCode h) = regular.

(** ** Selector conversion ([dvt/channel.ts]) *)

(** [s.replace(/_/g, ':')]. *)
Fixpoint replace_underscores (s : string) : string :=
  match s with
  | EmptyString => EmptyString
  | String c rest =>
      String (if Ascii.eqb c "_" then ":"%char else c)
             (replace_underscores rest)
  end.

Definition convertToSelector (name : string) : string :=
  match name with
  | String c rest =>
      if Ascii.eqb c "_"
      then String "_" (replace_underscores rest)
      else replace_underscores name
  | EmptyString => replace_underscores name
  end.

(** Sample fragments: a message in three pieces on channel 4, and one on
    the stream channel -4. *)
Definition fragment_header (code id count : Z) : DTXMessageHeader :=
  mkDTXMessageHeader DTX_CONSTANTS.MESSAGE_HEADER_MAGIC 32 id count 0 1 0
                     code 0.

Definition sample_fragments (code : Z) : list (DTXMessageHeader * Buffer) :=
  [(fragment_header code 0 3, utf8_bytes "ab");
   (fragment_header code 1 3, utf8_bytes "");
   (fragment_header code 2 3, utf8_bytes "cde")].

(** ** JavaScript values

    The values a property list holds, and what the decoders build from
    them.  Numbers are integers (indices, lengths, identifiers); an
    object is the list of its own enumerable properties in insertion
    order; [JUid n] is an instance of the class [PlistUID], whose one
    property is [value]. *)
#[local] Set Warnings "-register-all".
Inductive JSValue : Type :=
| JUndefined
| JNull
| JBool (b : bool)
| JNum (n : Z)
| JBigInt (n : Z)
| JStr (s : string)
| JBuffer (b : Buffer)
| JDate (ms : Z)
| JUid (value : Z)
| JArr (items : list JSValue)
| JObj (fields : list (string * JSValue)).

Inductive JSType : Type :=
| TUndefined | TObject | TBoolean | TNumber | TBigInt | TString.

Definition typeof (v : JSValue) : JSType :=
  match v with
  | JUndefined => TUndefined
  | JNull => TObject
  | JBool _ => TBoolean
  | JNum _ => TNumber
  | JBigInt _ => TBigInt
  | JStr _ => TString
  | JBuffer _ | JDate _ | JUid _ | JArr _ | JObj _ => TObject
  end.

Definition is_type (t : JSType) (v : JSValue) : bool :=
  match t, typeof v with
  | TUndefined, TUndefined | TObject, TObject | TBoolean, TBoolean
  | TNumber, TNumber | TBigInt, TBigInt | TString, TString => true
  | _, _ => false
  end.

(** The value used as a condition. *)
Definition truthy (v : JSValue) : bool :=
  match v with
  | JUndefined | JNull => false
  | JBool b => b
  | JNum n | JBigInt n => negb (n =? 0)
  | JStr s => negb (String.eqb s "")
  | JBuffer _ | JDate _ | JUid _ | JArr _ | JObj _ => true
  end.

Definition isArray (v : JSValue) : bool :=
  match v with JArr _ => true | _ => false end.

Definition isBuffer (v : JSValue) : bool :=
  match v with JBuffer _ => true | _ => false end.

Fixpoint fields_get (fields : list (string * JSValue)) (key : string)
  : option JSValue :=
  match fields with
  | [] => None
  | (k, v) :: rest => if String.eqb k key then Some v else fields_get rest key
  end.

(** [obj[key] = value] on an object under construction. *)
Fixpoint fields_set (fields : list (string * JSValue)) (key : string)
         (value : JSValue) : list (string * JSValue) :=
  match fields with
  | [] => [(key, value)]
  | (k, v) :: rest =>
      if String.eqb k key then (key, value) :: rest
      else (k, v) :: fields_set rest key value
  end.

(** [key in v], for the property names the decoders ask for (none of
    them is an index, [length], or inherited from a prototype): a
    TypeError when [v] is not an object. *)
Definition has_property (key : string) (v : JSValue) : result bool :=
  match v with
  | JObj fields =>
      Ok (match fields_get fields key with Some _ => true | None => false end)
  | JUid _ => Ok (String.eqb key "value")
  | JBuffer _ | JDate _ | JArr _ => Ok false
  | JUndefined | JNull | JBool _ | JNum _ | JBigInt _ | JStr _ =>
      Throw TypeErr
  end.

(** [v[key]] for such a property name: [undefined] when the property is
    absent, a TypeError when [v] is [null] or [undefined]. *)
Definition get_property (v : JSValue) (key : string) : result JSValue :=
  match v with
  | JObj fields =>
      Ok (match fields_get fields key with Some x => x | None => JUndefined end)
  | JUid n => Ok (if String.eqb key "value" then JNum n else JUndefined)
  | JUndefined | JNull => Throw TypeErr
  | _ => Ok JUndefined
  end.

(** The decimal digits of a natural number, as the property name of an
    array index. *)
Definition index_key (i : nat) : string :=
  NilEmpty.string_of_uint (Nat.to_uint i).

Fixpoint indexed {A : Type} (i : nat) (l : list A) : list (string * A) :=
  match l with
  | [] => []
  | x :: rest => (index_key i, x) :: indexed (S i) rest
  end.

(** [Object.entries(v)] of an object. *)
Definition entries (v : JSValue) : list (string * JSValue) :=
  match v with
  | JObj fields => fields
  | JArr items => indexed 0 items
  | JBuffer b => indexed 0 (map (fun x => JNum (byte.unsigned x)) b)
  | JUid n => [("value"%string, JNum n)]
  | _ => []
  end.

(** Strict equality [===] with a string constant. *)
Definition is_string (s : string) (v : JSValue) : bool :=
  match v with JStr s' => String.eqb s' s | _ => false end.

(** ** The archive decoder ([dvt/nskeyedarchiver-decoder.ts])

    [decodeObject] is declared with a numeric [index], but the decoder
    also calls it with whatever value a reference slot of the archive
    holds.  For an index that is not a number, the outcome of the
    comparisons [index < 0] and [index >= length], the property
    [objects[index]], and the identity of the index as a key of a [Set]
    or [Map] follow the coercion rules of the language; they are
    parameters of the model. *)
Class JsCoercion : Type := {
  index_negative : JSValue -> bool;
  index_at_least : JSValue -> Z -> bool;
  index_element : list JSValue -> JSValue -> JSValue;
  same_key : JSValue -> JSValue -> bool
}.

Definition MAX_DECODE_DEPTH : Z := 1000.

(** The mutable objects of one decoding: the [visited] set handed down
    the recursion and the [decoded] cache of the decoder. *)
Record DecodeState : Type := mkDecodeState {
  visited : list JSValue;
  decoded : list (JSValue * JSValue)
}.

Record Decoder : Type := mkDecoder {
  archive : JSValue;
  objects : list JSValue;
  decoder_cache : list (JSValue * JSValue)
}.

Module NSKeyedArchiverDecoder.
Section Decoder.
Context `{JsCoercion}.

(** [index < 0]. *)
Definition lt_zero (index : JSValue) : bool :=
  match index with
  | JNum n => n <? 0
  | _ => index_negative index
  end.

(** [index >= len]. *)
Definition ge_length (index : JSValue) (len : Z) : bool :=
  match index with
  | JNum n => len <=? n
  | _ => index_at_least index len
  end.

(** [objs[index]]. *)
Definition element_at (objs : list JSValue) (index : JSValue) : JSValue :=
  match index with
  | JNum n => if n <? 0 then JUndefined else nth (Z.to_nat n) objs JUndefined
  | _ => index_element objs index
  end.

(** Equality of the keys of a [Set] or [Map]. *)
Definition key_eq (a b : JSValue) : bool :=
  match a, b with
  | JNum x, JNum y => x =? y
  | JNum _, _ | _, JNum _ => false
  | _, _ => same_key a b
  end.

Definition set_has (keys : list JSValue) (k : JSValue) : bool :=
  existsb (key_eq k) keys.

Definition set_add (keys : list JSValue) (k : JSValue) : list JSValue :=
  if set_has keys k then keys else keys ++ [k].

Definition set_delete (keys : list JSValue) (k : JSValue) : list JSValue :=
  List.filter (fun x => negb (key_eq k x)) keys.

Fixpoint map_get (m : list (JSValue * JSValue)) (k : JSValue)
  : option JSValue :=
  match m with
  | [] => None
  | (k', v) :: rest => if key_eq k k' then Some v else map_get rest k
  end.

Fixpoint map_set (m : list (JSValue * JSValue)) (k v : JSValue)
  : list (JSValue * JSValue) :=
  match m with
  | [] => [(k, v)]
  | (k', v') :: rest =>
      if key_eq k k' then (k', v) :: rest else (k', v') :: map_set rest k v
  end.

Definition visited_has (index : JSValue) : SEF DecodeState bool :=
  fun st => Some (Ok (set_has (visited st) index), st).

Definition visited_add (index : JSValue) : SEF DecodeState unit :=
  fun st => Some (Ok tt, mkDecodeState (set_add (visited st) index)
                                      (decoded st)).

Definition visited_delete (index : JSValue) : SEF DecodeState unit :=
  fun st => Some (Ok tt, mkDecodeState (set_delete (visited st) index)
                                      (decoded st)).

Definition decoded_get (index : JSValue) : SEF DecodeState (option JSValue) :=
  fun st => Some (Ok (map_get (decoded st) index), st).

Definition decoded_set (index value : JSValue) : SEF DecodeState unit :=
  fun st => Some (Ok tt, mkDecodeState (visited st)
                                      (map_set (decoded st) index value)).

Definition pure {A : Type} (r : result A) : SEF DecodeState A :=
  fun st => Some (r, st).

(** [typeof ref === 'object' && ref && 'CF$UID' in ref]: the operator
    [in] is only evaluated on an object. *)
Definition is_uid_object (ref : JSValue) : result bool :=
  if is_type TObject ref && truthy ref
  then has_property "CF$UID" ref
  else Ok false.

Section Loops.
(** The recursive calls [this.decodeObject(index, visited, depth)]. *)
Variable decodeObject_rec : JSValue -> Z -> SEF DecodeState JSValue.

Definition decode_ref (ref : JSValue) (depth : Z) : SEF DecodeState JSValue :=
  if is_type TNumber ref
  then decodeObject_rec ref (depth + 1)
  else
    isUid <~~ pure (is_uid_object ref) ;;
    if isUid
    then
      uid <~~ pure (get_property ref "CF$UID") ;;
      decodeObject_rec uid (depth + 1)
    else sef_ret ref.

(** [refs.map(...)] of [decodeArray]. *)
Fixpoint decode_refs (refs : list JSValue) (depth : Z)
  : SEF DecodeState (list JSValue) :=
  match refs with
  | [] => sef_ret []
  | ref :: rest =>
      v <~~ decode_ref ref depth ;;
      vs <~~ decode_refs rest depth ;;
      sef_ret (v :: vs)
  end.

Definition decodeArray (refs : JSValue) (depth : Z)
  : SEF DecodeState JSValue :=
  match refs with
  | JArr items =>
      vs <~~ decode_refs items depth ;; sef_ret (JArr vs)
  | _ => sef_ret (JArr [])
  end.

(** The loop of [decodeDictionary]. *)
Fixpoint decode_pairs (keyRefs valueRefs : list JSValue) (depth : Z)
         (result : list (string * JSValue))
  : SEF DecodeState (list (string * JSValue)) :=
  match keyRefs, valueRefs with
  | keyRef :: keyRefs', valueRef :: valueRefs' =>
      key <~~ decodeObject_rec keyRef (depth + 1) ;;
      value <~~ decodeObject_rec valueRef (depth + 1) ;;
      decode_pairs keyRefs' valueRefs' depth
                   (match key with
                    | JStr k => fields_set result k value
                    | _ => result
                    end)
  | _, _ => sef_ret result
  end.

Definition decodeDictionary (keyRefs valueRefs : JSValue) (depth : Z)
  : SEF DecodeState JSValue :=
  match keyRefs, valueRefs with
  | JArr ks, JArr vs =>
      fields <~~ decode_pairs ks vs depth [] ;; sef_ret (JObj fields)
  | _, _ => sef_ret (JObj [])
  end.

(** One property of a regular object. *)
Definition decode_field (objs : list JSValue) (value : JSValue) (depth : Z)
  : SEF DecodeState JSValue :=
  match value with
  | JNum n =>
      if (n <? Z.of_nat (length objs)) && (0 <=? n)
      then
        let referenced := element_at objs value in
        seen <~~ visited_has value ;;
        if truthy referenced && is_type TObject referenced
           && negb (is_string "$null" referenced) && negb seen
        then decodeObject_rec value (depth + 1)
        else sef_ret value
      else sef_ret value
  | _ =>
      isUid <~~ pure (is_uid_object value) ;;
      if isUid
      then
        uid <~~ pure (get_property value "CF$UID") ;;
        seen <~~ visited_has uid ;;
        if is_type TNumber uid && negb seen
        then decodeObject_rec uid (depth + 1)
        else sef_ret value
      else sef_ret value
  end.

(** The loop over [Object.entries(obj)] of a regular object. *)
Fixpoint decode_fields (objs : list JSValue)
         (fields : list (string * JSValue)) (depth : Z)
         (result : list (string * JSValue))
  : SEF DecodeState (list (string * JSValue)) :=
  match fields with
  | [] => sef_ret result
  | (key, value) :: rest =>
      if String.eqb key "$class"
      then decode_fields objs rest depth result
      else
        v <~~ decode_field objs value depth ;;
        decode_fields objs rest depth (fields_set result key v)
  end.

End Loops.

(** [decodeObject(index, visited, depth)]; one unit of fuel per level of
    recursion. *)
Fixpoint decodeObject (fuel : nat) (objs : list JSValue) (index : JSValue)
         (depth : Z) : SEF DecodeState JSValue :=
  if MAX_DECODE_DEPTH <? depth then sef_ret JNull
  else if lt_zero index || ge_length index (Z.of_nat (length objs))
  then sef_ret JNull
  else
    seen <~~ visited_has index ;;
    if seen then sef_ret JNull
    else
      cached <~~ decoded_get index ;;
      match cached with
      | Some v => sef_ret v
      | None =>
          match fuel with
          | O => fun _ => None
          | S fuel' =>
              _ <~~ visited_add index ;;
              let obj := element_at objs index in
              if is_string "$null" obj || match obj with
                                          | JNull => true
                                          | _ => false
                                          end
              then _ <~~ visited_delete index ;; sef_ret JNull
              else if negb (is_type TObject obj)
              then _ <~~ visited_delete index ;; sef_ret obj
              else if isBuffer obj
              then
                _ <~~ decoded_set index obj ;;
                _ <~~ visited_delete index ;;
                sef_ret obj
              else
                isUid <~~ pure (has_property "CF$UID" obj) ;;
                if isUid
                then
                  uid <~~ pure (get_property obj "CF$UID") ;;
                  result <~~ decodeObject fuel' objs uid (depth + 1) ;;
                  _ <~~ visited_delete index ;;
                  sef_ret result
                else
                  hasKeys <~~ pure (has_property "NS.keys" obj) ;;
                  hasObjects <~~ pure (has_property "NS.objects" obj) ;;
                  if hasKeys && hasObjects
                  then
                    keyRefs <~~ pure (get_property obj "NS.keys") ;;
                    valueRefs <~~ pure (get_property obj "NS.objects") ;;
                    result <~~ decodeDictionary (decodeObject fuel' objs)
                                                keyRefs valueRefs depth ;;
                    _ <~~ decoded_set index result ;;
                    _ <~~ visited_delete index ;;
                    sef_ret result
                  else if hasObjects
                  then
                    refs <~~ pure (get_property obj "NS.objects") ;;
                    result <~~ decodeArray (decodeObject fuel' objs)
                                           refs depth ;;
                    _ <~~ decoded_set index result ;;
                    _ <~~ visited_delete index ;;
                    sef_ret result
                  else
                    fields <~~ decode_fields (decodeObject fuel' objs) objs
                                             (entries obj) depth [] ;;
                    let result := JObj fields in
                    _ <~~ decoded_set index result ;;
                    _ <~~ visited_delete index ;;
                    sef_ret result
          end
      end.

(** [isNSKeyedArchive(data)]. *)
Definition isNSKeyedArchive (data : JSValue) : result bool :=
  if negb (truthy data) || negb (is_type TObject data) then Ok false
  else
    hasArchiver <- has_property "$archiver" data ;;
    if negb hasArchiver then Ok false
    else
      archiver <- get_property data "$archiver" ;;
      if negb (is_string "NSKeyedArchiver" archiver) then Ok false
      else
        hasObjects <- has_property "$objects" data ;;
        if negb hasObjects then Ok false
        else
          objs <- get_property data "$objects" ;;
          Ok (isArray objs).

(** [new NSKeyedArchiverDecoder(data)]. *)
Definition new (data : JSValue) : result Decoder :=
  isArchive <- isNSKeyedArchive data ;;
  if negb isArchive
  then Throw (Err "Data is not in NSKeyedArchiver format")
  else
    objs <- get_property data "$objects" ;;
    Ok (mkDecoder data
                  (match objs with JArr items => items | _ => [] end)
                  []).

(** The root index [decode] extracts from [$top]; [null] when there is
    none. *)
Definition root_index (d : Decoder) : result JSValue :=
  top <- get_property (archive d) "$top" ;;
  if truthy top && is_type TObject top
  then
    hasRoot <- has_property "root" top ;;
    if hasRoot
    then
      root <- get_property top "root" ;;
      if is_type TNumber root then Ok root
      else
        isUid <- is_uid_object root ;;
        if isUid then get_property root "CF$UID" else Ok JNull
    else Ok JNull
  else Ok JNull.

(** A call of [decodeObject] from [decode]: a new [visited] set, depth
    0, and the cache of the decoder. *)
Definition decodeObject_top (fuel : nat) (d : Decoder) (index : JSValue)
  : option (result JSValue * Decoder) :=
  match decodeObject fuel (objects d) index 0
                     (mkDecodeState [] (decoder_cache d)) with
  | Some (r, st) => Some (r, mkDecoder (archive d) (objects d) (decoded st))
  | None => None
  end.

(** [decode()]. *)
Definition decode (fuel : nat) (d : Decoder)
  : option (result JSValue * Decoder) :=
  match objects d with
  | [] => Some (Ok JNull, d)
  | _ :: _ =>
      match root_index d with
      | Throw e => Some (Throw e, d)
      | Ok rootIndex =>
          match rootIndex with
          | JNull => decodeObject_top fuel d (JNum 1)
          | _ => decodeObject_top fuel d rootIndex
          end
      end
  end.

End Decoder.
End NSKeyedArchiverDecoder.


(** [decodeNSKeyedArchiver(data)]: the data itself when it is not an
    archive or when the decoder throws. *)
Definition decodeNSKeyedArchiver `{JsCoercion} (fuel : nat) (data : JSValue)
  : option (result JSValue) :=
  if negb (truthy data) then Some (Ok data)
  else
    match NSKeyedArchiverDecoder.isNSKeyedArchive data with
    | Throw e => Some (Throw e)
    | Ok false => Some (Ok data)
    | Ok true =>
        match NSKeyedArchiverDecoder.new data with
        | Throw _ => Some (Ok data)
        | Ok decoder =>
            match NSKeyedArchiverDecoder.decode fuel decoder with
            | None => None
            | Some (Ok v, _) => Some (Ok v)
            | Some (Throw _, _) => Some (Ok data)
            end
        end
    end.

(** *** Stand-ins used to run examples

    Structural equality of values, and a coercion that treats an index
    that is not a number as one that compares false with every number
    and names no element (as [undefined] and plain objects do). *)
Fixpoint jsvalue_eqb (a b : JSValue) : bool :=
  let fix list_eqb (xs ys : list JSValue) : bool :=
    match xs, ys with
    | [], [] => true
    | x :: xs', y :: ys' => jsvalue_eqb x y && list_eqb xs' ys'
    | _, _ => false
    end in
  let fix fields_eqb (xs ys : list (string * JSValue)) : bool :=
    match xs, ys with
    | [], [] => true
    | (k, x) :: xs', (k', y) :: ys' =>
        String.eqb k k' && jsvalue_eqb x y && fields_eqb xs' ys'
    | _, _ => false
    end in
  match a, b with
  | JUndefined, JUndefined | JNull, JNull => true
  | JBool x, JBool y => Bool.eqb x y
  | JNum x, JNum y | JBigInt x, JBigInt y | JDate x, JDate y
  | JUid x, JUid y => x =? y
  | JStr x, JStr y => String.eqb x y
  | JBuffer x, JBuffer y => buffer_equals x y
  | JArr xs, JArr ys => list_eqb xs ys
  | JObj xs, JObj ys => fields_eqb xs ys
  | _, _ => false
  end.

Definition plain_coercion : JsCoercion := {|
  index_negative := fun _ => false;
  index_at_least := fun _ _ => false;
  index_element := fun _ _ => JUndefined;
  same_key := jsvalue_eqb
|}.

Definition uid (n : Z) : JSValue := JObj [("CF$UID"%string, JNum n)].

Definition archive_of (root : JSValue) (objs : list JSValue) : JSValue :=
  JObj [("$version", JNum 100000); ("$archiver", JStr "NSKeyedArchiver");
        ("$top", JObj [("root", root)]); ("$objects", JArr objs)]%string.





(** ** The instrumentation service ([dvt/index.ts], [dvt/utils.ts])

    The binary property-list codec ([lib/plist]) is outside the sources
    at hand; it is a parameter: [parseBinaryPlist] may throw, and
    [createBinaryPlist] gives the bytes of a value. *)
Class DvtEnv : Type := {
  parseBinaryPlist : Buffer -> result JSValue;
  createBinaryPlist : JSValue -> Buffer
}.

(** A message auxiliary value: its type tag and its value. *)
Record MessageAuxValue : Type := mkMessageAuxValue {
  aux_type : Z;
  aux_value : JSValue
}.

(** [MessageAux]: the list of values appended so far. *)
Module MessageAux.
Definition appendInt (value : Z) (values : list MessageAuxValue)
  : list MessageAuxValue :=
  values ++ [mkMessageAuxValue DTX_CONSTANTS.AUX_TYPE_INT32 (JNum value)].

Definition appendLong (value : Z) (values : list MessageAuxValue)
  : list MessageAuxValue :=
  values ++ [mkMessageAuxValue DTX_CONSTANTS.AUX_TYPE_INT64 (JBigInt value)].

Definition appendObj (value : JSValue) (values : list MessageAuxValue)
  : list MessageAuxValue :=
  values ++ [mkMessageAuxValue DTX_CONSTANTS.AUX_TYPE_OBJECT value].
End MessageAux.

(** A [Channel] object: the reference that identifies the object, and
    its channel code. *)
Record Channel : Type := mkChannel {
  channel_ref : nat;
  channel_code : Z
}.

Record DVTService : Type := mkDVTService {
  dvt_socket : option Socket;
  lastChannelCode : Z;
  curMessageId : Z;
  channelCache : gmap string Channel;
  channelMessages : gmap Z ChannelFragmenter;
  isHandshakeComplete : bool;
  readBuffer : Buffer;
  (** the reference the next [new Channel] receives *)
  next_ref : nat
}.

(** Functions of [dvt/utils.ts]. *)
Definition isPlainObject (value : JSValue) : bool :=
  match value with
  | JBuffer _ | JDate _ | JUid _ | JObj _ => true
  | _ => false
  end.

Definition has_own (key : string) (obj : JSValue) : bool :=
  match has_property key obj with
  | Ok b => b
  | Throw _ => false
  end.

Definition hasProperties (obj : JSValue) (props : list string) : bool :=
  if isPlainObject obj then forallb (fun prop => has_own prop obj) props
  else false.

Definition property_or_undefined (obj : JSValue) (key : string) : JSValue :=
  match get_property obj key with
  | Ok v => v
  | Throw _ => JUndefined
  end.

Definition isNSKeyedArchiverFormat (data : JSValue) : bool :=
  hasProperties data ["$objects"%string] &&
  match property_or_undefined data "$objects" with
  | JArr (_ :: _) => true
  | _ => false
  end.

Definition hasNSErrorIndicators (obj : JSValue) : bool :=
  if negb (isPlainObject obj) then false
  else existsb (fun prop => has_own prop obj)
               ["NSCode"; "NSUserInfo"; "NSDomain"]%string.

(** [extractNSKeyedArchiverObjects]: [None] is [null]. *)
Definition extractNSKeyedArchiverObjects (data : JSValue)
  : option (list JSValue) :=
  if negb (isNSKeyedArchiverFormat data) then None
  else
    match property_or_undefined data "$objects" with
    | JArr (x :: y :: rest) => Some (x :: y :: rest)
    | _ => None
    end.

Definition MIN_ERROR_DESCRIPTION_LENGTH : nat := 20.

(** The auxiliary types the receiver knows. *)
Definition known_aux_type (type : Z) : bool :=
  (type =? DTX_CONSTANTS.AUX_TYPE_INT32)
  || (type =? DTX_CONSTANTS.AUX_TYPE_INT64)
  || (type =? DTX_CONSTANTS.AUX_TYPE_OBJECT).

(** A fuelled computation without state: [None] when the fuel ran out. *)
Definition sef_of {S A : Type} (o : option (result A)) : SEF S A :=
  fun s => match o with Some r => Some (r, s) | None => None end.

Section DVT.
Context `{DvtEnv} `{JsCoercion}.

Definition checkForNSError (response : JSValue) : result unit :=
  if negb (truthy response) || negb (is_type TObject response) then Ok tt
  else
    match
      match extractNSKeyedArchiverObjects response with
      | Some objs =>
          if existsb hasNSErrorIndicators objs
          then Throw (Err "Failed to create channel")
          else Ok tt
      | None => Ok tt
      end
    with
    | Throw e => Throw e
    | Ok _ =>
        if hasNSErrorIndicators response
        then Throw (Err "Failed to create channel")
        else Ok tt
    end.

(** [archiveValue(value)]. *)
Definition archiveValue (value : JSValue) : Buffer :=
  let isNull := match value with JNull => true | _ => false end in
  let rootIndex := if isNull then 0 else 1 in
  let objs := if isNull then [JStr "$null"] else [JStr "$null"; value] in
  createBinaryPlist
    (JObj [("$version", JNum 100000);
           ("$archiver", JStr "NSKeyedArchiver");
           ("$top", JObj [("root", JUid rootIndex)]);
           ("$objects", JArr objs)]%string).

Definition archiveSelector (selector : string) : Buffer :=
  archiveValue (JStr selector).

(** A fresh buffer of [n] bytes holding one unsigned field. *)
Definition uint_buffer (n : nat) (v : Z) : result Buffer :=
  writeUIntLE n (alloc n) v 0.

(** The value bytes of one auxiliary item; a number is expected for an
    INT32 item and an integer for an INT64 item. *)
Definition aux_item_value (auxValue : MessageAuxValue) : result Buffer :=
  let type := aux_type auxValue in
  if type =? DTX_CONSTANTS.AUX_TYPE_INT32 then
    match aux_value auxValue with
    | JNum v => uint_buffer 4 v
    | _ => Throw TypeErr
    end
  else if type =? DTX_CONSTANTS.AUX_TYPE_INT64 then
    match aux_value auxValue with
    | JNum v | JBigInt v => uint_buffer 8 v
    | _ => Throw TypeErr
    end
  else if type =? DTX_CONSTANTS.AUX_TYPE_OBJECT then
    let encodedPlist := archiveValue (aux_value auxValue) in
    lengthBuffer <- uint_buffer 4 (blen encodedPlist) ;;
    Ok (lengthBuffer ++ encodedPlist)
  else Throw (Err "Unsupported auxiliary type").

Fixpoint aux_items (values : list MessageAuxValue) : result Buffer :=
  match values with
  | [] => Ok []
  | auxValue :: rest =>
      dictMarker <- uint_buffer 4 DTX_CONSTANTS.EMPTY_DICTIONARY ;;
      typeBuffer <- uint_buffer 4 (aux_type auxValue) ;;
      valueBuffer <- aux_item_value auxValue ;;
      restBuffer <- aux_items rest ;;
      Ok (dictMarker ++ typeBuffer ++ valueBuffer ++ restBuffer)
  end.

Definition buildAuxiliaryData (values : list MessageAuxValue)
  : result Buffer :=
  match values with
  | [] => Ok []
  | _ :: _ =>
      itemsData <- aux_items values ;;
      let header := alloc 16 in
      header <- writeBigUInt64LE header DTX_CONSTANTS.MESSAGE_AUX_MAGIC 0 ;;
      header <- writeBigUInt64LE header (blen itemsData) 8 ;;
      Ok (header ++ itemsData)
  end.

(** The bytes [sendMessage] writes for a message with identifier
    [messageId]. *)
Definition encode_message (messageId : Z) (channel : Z)
           (selector : option string) (args : option (list MessageAuxValue))
           (expectsReply : bool) : result Buffer :=
  auxBuffer <- match args with
               | Some values => buildAuxiliaryData values
               | None => Ok []
               end ;;
  let selectorBuffer :=
    match selector with
    | Some sel => if String.eqb sel "" then [] else archiveSelector sel
    | None => []
    end in
  let flags :=
    if expectsReply
    then Z.lor DTX_CONSTANTS.INSTRUMENTS_MESSAGE_TYPE
               DTX_CONSTANTS.EXPECTS_REPLY_MASK
    else DTX_CONSTANTS.INSTRUMENTS_MESSAGE_TYPE in
  payloadHeader <- DTXMessage.buildPayloadHeader
                     (mkDTXMessagePayloadHeader
                        flags (blen auxBuffer)
                        (blen auxBuffer + blen selectorBuffer)) ;;
  messageHeader <- DTXMessage.buildMessageHeader
                     (mkDTXMessageHeader
                        DTX_CONSTANTS.MESSAGE_HEADER_MAGIC
                        DTX_CONSTANTS.MESSAGE_HEADER_SIZE
                        0 1
                        (DTX_CONSTANTS.PAYLOAD_HEADER_SIZE
                         + blen auxBuffer + blen selectorBuffer)
                        messageId 0 channel
                        (if expectsReply then 1 else 0)) ;;
  Ok (messageHeader ++ payloadHeader ++ auxBuffer ++ selectorBuffer).

Definition with_socket (svc : DVTService) (s : option Socket) : DVTService :=
  mkDVTService s (lastChannelCode svc) (curMessageId svc) (channelCache svc)
               (channelMessages svc) (isHandshakeComplete svc)
               (readBuffer svc) (next_ref svc).

Definition sendMessage (channel : Z) (selector : option string)
           (args : option (list MessageAuxValue)) (expectsReply : bool)
  : SE DVTService unit :=
  fun svc =>
    match dvt_socket svc with
    | None => (Throw (Err "Not connected to DVT service"), svc)
    | Some s =>
        let messageId := curMessageId svc + 1 in
        let svc1 :=
          mkDVTService (dvt_socket svc) (lastChannelCode svc) messageId
                       (channelCache svc) (channelMessages svc)
                       (isHandshakeComplete svc) (readBuffer svc)
                       (next_ref svc) in
        match encode_message messageId channel selector args expectsReply with
        | Throw e => (Throw e, svc1)
        | Ok message =>
            let '(r, s') := socket_write message s in
            (r, with_socket svc1 (Some s'))
        end
    end.

(** *** Receiving *)

Definition parseAuxiliaryValue (buffer : Buffer) (type : Z) (offset : Z)
  : result (JSValue * Z) :=
  if type =? DTX_CONSTANTS.AUX_TYPE_INT32 then
    data <- readUInt32LE buffer offset ;; Ok (JNum data, offset + 4)
  else if type =? DTX_CONSTANTS.AUX_TYPE_INT64 then
    data <- readBigUInt64LE buffer offset ;; Ok (JBigInt data, offset + 8)
  else if type =? DTX_CONSTANTS.AUX_TYPE_OBJECT then
    len <- readUInt32LE buffer offset ;;
    let plistData := subarray buffer (offset + 4) (offset + 4 + len) in
    let parsed :=
      match parseBinaryPlist plistData with
      | Ok v => v
      | Throw _ => JBuffer plistData
      end in
    Ok (parsed, offset + 4 + len)
  else Throw (Err "Unknown auxiliary type").

(** The loop of [parseAuxiliaryStandard], one unit of fuel per item:
    the reads of the marker and of the type are outside the [try], the
    parsing of the value is inside it. *)
Fixpoint parse_aux_items (fuel : nat) (buffer : Buffer) (endOffset : Z)
         (offset : Z) (values : list JSValue)
  : option (result (list JSValue)) :=
  if (offset <? endOffset) && (offset <? blen buffer)
  then
    match fuel with
    | O => None
    | S fuel' =>
        match readUInt32LE buffer offset with
        | Throw e => Some (Throw e)
        | Ok marker =>
            let offset :=
              if marker =? DTX_CONSTANTS.EMPTY_DICTIONARY
              then offset + 4 else offset in
            match readUInt32LE buffer offset with
            | Throw e => Some (Throw e)
            | Ok type =>
                let offset := offset + 4 in
                match parseAuxiliaryValue buffer type offset with
                | Ok (data, newOffset) =>
                    parse_aux_items fuel' buffer endOffset newOffset
                                    (values ++ [data])
                | Throw _ => Some (Ok values)
                end
            end
        end
    end
  else Some (Ok values).

(** [parsed_items buffer endOffset start values stop]: from offset
    [start] the loop of [parseAuxiliaryStandard] parses, one after the
    other, items whose values are [values], and the item after the last
    of them starts at offset [stop]. *)
Inductive parsed_items (buffer : Buffer) (endOffset : Z)
  : Z -> list JSValue -> Z -> Prop :=
| parsed_none (offset : Z) : parsed_items buffer endOffset offset [] offset
| parsed_item (offset marker type newOffset stop : Z) (data : JSValue)
              (values : list JSValue) :
    offset < endOffset -> offset < blen buffer ->
    readUInt32LE buffer offset = Ok marker ->
    readUInt32LE buffer
      (if marker =? DTX_CONSTANTS.EMPTY_DICTIONARY then offset + 4 else offset)
    = Ok type ->
    parseAuxiliaryValue buffer type
      ((if marker =? DTX_CONSTANTS.EMPTY_DICTIONARY then offset + 4
        else offset) + 4)
    = Ok (data, newOffset) ->
    parsed_items buffer endOffset newOffset values stop ->
    parsed_items buffer endOffset offset (data :: values) stop.

Definition parseAuxiliaryStandard (fuel : nat) (buffer : Buffer)
  : option (result (list JSValue)) :=
  match readBigUInt64LE buffer 8 with
  | Throw e => Some (Throw e)
  | Ok totalSize => parse_aux_items fuel buffer (16 + totalSize) 16 []
  end.

(** [buffer.toString('ascii', i, i + 8) === 'bplist00']: decoding as
    ASCII clears the high bit of every byte. *)
Definition is_bplist_at (buffer : Buffer) (i : Z) : bool :=
  buffer_equals
    (map (fun b => byte.of_Z (Z.land (byte.unsigned b) 127))
         (firstn 8 (skipn (Z.to_nat i) buffer)))
    (utf8_bytes "bplist00").

(** The first of the [count] positions from [i] on at which the header
    of a binary property list is found. *)
Fixpoint find_bplist (count : nat) (buffer : Buffer) (i : Z) : option Z :=
  match count with
  | O => None
  | S count' =>
      if is_bplist_at buffer i then Some i
      else find_bplist count' buffer (i + 1)
  end.

Definition parseAuxiliaryAsBplist (buffer : Buffer) : list JSValue :=
  match find_bplist (Z.to_nat (Z.min 100 (blen buffer - 8))) buffer 0 with
  | Some i =>
      match parseBinaryPlist (subarray_from buffer i) with
      | Ok (JArr items) => items
      | Ok parsed => [parsed]
      | Throw _ => []
      end
  | None => []
  end.

Definition parseAuxiliaryData (fuel : nat) (buffer : Buffer)
  : option (result (list JSValue)) :=
  if blen buffer <? 16 then Some (Ok [])
  else
    match readBigUInt64LE buffer 0 with
    | Throw e => Some (Throw e)
    | Ok magic =>
        if negb (magic =? DTX_CONSTANTS.MESSAGE_AUX_MAGIC)
        then Some (Ok (parseAuxiliaryAsBplist buffer))
        else parseAuxiliaryStandard fuel buffer
    end.

(** [recvMessage] once [recvPacketFragments] has returned [packetData]:
    the object data ([None] is [null]) and the auxiliary values. *)
Definition decode_packet (fuel : nat) (packetData : Buffer)
  : option (result (option Buffer * list JSValue)) :=
  match DTXMessage.parsePayloadHeader packetData with
  | Throw e => Some (Throw e)
  | Ok payloadHeader =>
      let compression :=
        Z.shiftr (Z.land (flags payloadHeader) 0xff000) 12 in
      if negb (compression =? 0)
      then Some (Throw (Err "Compressed messages not supported"))
      else
        let offset := DTX_CONSTANTS.PAYLOAD_HEADER_SIZE in
        match
          if 0 <? auxiliaryLength payloadHeader
          then parseAuxiliaryData fuel
                 (subarray packetData offset
                           (offset + auxiliaryLength payloadHeader))
          else Some (Ok [])
        with
        | None => None
        | Some (Throw e) => Some (Throw e)
        | Some (Ok aux) =>
            let offset :=
              if 0 <? auxiliaryLength payloadHeader
              then offset + auxiliaryLength payloadHeader else offset in
            let objSize :=
              totalLength payloadHeader - auxiliaryLength payloadHeader in
            Some (Ok (if 0 <? objSize
                      then Some (subarray packetData offset (offset + objSize))
                      else None,
                      aux))
        end
  end.

(** The wait of [readExact] of the service for enough bytes: every data
    event extends the read buffer, an error event rejects the wait, a
    close event has no listener, and with no event left the wait never
    ends.  The result is the error, if any, with the read buffer and the
    events that remain. *)
Fixpoint dvt_await (length : Z) (buffer : Buffer) (events : list SocketEvent)
  : option (option JsError * Buffer * list SocketEvent) :=
  if length <=? blen buffer then Some (None, buffer, events)
  else
    match events with
    | [] => None
    | EvData chunk :: events' => dvt_await length (buffer ++ chunk) events'
    | EvError e :: events' => Some (Some e, buffer, events')
    | EvClose :: events' => dvt_await length buffer events'
    end.

Definition dvt_readExact (length : Z) : SEF DVTService Buffer :=
  fun svc =>
    match dvt_socket svc with
    | None =>
        Some (Throw (Err "DVTSecureSocketProxyService is not initialized"),
              svc)
    | Some s =>
        match dvt_await length (readBuffer svc) (sock_events s) with
        | None => None
        | Some (error, buffer, events') =>
            let s' := sock_with_input s (sock_buffer s) events'
                                      (sock_destroyed s) in
            let svc' rest :=
              mkDVTService (Some s') (lastChannelCode svc)
                           (curMessageId svc) (channelCache svc)
                           (channelMessages svc) (isHandshakeComplete svc)
                           rest (next_ref svc) in
            match error with
            | Some e => Some (Throw e, svc' buffer)
            | None =>
                Some (Ok (subarray buffer 0 length),
                      svc' (subarray_from buffer length))
            end
        end
    end.

Definition set_channelMessages (m : gmap Z ChannelFragmenter)
  : SEF DVTService unit :=
  fun svc =>
    Some (Ok tt,
          mkDVTService (dvt_socket svc) (lastChannelCode svc)
                       (curMessageId svc) (channelCache svc) m
                       (isHandshakeComplete svc) (readBuffer svc)
                       (next_ref svc)).

Definition set_curMessageId (id : Z) : SEF DVTService unit :=
  fun svc =>
    Some (Ok tt,
          mkDVTService (dvt_socket svc) (lastChannelCode svc) id
                       (channelCache svc) (channelMessages svc)
                       (isHandshakeComplete svc) (readBuffer svc)
                       (next_ref svc)).

Definition get_service : SEF DVTService DVTService :=
  fun svc => Some (Ok svc, svc).

(** [recvPacketFragments(channel)]: one unit of fuel per iteration of
    the [while (true)] loop. *)
Fixpoint recvPacketFragments (fuel : nat) (channel : Z)
  : SEF DVTService Buffer :=
  match fuel with
  | O => fun _ => None
  | S fuel' =>
      svc <~~ get_service ;;
      match channelMessages svc !! channel with
      | None => sef_throw (Err "No fragmenter for channel")
      | Some fragmenter =>
          match ChannelFragmenter.get fragmenter with
          | (Some message, fragmenter') =>
              _ <~~ set_channelMessages
                      (<[channel := fragmenter']> (channelMessages svc)) ;;
              sef_ret message
          | (None, _) =>
              headerData <~~ dvt_readExact DTX_CONSTANTS.MESSAGE_HEADER_SIZE ;;
              header <~~ sef_of (Some (DTXMessage.parseMessageHeader headerData)) ;;
              let receivedChannel := Z.abs (channelCode header) in
              svc <~~ get_service ;;
              _ <~~ (match channelMessages svc !! receivedChannel with
                     | Some _ => sef_ret tt
                     | None =>
                         set_channelMessages
                           (<[receivedChannel := new_ChannelFragmenter]>
                              (channelMessages svc))
                     end) ;;
              _ <~~ (if (conversationIndex header =? 0)
                        && (curMessageId svc <? identifier header)
                     then set_curMessageId (identifier header)
                     else sef_ret tt) ;;
              if (1 <? fragmentCount header) && (fragmentId header =? 0)
              then recvPacketFragments fuel' channel
              else
                messageData <~~ dvt_readExact (length_ header) ;;
                svc <~~ get_service ;;
                _ <~~ (match channelMessages svc !! receivedChannel with
                       | Some targetFragmenter =>
                           set_channelMessages
                             (<[receivedChannel :=
                                  ChannelFragmenter.addFragment
                                    header messageData targetFragmenter]>
                                (channelMessages svc))
                       | None => sef_throw TypeErr
                       end) ;;
                recvPacketFragments fuel' channel
          end
      end
  end.

Definition recvMessage (fuel : nat) (channel : Z)
  : SEF DVTService (option Buffer * list JSValue) :=
  packetData <~~ recvPacketFragments fuel channel ;;
  sef_of (decode_packet fuel packetData).

(** [recvPlist(channel)]: the decoded data is [null] when there is no
    data or when the property list cannot be parsed, and the parsed
    property list when the archive decoder throws. *)
Definition recvPlist (fuel : nat) (channel : Z)
  : SEF DVTService (JSValue * list JSValue) :=
  res <~~ recvMessage fuel channel ;;
  let '(data, aux) := res in
  match data with
  | Some (b :: bs) =>
      match parseBinaryPlist (b :: bs) with
      | Throw _ => sef_ret (JNull, aux)
      | Ok parsed =>
          match decodeNSKeyedArchiver fuel parsed with
          | None => fun _ => None
          | Some (Ok decodedData) => sef_ret (decodedData, aux)
          | Some (Throw _) => sef_ret (parsed, aux)
          end
      end
  | _ => sef_ret (JNull, aux)
  end.

Definition BROADCAST_CHANNEL : Z := 0.

(** [makeChannel(identifier)]. *)
Definition makeChannel (fuel : nat) (identifier : string)
  : SEF DVTService Channel :=
  fun svc =>
    if negb (isHandshakeComplete svc)
    then Some (Throw (Err "Handshake not complete. Call connect() first."),
               svc)
    else
      match channelCache svc !! identifier with
      | Some channel => Some (Ok channel, svc)
      | None =>
          let channelCode := lastChannelCode svc + 1 in
          let svc1 :=
            mkDVTService (dvt_socket svc) channelCode (curMessageId svc)
                         (channelCache svc) (channelMessages svc)
                         (isHandshakeComplete svc) (readBuffer svc)
                         (next_ref svc) in
          let args :=
            MessageAux.appendObj (JStr identifier)
              (MessageAux.appendInt channelCode []) in
          (_ <~~ sef_lift (sendMessage 0
                             (Some "_requestChannelWithCode:identifier:"%string)
                             (Some args) true) ;;
           res <~~ recvPlist fuel BROADCAST_CHANNEL ;;
           _ <~~ sef_of (Some (checkForNSError (fst res))) ;;
           fun svc2 =>
             let channel := mkChannel (next_ref svc2) channelCode in
             Some (Ok channel,
                   mkDVTService (dvt_socket svc2) (lastChannelCode svc2)
                                (curMessageId svc2)
                                (<[identifier := channel]> (channelCache svc2))
                                (<[channelCode := new_ChannelFragmenter]>
                                   (channelMessages svc2))
                                (isHandshakeComplete svc2) (readBuffer svc2)
                                (S (next_ref svc2)))) svc1
      end.

End DVT.

(** *** Stand-ins used to run examples

    A toy property-list codec that only carries strings: the bytes of a
    string after the header [bplist00]. *)
Definition toy_createBinaryPlist (v : JSValue) : Buffer :=
  utf8_bytes "bplist00" ++
  match v with
  | JStr s => utf8_bytes s
  | _ => []
  end.

Definition toy_parseBinaryPlist (b : Buffer) : result JSValue :=
  if buffer_equals (firstn 8 b) (utf8_bytes "bplist00")
  then Ok (JStr (utf8_string (skipn 8 b)))
  else Throw (Err "not a binary property list").

Definition toy_plist_env : DvtEnv := {|
  parseBinaryPlist := toy_parseBinaryPlist;
  createBinaryPlist := toy_createBinaryPlist
|}.

(** The bytes of a message as the device sends it: a header with one
    fragment, then the payload. *)
Definition device_message (channel identifier : Z) (payload : Buffer)
  : Buffer :=
  le_split 4 DTX_CONSTANTS.MESSAGE_HEADER_MAGIC ++ le_split 4 32 ++
  le_split 2 0 ++ le_split 2 1 ++ le_split 4 (blen payload) ++
  le_split 4 identifier ++ le_split 4 0 ++ le_split 4 channel ++
  le_split 4 0 ++ payload.

(** A payload: the payload header, the auxiliary section, the object
    data. *)
Definition device_payload (flags : Z) (aux data : Buffer) : Buffer :=
  le_split 4 flags ++ le_split 4 (blen aux) ++
  le_split 8 (blen aux + blen data) ++ aux ++ data.

(** An auxiliary section holding the given items. *)
Definition device_aux (items : Buffer) : Buffer :=
  le_split 8 DTX_CONSTANTS.MESSAGE_AUX_MAGIC ++ le_split 8 (blen items) ++
  items.

Definition aux_item (type : Z) (value : Buffer) : Buffer :=
  le_split 4 DTX_CONSTANTS.EMPTY_DICTIONARY ++ le_split 4 type ++ value.

(** A payload whose auxiliary section holds the 32-bit integer 7 and
    then an item of the unknown type 99; and one with the compression
    bits of the flags set. *)
Definition payload_unknown_aux : Buffer :=
  device_payload 2
    (device_aux (aux_item 3 (le_split 4 7) ++ aux_item 99 (le_split 4 5) ++
                 aux_item 3 (le_split 4 9)))
    [].

(** The same auxiliary section followed by four bytes of object data. *)
Definition payload_unknown_aux_data : Buffer :=
  device_payload 2
    (device_aux (aux_item 3 (le_split 4 7) ++ aux_item 99 (le_split 4 5) ++
                 aux_item 3 (le_split 4 9)))
    (utf8_bytes "data").

Definition payload_compressed : Buffer :=
  device_payload (2 + 0x3000) [] (utf8_bytes "bplist00data").

(** A connected service after the handshake, with the events its socket
    will emit. *)
Definition service_connected (events : list SocketEvent) : DVTService :=
  mkDVTService (Some (socket_of_events events)) 0 1 ∅
               {[ 0 := new_ChannelFragmenter ]} true [] 0.

Definition service_unknown_aux : DVTService :=
  service_connected [EvData (device_message 0 2 payload_unknown_aux)].

Definition service_unknown_aux_data : DVTService :=
  service_connected [EvData (device_message 0 2 payload_unknown_aux_data)].

Definition service_compressed : DVTService :=
  service_connected [EvData (device_message 0 2 payload_compressed)].

(** A service whose device answers the first channel request with an
    empty reply. *)
Definition service_for_channels : DVTService :=
  service_connected [EvData (device_message 0 2 (device_payload 2 [] []))].

Definition sample_identifier : string :=
  "com.apple.instruments.server.services.ConditionInducer".

Definition sample_aux_section : Buffer :=
  device_aux (aux_item 3 (le_split 4 7) ++ aux_item 99 (le_split 4 5) ++
              aux_item 3 (le_split 4 9)).

(** What receiving leaves untouched in the service: the handshake flag,
    the channel cache, the channel-code counter, the object references
    handed out, and what has been written to the socket. *)
Definition framed (svc svc' : DVTService) : Prop :=
  isHandshakeComplete svc' = isHandshakeComplete svc /\
  channelCache svc' = channelCache svc /\
  lastChannelCode svc' = lastChannelCode svc /\
  next_ref svc' = next_ref svc /\
  option_map sock_written (dvt_socket svc')
  = option_map sock_written (dvt_socket svc).

(** The arguments of the channel request for a channel code. *)
Definition channel_request_args (channelCode : Z) (identifier : string)
  : list MessageAuxValue :=
  MessageAux.appendObj (JStr identifier)
    (MessageAux.appendInt channelCode []).


(** * Further definitions

    Definitions used by the properties of the rest of the code. *)

(** A key/value list as the device sends it: every key and value
    followed by a NUL byte. *)
Definition key_value_bytes (kvs : list (string * string)) : Buffer :=
  concat (map (fun kv => cstr (fst kv) ++ cstr (snd kv)) kvs).

(** A string holds no NUL character. *)
Definition nul_free (s : string) : Prop :=
  ~ In Init.Byte.x00 (utf8_bytes s).

(** A list of strings whose last element is the empty string. *)
Definition ends_with_empty (parts : list string) : Prop :=
  exists init, parts = init ++ [""%string].

(** The keys and values of a key/value list, in the order sent. *)
Definition keys_and_values (kvs : list (string * string)) : list string :=
  flat_map (fun kv => [fst kv; snd kv]) kvs.

(** The forty bytes of a header of the file-conduit protocol, field by
    field, and a socket whose receive buffer holds the given bytes. *)
Definition header_bytes (entire this packetNum op : Z) : Buffer :=
  AFCMAGIC ++ le_split 8 entire ++ le_split 8 this ++ le_split 8 packetNum
  ++ le_split 8 op.

Definition socket_holding (buffer : Buffer) : Socket :=
  mkSocket buffer [] [] None false (fun _ => []).

(** What the receiver makes of an auxiliary value of a message: a 32-bit
    integer comes back as a number, a 64-bit integer as a BigInt, and an
    object as the property list parsed from its archive (or as the bytes
    of the archive when they cannot be parsed). *)
Definition received_aux `{DvtEnv} (auxValue : MessageAuxValue) : JSValue :=
  if aux_type auxValue =? DTX_CONSTANTS.AUX_TYPE_INT32 then aux_value auxValue
  else if aux_type auxValue =? DTX_CONSTANTS.AUX_TYPE_INT64 then
    match aux_value auxValue with
    | JNum v | JBigInt v => JBigInt v
    | other => other
    end
  else
    match parseBinaryPlist (archiveValue (aux_value auxValue)) with
    | Ok parsed => parsed
    | Throw _ => JBuffer (archiveValue (aux_value auxValue))
    end.

(** The values a message carries, the bytes of its selector, and its
    flags, as [sendMessage] computes them from its arguments. *)
Definition message_values (args : option (list MessageAuxValue))
  : list MessageAuxValue :=
  match args with Some values => values | None => [] end.

Definition selector_bytes `{DvtEnv} (selector : option string) : Buffer :=
  match selector with
  | Some sel => if String.eqb sel "" then [] else archiveSelector sel
  | None => []
  end.

Definition message_flags (expectsReply : bool) : Z :=
  if expectsReply
  then Z.lor DTX_CONSTANTS.INSTRUMENTS_MESSAGE_TYPE
             DTX_CONSTANTS.EXPECTS_REPLY_MASK
  else DTX_CONSTANTS.INSTRUMENTS_MESSAGE_TYPE.

















(** A computation on the service that never lowers the message
    identifier it tracks. *)
Definition id_grows {A : Type} (m : SEF DVTService A) : Prop :=
  forall svc r svc', m svc = Some (r, svc') ->
                     curMessageId svc <= curMessageId svc'.

(** The archive [archiveValue] builds for a value, before it is
    serialized as a binary property list. *)
Definition archived (value : JSValue) : JSValue :=
  let isNull := match value with JNull => true | _ => false end in
  let rootIndex := if isNull then 0 else 1 in
  let objs := if isNull then [JStr "$null"] else [JStr "$null"; value] in
  JObj [("$version", JNum 100000);
        ("$archiver", JStr "NSKeyedArchiver");
        ("$top", JObj [("root", JUid rootIndex)]);
        ("$objects", JArr objs)]%string.

(** An entry of the object table that is not a container: a value that
    is not an object, or null.  It decodes to itself, the marker
    [$null] to null. *)
Definition is_leaf (obj : JSValue) : bool :=
  negb (is_type TObject obj)
  || match obj with JNull => true | _ => false end.

Definition leaf_value (obj : JSValue) : JSValue :=
  if is_string "$null" obj then JNull else obj.

(** The entry of the object table at an index. *)
Definition entry (objs : list JSValue) (i : Z) : JSValue :=
  nth (Z.to_nat i) objs JUndefined.

(** [ref] refers to the entry [i] of the table, a leaf other than the
    entry [self]: as the index itself or as a reference object. *)
Definition leaf_reference (objs : list JSValue) (self : Z)
           (ref : JSValue) (i : Z) : Prop :=
  (ref = JNum i \/ ref = uid i) /\
  0 <= i < Z.of_nat (length objs) /\
  i <> self /\
  is_leaf (entry objs i) = true.

(** An object table whose entry 1 is an array of four references. *)
Definition sample_array_table : list JSValue :=
  [JStr "$null";
   JObj [("NS.objects", JArr [uid 2; JNum 3; uid 0; JNum 4]);
         ("$class", uid 5)];
   JStr "a"; JNum 7; JNull;
   JObj [("$classname", JStr "NSArray")]]%string.

(** How the language treats a reference object [{CF$UID: k}] where an
    index is expected: compared with a number it is neither smaller nor
    greater or equal (it converts to NaN), it names no element of an
    array, and as a key of a set it is the same as itself. *)
Definition reference_as_index `{JsCoercion} : Prop :=
  forall (k : Z) (objs : list JSValue) (n : Z),
    index_negative (uid k) = false /\
    index_at_least (uid k) n = false /\
    index_element objs (uid k) = JUndefined /\
    same_key (uid k) (uid k) = true.

(** An object table whose entry 1 is a dictionary with indices as
    references, and one whose entry 1 is the same dictionary with
    reference objects. *)
Definition sample_dictionary_table : list JSValue :=
  [JStr "$null";
   JObj [("NS.keys", JArr [JNum 2; JNum 3]);
         ("NS.objects", JArr [JNum 4; JNum 0]);
         ("$class", uid 5)];
   JStr "name"; JStr "size"; JStr "a"; 
   JObj [("$classname", JStr "NSDictionary")]]%string.

Definition sample_uid_dictionary_table : list JSValue :=
  [JStr "$null";
   JObj [("NS.keys", JArr [uid 2; uid 3]);
         ("NS.objects", JArr [uid 4; uid 0]);
         ("$class", uid 5)];
   JStr "name"; JStr "size"; JStr "a"; 
   JObj [("$classname", JStr "NSDictionary")]]%string.

(** * Theorems *)

(** ** Wire fields *)

Lemma le_combine_split_small (n : nat) (z : Z) :
  0 <= z < 2 ^ (8 * Z.of_nat n) -> le_combine (le_split n z) = z.
Proof.
  intros Hz. rewrite le_combine_split.
  replace (Z.of_nat n * 8) with (8 * Z.of_nat n) by lia.
  apply Z.mod_small; assumption.
Qed.

Lemma writeUIntLE_ok (n : nat) (b : Buffer) (v : Z) (off : nat) :
  0 <= v < 2 ^ (8 * Z.of_nat n) ->
  (off + n <= length b)%nat ->
  writeUIntLE n b v off = Ok (write_at b off (le_split n v)).
Proof.
  intros Hv Hoff. unfold writeUIntLE, blen.
  replace (0 <=? v) with true by (symmetry; apply Z.leb_le; lia).
  replace (v <? 2 ^ (8 * Z.of_nat n)) with true
    by (symmetry; apply Z.ltb_lt; lia).
  replace (Z.of_nat off + Z.of_nat n <=? Z.of_nat (length b)) with true
    by (symmetry; apply Z.leb_le; lia).
  reflexivity.
Qed.

Lemma writeInt32LE_ok (b : Buffer) (v : Z) (off : nat) :
  - 2 ^ 31 <= v < 2 ^ 31 ->
  (off + 4 <= length b)%nat ->
  writeInt32LE b v off = Ok (write_at b off (le_split 4 v)).
Proof.
  intros Hv Hoff. unfold writeInt32LE, blen.
  replace (- 2 ^ 31 <=? v) with true by (symmetry; apply Z.leb_le; lia).
  replace (v <? 2 ^ 31) with true by (symmetry; apply Z.ltb_lt; lia).
  replace (Z.of_nat off + 4 <=? Z.of_nat (length b)) with true
    by (symmetry; apply Z.leb_le; lia).
  reflexivity.
Qed.

Lemma length_write_at (b : Buffer) (off : nat) (bs : Buffer) :
  (off + length bs <= length b)%nat ->
  length (write_at b off bs) = length b.
Proof.
  intros H. unfold write_at.
  rewrite !length_app, length_firstn, length_skipn. lia.
Qed.

Lemma write_at_lookup_before (b : Buffer) (off : nat) (bs : Buffer) (i : nat) :
  (off + length bs <= length b)%nat -> (i < off)%nat ->
  write_at b off bs !! i = b !! i.
Proof.
  intros Hlen Hi. unfold write_at.
  rewrite lookup_app_l by (rewrite length_take; lia).
  apply lookup_take_lt. lia.
Qed.

Lemma write_at_lookup_after (b : Buffer) (off : nat) (bs : Buffer) (i : nat) :
  (off + length bs <= length b)%nat -> (off + length bs <= i)%nat ->
  write_at b off bs !! i = b !! i.
Proof.
  intros Hlen Hi. unfold write_at.
  rewrite lookup_app_r by (rewrite length_take; lia).
  rewrite length_take.
  rewrite lookup_app_r by lia.
  rewrite lookup_drop. f_equal. lia.
Qed.

Lemma field_write_at_same (b : Buffer) (off : nat) (bs : Buffer) :
  (off + length bs <= length b)%nat ->
  firstn (length bs) (skipn off (write_at b off bs)) = bs.
Proof.
  intros Hlen. unfold write_at.
  rewrite drop_app_length' by (rewrite length_take; lia).
  apply take_app_length.
Qed.

Lemma field_write_at_other (b : Buffer) (off : nat) (bs : Buffer)
      (off' n : nat) :
  (off + length bs <= length b)%nat ->
  (off' + n <= off)%nat \/ (off + length bs <= off')%nat ->
  firstn n (skipn off' (write_at b off bs)) = firstn n (skipn off' b).
Proof.
  intros Hlen Hdisj. apply list_eq. intros i.
  destruct (decide (i < n)%nat) as [Hi | Hi].
  - rewrite !lookup_take_lt by assumption. rewrite !lookup_drop.
    destruct Hdisj as [Hd | Hd].
    + apply write_at_lookup_before; lia.
    + apply write_at_lookup_after; lia.
  - rewrite !lookup_take_ge by lia. reflexivity.
Qed.

Lemma read_write_at_same (n : nat) (b : Buffer) (off : nat) (v : Z) :
  (off + n <= length b)%nat ->
  readUIntLE n (write_at b off (le_split n v)) (Z.of_nat off)
  = Ok (v mod 2 ^ (8 * Z.of_nat n)).
Proof.
  intros Hlen. unfold readUIntLE, blen.
  rewrite length_write_at by (rewrite length_le_split; lia).
  replace (0 <=? Z.of_nat off) with true by (symmetry; apply Z.leb_le; lia).
  replace (Z.of_nat off + Z.of_nat n <=? Z.of_nat (length b)) with true
    by (symmetry; apply Z.leb_le; lia).
  cbn [andb]. rewrite Nat2Z.id.
  pose proof (field_write_at_same b off (le_split n v)) as Hf.
  rewrite length_le_split in Hf. rewrite Hf by lia.
  rewrite le_combine_split.
  replace (Z.of_nat n * 8) with (8 * Z.of_nat n) by lia. reflexivity.
Qed.

Lemma read_write_at_other (n : nat) (b : Buffer) (off : nat) (bs : Buffer)
      (off' : nat) :
  (off + length bs <= length b)%nat ->
  (off' + n <= off)%nat \/ (off + length bs <= off')%nat ->
  readUIntLE n (write_at b off bs) (Z.of_nat off')
  = readUIntLE n b (Z.of_nat off').
Proof.
  intros Hlen Hdisj. unfold readUIntLE, blen.
  rewrite length_write_at by assumption.
  rewrite Nat2Z.id. rewrite field_write_at_other by assumption.
  reflexivity.
Qed.

Lemma length_write_at_split (b : Buffer) (off n : nat) (v : Z) :
  (off + n <= length b)%nat ->
  length (write_at b off (le_split n v)) = length b.
Proof.
  intros H. apply length_write_at. rewrite length_le_split. exact H.
Qed.

(** Lengths of buffers built by successive in-range field writes. *)
Ltac buf_len :=
  repeat match goal with
         | |- context [length (write_at ?b ?off (le_split ?n ?v))] =>
             rewrite (length_write_at_split b off n v) by buf_len
         end;
  unfold alloc; rewrite ?repeat_length, ?length_le_split; simpl; lia.

Lemma signed32_of_wrapped (v : Z) :
  - 2 ^ 31 <= v < 2 ^ 31 ->
  (if 2 ^ 31 <=? v mod 2 ^ 32 then v mod 2 ^ 32 - 2 ^ 32 else v mod 2 ^ 32)
  = v.
Proof.
  change (2 ^ 31) with 2147483648. change (2 ^ 32) with 4294967296.
  intros Hv.
  destruct (Z.leb_spec 2147483648 (v mod 4294967296)) as [H | H];
    Z.div_mod_to_equations; lia.
Qed.

Lemma read_same_at (n : nat) (b : Buffer) (off : nat) (v o : Z) :
  o = Z.of_nat off ->
  (off + n <= length b)%nat ->
  0 <= v < 2 ^ (8 * Z.of_nat n) ->
  readUIntLE n (write_at b off (le_split n v)) o = Ok v.
Proof.
  intros -> Hlen Hv. rewrite read_write_at_same by assumption.
  rewrite Z.mod_small by assumption. reflexivity.
Qed.

Lemma read_wrapped_at (n : nat) (b : Buffer) (off : nat) (v o : Z) :
  o = Z.of_nat off ->
  (off + n <= length b)%nat ->
  readUIntLE n (write_at b off (le_split n v)) o
  = Ok (v mod 2 ^ (8 * Z.of_nat n)).
Proof. intros -> Hlen. apply read_write_at_same. assumption. Qed.

Lemma read_other_at (n : nat) (b : Buffer) (off : nat) (bs : Buffer) (o : Z) :
  0 <= o ->
  (off + length bs <= length b)%nat ->
  (Z.to_nat o + n <= off)%nat \/ (off + length bs <= Z.to_nat o)%nat ->
  readUIntLE n (write_at b off bs) o = readUIntLE n b o.
Proof.
  intros Ho Hlen Hdisj.
  rewrite <- (Z2Nat.id o) at 1 2 by assumption.
  apply read_write_at_other; assumption.
Qed.

(** Reading a field of a buffer built by writes to disjoint fields: skip
    the writes to other fields, then read back the one at this offset. *)
Ltac read_past :=
  match goal with
  | |- context [readUIntLE ?n (write_at ?b ?off (le_split ?m ?v)) ?o] =>
      first
        [ rewrite (read_same_at n b off v o)
            by first [ reflexivity | buf_len | simpl; lia ]
        | rewrite (read_wrapped_at n b off v o)
            by first [ reflexivity | buf_len ]
        | rewrite (read_other_at n b off (le_split m v) o)
            by (rewrite ?length_le_split; first [ buf_len | simpl; lia ]) ]
  end.

Lemma parse_build_message_header (h : DTXMessageHeader) :
  header_fits h ->
  exists buf,
    DTXMessage.buildMessageHeader h = Ok buf /\
    blen buf = DTX_CONSTANTS.MESSAGE_HEADER_SIZE /\
    DTXMessage.parseMessageHeader buf = Ok h.
Proof.
  intros (Hm & Hcb & Hfi & Hfc & Hl & Hid & Hci & Hcc & Her).
  unfold DTXMessage.buildMessageHeader, writeUInt32LE, writeUInt16LE.
  cbv zeta.
  repeat (first [ rewrite writeUIntLE_ok by (first [ simpl; lia | buf_len ])
                | rewrite writeInt32LE_ok by (first [ simpl; lia | buf_len ]) ];
          cbn [rbind]).
  eexists; split; [reflexivity|].
  match goal with
  | |- blen ?l = _ /\ _ => assert (length l = 32%nat) as Hlen by buf_len
  end.
  split; [unfold blen; rewrite Hlen; reflexivity|].
  unfold DTXMessage.parseMessageHeader, blen. rewrite Hlen. clear Hlen.
  change (Z.of_nat 32 <? DTX_CONSTANTS.MESSAGE_HEADER_SIZE) with false.
  unfold readInt32LE, readUInt32LE, readUInt16LE.
  repeat (repeat read_past; cbn [rbind]).
  change (2 ^ (8 * Z.of_nat 4)) with (2 ^ 32).
  rewrite signed32_of_wrapped by assumption.
  destruct h; reflexivity.
Qed.

Lemma parse_build_payload_header (p : DTXMessagePayloadHeader) :
  payload_header_fits p ->
  exists buf,
    DTXMessage.buildPayloadHeader p = Ok buf /\
    blen buf = DTX_CONSTANTS.PAYLOAD_HEADER_SIZE /\
    DTXMessage.parsePayloadHeader buf = Ok p.
Proof.
  intros (Hf & Ha & Ht).
  unfold DTXMessage.buildPayloadHeader, writeUInt32LE, writeBigUInt64LE.
  cbv zeta.
  repeat (rewrite writeUIntLE_ok by (first [ simpl; lia | buf_len ]);
          cbn [rbind]).
  eexists; split; [reflexivity|].
  match goal with
  | |- blen ?l = _ /\ _ => assert (length l = 16%nat) as Hlen by buf_len
  end.
  split; [unfold blen; rewrite Hlen; reflexivity|].
  unfold DTXMessage.parsePayloadHeader, blen. rewrite Hlen. clear Hlen.
  change (Z.of_nat 16 <? DTX_CONSTANTS.PAYLOAD_HEADER_SIZE) with false.
  unfold readUInt32LE, readBigUInt64LE.
  repeat (repeat read_past; cbn [rbind]).
  destruct p; reflexivity.
Qed.

(** C3.  Header round trip: for every message header and every payload
    header whose fields fit their wire widths, the builder returns a
    buffer (of the fixed header size) and parsing that buffer returns the
    original header. *)
Theorem header_round_trip (h : DTXMessageHeader) (p : DTXMessagePayloadHeader) :
  header_fits h -> payload_header_fits p ->
  (exists buf, DTXMessage.buildMessageHeader h = Ok buf /\
               DTXMessage.parseMessageHeader buf = Ok h) /\
  (exists buf, DTXMessage.buildPayloadHeader p = Ok buf /\
               DTXMessage.parsePayloadHeader buf = Ok p).
Proof.
  intros Hh Hp. split.
  - destruct (parse_build_message_header h Hh) as (buf & Hb & _ & Hparse).
    exists buf. split; assumption.
  - destruct (parse_build_payload_header p Hp) as (buf & Hb & _ & Hparse).
    exists buf. split; assumption.
Qed.

Lemma header_round_trip_witness :
  (exists buf, DTXMessage.buildMessageHeader sample_header = Ok buf /\
               DTXMessage.parseMessageHeader buf = Ok sample_header) /\
  (exists buf, DTXMessage.buildPayloadHeader sample_payload_header = Ok buf /\
               DTXMessage.parsePayloadHeader buf = Ok sample_payload_header).
Proof.
  apply (header_round_trip sample_header sample_payload_header).
  - repeat split; vm_compute; first [ reflexivity | discriminate ].
  - repeat split; vm_compute; first [ reflexivity | discriminate ].
Defined.

(** ** Reading from the socket *)

Lemma subarray_prefix (b : Buffer) (n : Z) :
  0 <= n <= blen b -> subarray b 0 n = firstn (Z.to_nat n) b.
Proof.
  intros Hn. unfold subarray, rel_index, blen in *.
  replace (0 <? 0) with false by reflexivity.
  replace (n <? 0) with false by (symmetry; apply Z.ltb_ge; lia).
  rewrite Z.min_l by lia. rewrite Z.min_l by lia.
  rewrite Z.sub_0_r. reflexivity.
Qed.

Lemma await_bytes_enough (n : Z) (s : Socket) (events : list SocketEvent) :
  forall buffer,
    0 <= n -> blen buffer < n ->
    n <= blen (buffer ++ pending_bytes events) ->
    exists s', await_bytes n s buffer events
               = (Ok (firstn (Z.to_nat n) (buffer ++ pending_bytes events)), s').
Proof.
  induction events as [| ev events IH]; intros buffer Hn Hlt Hge.
  - simpl in Hge. rewrite app_nil_r in Hge. lia.
  - destruct ev as [chunk | e |]; simpl in *.
    + destruct (Z.leb_spec n (blen (buffer ++ chunk))) as [Hc | Hc].
      * eexists. rewrite subarray_prefix by lia.
        rewrite app_assoc.
        rewrite (take_app_le (buffer ++ chunk)); [reflexivity|].
        unfold blen in Hc. lia.
      * rewrite app_assoc. apply IH; try assumption.
        rewrite <- app_assoc. assumption.
    + rewrite app_nil_r in Hge. lia.
    + rewrite app_nil_r in Hge. lia.
Qed.

Lemma await_bytes_short (n : Z) (s : Socket) (events : list SocketEvent) :
  forall buffer,
    blen (buffer ++ pending_bytes events) < n ->
    exists e s', await_bytes n s buffer events = (Throw e, s').
Proof.
  induction events as [| ev events IH]; intros buffer Hlt.
  - simpl. eauto.
  - destruct ev as [chunk | e |]; simpl in *; eauto.
    destruct (Z.leb_spec n (blen (buffer ++ chunk))) as [Hc | Hc].
    + exfalso. unfold blen in *. rewrite !length_app in *. lia.
    + apply IH. rewrite <- app_assoc. assumption.
Qed.

Lemma readExact_enough (n : Z) (s : Socket) :
  0 <= n -> n <= blen (readable_bytes s) ->
  exists s', readExact n s = (Ok (firstn (Z.to_nat n) (readable_bytes s)), s').
Proof.
  intros Hn Hge. unfold readExact, readable_bytes in *.
  destruct (Z.leb_spec n (blen (sock_buffer s))) as [Hb | Hb].
  - eexists. rewrite subarray_prefix by lia.
    rewrite take_app_le; [reflexivity|]. unfold blen in Hb. lia.
  - apply await_bytes_enough; assumption.
Qed.

Lemma readExact_short (n : Z) (s : Socket) :
  blen (readable_bytes s) < n ->
  exists e s', readExact n s = (Throw e, s').
Proof.
  intros Hlt. unfold readExact, readable_bytes in *.
  destruct (Z.leb_spec n (blen (sock_buffer s))) as [Hb | Hb].
  - exfalso. unfold blen in *. rewrite length_app in Hlt. lia.
  - apply await_bytes_short. assumption.
Qed.

Lemma subarray_from_suffix (b : Buffer) (n : Z) :
  0 <= n <= blen b -> subarray_from b n = skipn (Z.to_nat n) b.
Proof.
  intros Hn. unfold subarray_from, rel_index, blen in *.
  replace (n <? 0) with false by (symmetry; apply Z.ltb_ge; lia).
  rewrite Z.min_l by lia. reflexivity.
Qed.

(** A read that returns leaves to later reads the bytes that follow the
    ones it returned. *)
Lemma await_bytes_rest (n : Z) (s : Socket) (events : list SocketEvent) :
  forall buffer out s',
    0 <= n -> blen buffer < n ->
    await_bytes n s buffer events = (Ok out, s') ->
    readable_bytes s'
    = skipn (Z.to_nat n) (buffer ++ pending_bytes events).
Proof.
  induction events as [| ev events IH]; intros buffer out s' Hn Hlt;
    [discriminate|].
  destruct ev as [chunk | e |]; simpl; [|discriminate | discriminate].
  destruct (Z.leb_spec n (blen (buffer ++ chunk))) as [Hc | Hc].
  - intros [= _ <-]. unfold readable_bytes. cbn [sock_with_input sock_buffer
      sock_events]. rewrite subarray_from_suffix by lia.
    rewrite (app_assoc buffer chunk).
    rewrite (drop_app_le (buffer ++ chunk)); [reflexivity|].
    unfold blen in Hc. lia.
  - intros Hrun. rewrite (IH _ _ _ Hn Hc Hrun), <- app_assoc. reflexivity.
Qed.

Lemma readExact_rest (n : Z) (s s' : Socket) (out : Buffer) :
  0 <= n ->
  readExact n s = (Ok out, s') ->
  readable_bytes s' = skipn (Z.to_nat n) (readable_bytes s).
Proof.
  intros Hn. unfold readExact.
  destruct (Z.leb_spec n (blen (sock_buffer s))) as [Hb | Hb].
  - intros [= _ <-]. unfold readable_bytes. cbn [sock_with_input sock_buffer
      sock_events]. rewrite subarray_from_suffix by lia.
    rewrite drop_app_le; [reflexivity|]. unfold blen in Hb. lia.
  - apply await_bytes_rest; assumption.
Qed.

Lemma buffer_equals_spec (a b : Buffer) :
  buffer_equals a b = true <-> a = b.
Proof.
  revert b. induction a as [| x a IH]; intros [| y b]; simpl;
    try (split; [discriminate | congruence]); [tauto |].
  rewrite andb_true_iff, IH. split.
  - intros [Hxy ->]. apply Byte.byte_dec_bl in Hxy. congruence.
  - intros [= -> ->]. split; [apply Byte.byte_dec_lb|]; reflexivity.
Qed.

Lemma readUIntLE_in_range (n : nat) (b : Buffer) (off : Z) :
  0 <= off -> off + Z.of_nat n <= blen b ->
  readUIntLE n b off = Ok (le_combine (firstn n (skipn (Z.to_nat off) b))).
Proof.
  intros H0 H1. unfold readUIntLE.
  replace (0 <=? off) with true by (symmetry; apply Z.leb_le; lia).
  replace (off + Z.of_nat n <=? blen b) with true
    by (symmetry; apply Z.leb_le; lia).
  reflexivity.
Qed.

(** ** Header decoding *)

Lemma parseMessageHeader_short (buf : Buffer) :
  blen buf < 32 ->
  DTXMessage.parseMessageHeader buf
  = Throw (Err "Buffer too small for DTX message header").
Proof.
  intros Hlt. unfold DTXMessage.parseMessageHeader.
  replace (blen buf <? DTX_CONSTANTS.MESSAGE_HEADER_SIZE) with true
    by (symmetry; apply Z.ltb_lt; exact Hlt).
  reflexivity.
Qed.

Lemma parseMessageHeader_long (buf : Buffer) :
  32 <= blen buf ->
  exists h, DTXMessage.parseMessageHeader buf = Ok h /\
            magic h = le_combine (firstn 4 buf).
Proof.
  intros Hge. unfold DTXMessage.parseMessageHeader.
  replace (blen buf <? DTX_CONSTANTS.MESSAGE_HEADER_SIZE) with false
    by (symmetry; apply Z.ltb_ge; exact Hge).
  unfold readInt32LE, readUInt32LE, readUInt16LE.
  repeat (rewrite readUIntLE_in_range by (simpl; lia); cbn [rbind]).
  eexists. split; reflexivity.
Qed.

Lemma readAfcHeader_short (s : Socket) :
  blen (readable_bytes s) < 40 ->
  exists e s', readAfcHeader s = (Throw e, s').
Proof.
  intros Hlt. unfold readAfcHeader, se_bind.
  destruct (readExact_short AFC_HEADER_SIZE s Hlt) as (e & s' & ->).
  eauto.
Qed.

Lemma readAfcHeader_bad_magic (s : Socket) :
  40 <= blen (readable_bytes s) ->
  firstn 8 (readable_bytes s) <> AFCMAGIC ->
  exists s', readAfcHeader s = (Throw (Err "Invalid AFC magic"), s') /\
             readable_bytes s' = skipn 40 (readable_bytes s).
Proof.
  intros Hge Hmagic. unfold readAfcHeader, se_bind.
  destruct (readExact_enough AFC_HEADER_SIZE s) as (s' & Hread);
    [unfold AFC_HEADER_SIZE; lia | exact Hge |].
  rewrite Hread. exists s'.
  split; [|eapply (readExact_rest AFC_HEADER_SIZE);
           [unfold AFC_HEADER_SIZE; lia | exact Hread]].
  assert (Hlen : length (firstn (Z.to_nat AFC_HEADER_SIZE) (readable_bytes s))
                 = 40%nat).
  { rewrite length_take. unfold blen, AFC_HEADER_SIZE in *. lia. }
  rewrite subarray_prefix by (unfold blen; rewrite Hlen; lia).
  rewrite take_take. change (Z.to_nat 8 `min` Z.to_nat AFC_HEADER_SIZE)%nat
    with 8%nat.
  destruct (buffer_equals (firstn 8 (readable_bytes s)) AFCMAGIC) eqn:Heq.
  - apply buffer_equals_spec in Heq. contradiction.
  - reflexivity.
Qed.

Lemma readAfcHeader_good_magic (s : Socket) :
  40 <= blen (readable_bytes s) ->
  firstn 8 (readable_bytes s) = AFCMAGIC ->
  exists h s',
    readAfcHeader s = (Ok h, s') /\
    afc_magic h = AFCMAGIC /\
    entireLength h = le_combine (firstn 8 (skipn 8 (readable_bytes s))) /\
    thisLength h = le_combine (firstn 8 (skipn 16 (readable_bytes s))) /\
    packetNum_ h = le_combine (firstn 8 (skipn 24 (readable_bytes s))) /\
    operation h = le_combine (firstn 8 (skipn 32 (readable_bytes s))) /\
    readable_bytes s' = skipn 40 (readable_bytes s).
Proof.
  intros Hge Hmagic. unfold readAfcHeader, se_bind.
  destruct (readExact_enough AFC_HEADER_SIZE s) as (s' & Hread);
    [unfold AFC_HEADER_SIZE; lia | exact Hge |].
  assert (Hrest : readable_bytes s' = skipn 40 (readable_bytes s)).
  { eapply (readExact_rest AFC_HEADER_SIZE);
      [unfold AFC_HEADER_SIZE; lia | exact Hread]. }
  rewrite Hread.
  set (hdr := firstn (Z.to_nat AFC_HEADER_SIZE) (readable_bytes s)).
  assert (Hlen : length hdr = 40%nat).
  { unfold hdr. rewrite length_take. unfold blen, AFC_HEADER_SIZE in *. lia. }
  assert (Hfield : forall off : nat, (off + 8 <= 40)%nat ->
            firstn 8 (skipn off hdr) = firstn 8 (skipn off (readable_bytes s))).
  { intros off Hoff. unfold hdr. rewrite skipn_firstn_comm, take_take.
    f_equal. change (Z.to_nat AFC_HEADER_SIZE) with 40%nat. lia. }
  rewrite subarray_prefix by (unfold blen; rewrite Hlen; lia).
  change (Z.to_nat 8) with 8%nat.
  assert (Hm : firstn 8 hdr = AFCMAGIC).
  { rewrite <- Hmagic. apply (Hfield 0%nat). lia. }
  rewrite Hm.
  replace (buffer_equals AFCMAGIC AFCMAGIC) with true by reflexivity.
  cbn [negb]. unfold se_lift, readUInt64LE, readBigUInt64LE.
  repeat (rewrite readUIntLE_in_range
            by (unfold blen; rewrite ?Hlen; simpl; lia);
          cbn [rbind]).
  do 2 eexists. split; [reflexivity|]. cbn [afc_magic entireLength thisLength
    packetNum_ operation].
  split; [reflexivity|].
  repeat split; try exact Hrest; apply (f_equal le_combine).
  - apply (Hfield 8%nat); lia.
  - apply (Hfield 16%nat); lia.
  - apply (Hfield 24%nat); lia.
  - apply (Hfield 32%nat); lia.
Qed.

(** C5, as the code has it.  [parseMessageHeader] throws exactly when the
    buffer is shorter than the 32-byte header and performs no check of
    the magic: a buffer of 32 bytes or more decodes whatever its first
    four bytes are.  [readAfcHeader] takes exactly 40 bytes from the
    socket: it throws when fewer than 40 bytes can be read; when 40
    bytes can be read it throws the magic error when the first eight
    differ from the ASCII bytes of CFA6LPAA and decodes the four
    length-8 fields otherwise, and in both cases the bytes a later read
    obtains are those that follow the first 40. *)
Theorem header_decoding_checks (buf : Buffer) (s : Socket) :
  (blen buf < 32 ->
   DTXMessage.parseMessageHeader buf
   = Throw (Err "Buffer too small for DTX message header")) /\
  (32 <= blen buf ->
   exists h, DTXMessage.parseMessageHeader buf = Ok h /\
             magic h = le_combine (firstn 4 buf)) /\
  (blen (readable_bytes s) < 40 ->
   exists e s', readAfcHeader s = (Throw e, s')) /\
  (40 <= blen (readable_bytes s) ->
   firstn 8 (readable_bytes s) <> AFCMAGIC ->
   exists s', readAfcHeader s = (Throw (Err "Invalid AFC magic"), s') /\
              readable_bytes s' = skipn 40 (readable_bytes s)) /\
  (40 <= blen (readable_bytes s) ->
   firstn 8 (readable_bytes s) = AFCMAGIC ->
   exists h s',
     readAfcHeader s = (Ok h, s') /\
     afc_magic h = AFCMAGIC /\
     entireLength h = le_combine (firstn 8 (skipn 8 (readable_bytes s))) /\
     thisLength h = le_combine (firstn 8 (skipn 16 (readable_bytes s))) /\
     packetNum_ h = le_combine (firstn 8 (skipn 24 (readable_bytes s))) /\
     operation h = le_combine (firstn 8 (skipn 32 (readable_bytes s))) /\
     readable_bytes s' = skipn 40 (readable_bytes s)).
Proof.
  split; [apply parseMessageHeader_short|].
  split; [apply parseMessageHeader_long|].
  split; [apply readAfcHeader_short|].
  split; [apply readAfcHeader_bad_magic | apply readAfcHeader_good_magic].
Qed.

(** C5, counterexample to the claim as stated: thirty-two zero bytes do
    not start with the magic 0x1F3D5B79, and [parseMessageHeader]
    decodes them without throwing. *)
Lemma parseMessageHeader_accepts_any_magic :
  exists h,
    DTXMessage.parseMessageHeader (alloc 32) = Ok h /\
    magic h <> DTX_CONSTANTS.MESSAGE_HEADER_MAGIC.
Proof.
  eexists. split.
  - vm_compute. reflexivity.
  - cbn [magic]. vm_compute. discriminate.
Qed.

Lemma header_decoding_checks_witness :
  DTXMessage.parseMessageHeader (alloc 3)
  = Throw (Err "Buffer too small for DTX message header") /\
  (exists h, DTXMessage.parseMessageHeader (alloc 32) = Ok h /\
             magic h = 0) /\
  (exists e s', readAfcHeader sample_socket_short = (Throw e, s')) /\
  (exists s', readAfcHeader sample_socket_zeros
              = (Throw (Err "Invalid AFC magic"), s') /\
              readable_bytes s' = []) /\
  (exists h s', readAfcHeader sample_socket_header = (Ok h, s') /\
                entireLength h = 43 /\ thisLength h = 40 /\
                packetNum_ h = 7 /\ operation h = 1 /\
                readable_bytes s' = alloc 3).
Proof.
  destruct (header_decoding_checks (alloc 3) sample_socket_short)
    as (H1 & _ & H3 & _).
  destruct (header_decoding_checks (alloc 32) sample_socket_zeros)
    as (_ & H2 & _ & H4 & _).
  destruct (header_decoding_checks [] sample_socket_header)
    as (_ & _ & _ & _ & H5).
  split; [apply H1; vm_compute; reflexivity|].
  split.
  { destruct H2 as (h & Hh & Hm); [vm_compute; discriminate|].
    exists h. split; [exact Hh|]. rewrite Hm. vm_compute. reflexivity. }
  split; [apply H3; vm_compute; reflexivity|].
  split.
  { destruct H4 as (s' & Hs & Hrest);
      [vm_compute; discriminate | vm_compute; discriminate |].
    exists s'. split; [exact Hs | exact Hrest]. }
  destruct H5 as (h & s' & Hh & _ & He & Ht & Hp & Ho & Hrest);
    [vm_compute; discriminate | vm_compute; reflexivity |].
  exists h, s'. split; [exact Hh|].
  rewrite He, Ht, Hp, Ho, Hrest. vm_compute. repeat split; reflexivity.
Defined.

(** ** Encoding file-conduit headers *)

Lemma write_at_alloc8 (bs : Buffer) :
  length bs = 8%nat -> write_at (alloc 8) 0 bs = bs.
Proof.
  intros Hlen. unfold write_at. rewrite Hlen.
  change (firstn 0 (alloc 8)) with (@nil Init.Byte.byte).
  change (skipn (0 + 8) (alloc 8)) with (@nil Init.Byte.byte).
  rewrite app_nil_r. reflexivity.
Qed.

Lemma writeUInt64LE_inv (v : Z) (b : Buffer) :
  writeUInt64LE v = Ok b -> 0 <= v < 2 ^ 64 /\ b = le_split 8 v.
Proof.
  unfold writeUInt64LE, writeBigUInt64LE, writeUIntLE.
  destruct (Z.leb_spec 0 v); destruct (Z.ltb_spec v (2 ^ (8 * Z.of_nat 8)));
    cbn [andb]; try discriminate.
  change (Z.of_nat 0 + Z.of_nat 8 <=? blen (alloc 8)) with true.
  intros [= <-]. split; [simpl in *; lia|].
  apply write_at_alloc8, length_le_split.
Qed.

Lemma writeUInt64LE_ok (v : Z) :
  0 <= v < 2 ^ 64 -> writeUInt64LE v = Ok (le_split 8 v).
Proof.
  intros Hv. unfold writeUInt64LE, writeBigUInt64LE.
  rewrite writeUIntLE_ok by (simpl; lia).
  rewrite write_at_alloc8 by apply length_le_split. reflexivity.
Qed.

(** Lengths of buffers built by successive copies into a header. *)
Ltac hdr_len :=
  repeat first
    [ rewrite length_le_split
    | match goal with
      | |- context [length (write_at ?b ?off ?bs)] =>
          rewrite (length_write_at b off bs) by hdr_len
      end ];
  unfold alloc; rewrite ?repeat_length; simpl; lia.

Ltac read_hdr :=
  match goal with
  | |- context [readUIntLE ?n (write_at ?b ?off ?bs) ?o] =>
      first
        [ match bs with
          | le_split n ?v =>
              rewrite (read_same_at n b off v o)
                by first [ reflexivity | hdr_len | simpl; lia ]
          end
        | rewrite (read_other_at n b off bs o)
            by first [ hdr_len | simpl; lia ] ]
  end.

Lemma encodeHeader_inv (op packetNum payloadLen : Z) (ovr : option Z)
      (hdr : Buffer) :
  encodeHeader op packetNum payloadLen ovr = Ok hdr ->
  blen hdr = AFC_HEADER_SIZE /\
  firstn 8 hdr = AFCMAGIC /\
  readUInt64LE hdr 8 = Ok (AFC_HEADER_SIZE + payloadLen) /\
  readUInt64LE hdr 16
  = Ok (match ovr with Some v => v | None => AFC_HEADER_SIZE + payloadLen end) /\
  readUInt64LE hdr 24 = Ok packetNum /\
  readUInt64LE hdr 32 = Ok op.
Proof.
  unfold encodeHeader. cbv zeta.
  set (thisLen := match ovr with Some v => v | None => _ end).
  destruct (writeUInt64LE (AFC_HEADER_SIZE + payloadLen)) as [b1|] eqn:E1;
    [|discriminate].
  destruct (writeUInt64LE thisLen) as [b2|] eqn:E2; [|discriminate].
  destruct (writeUInt64LE packetNum) as [b3|] eqn:E3; [|discriminate].
  destruct (writeUInt64LE op) as [b4|] eqn:E4; [|discriminate].
  apply writeUInt64LE_inv in E1 as [R1 ->], E2 as [R2 ->],
        E3 as [R3 ->], E4 as [R4 ->].
  cbn [rbind]. intros [= <-]. unfold copy.
  split; [unfold blen; f_equal; hdr_len|].
  split.
  { match goal with
    | |- firstn 8 ?x = _ => change (firstn 8 (skipn 0 x) = AFCMAGIC)
    end.
    repeat (rewrite (field_write_at_other _ _ _ 0 8)
              by (first [ right; hdr_len | left; hdr_len | hdr_len ])).
    apply (field_write_at_same (alloc (Z.to_nat AFC_HEADER_SIZE)) 0 AFCMAGIC).
    simpl. lia. }
  unfold readUInt64LE, readBigUInt64LE.
  repeat split; repeat read_hdr; reflexivity.
Qed.

(** ** Every packet the client writes is well formed *)

Section WireInvariant.
Context `{AfcEnv}.
Hypothesis Hdistinct : write_opcode_distinct.

(** The two ways the client calls [_dispatch]: without an override for
    an operation other than WRITE, or with the WRITE override. *)
Definition dispatch_shape (op : Z) (ovr : option Z) : Prop :=
  (op <> OP_WRITE /\ ovr = None) \/
  (op = OP_WRITE /\ ovr = Some AFC_WRITE_THIS_LENGTH).

Lemma packets_ok_app (l1 l2 : list Buffer) :
  packets_ok l1 -> packets_ok l2 -> packets_ok (l1 ++ l2).
Proof.
  induction 1; intros Hl2; simpl; [assumption | |].
  - apply packets_bare; auto.
  - apply packets_payload; auto.
Qed.

Lemma encodeHeader_lengths_ok (op packetNum : Z) (payload : Buffer)
      (ovr : option Z) (hdr : Buffer) :
  dispatch_shape op ovr ->
  encodeHeader op packetNum (blen payload) ovr = Ok hdr ->
  header_lengths_ok hdr (blen payload).
Proof.
  intros Hshape Henc.
  apply encodeHeader_inv in Henc as (Hlen & Hmagic & He & Ht & _ & Hop).
  split; [assumption|]. split; [assumption|].
  do 3 eexists. split; [exact He|]. split; [exact Ht|]. split; [exact Hop|].
  split; [reflexivity|].
  destruct Hshape as [[Hne ->] | [Heq ->]]; split; intros; congruence.
Qed.

Lemma sendAfcPacket_written (op packetNum : Z) (payload : Buffer)
      (ovr : option Z) (s : Socket) :
  dispatch_shape op ovr ->
  packets_ok (sock_written s) ->
  packets_ok (sock_written (snd (sendAfcPacket op packetNum payload ovr s))).
Proof.
  intros Hshape Hok. unfold sendAfcPacket, se_bind, se_lift.
  destruct (encodeHeader op packetNum (blen payload) ovr) as [hdr|] eqn:Henc;
    [|exact Hok].
  pose proof (encodeHeader_lengths_ok _ _ _ _ _ Hshape Henc) as Hhdr.
  unfold socket_write at 1.
  destruct (sock_write_error s) eqn:Hw; [exact Hok|].
  destruct (Z.ltb_spec 0 (blen payload)) as [Hpos | Hzero].
  - unfold socket_write. cbn [sock_write_error sock_written snd].
    rewrite <- app_assoc. apply packets_ok_app; [assumption|].
    apply packets_payload; [assumption | assumption | constructor].
  - cbn [se_ret snd sock_written].
    apply packets_ok_app; [assumption|].
    apply packets_bare; [|constructor].
    assert (blen payload = 0) as Hz by (unfold blen in *; lia).
    rewrite Hz in Hhdr. exact Hhdr.
Qed.

(** Reading never writes. *)
Lemma await_bytes_written (n : Z) (s : Socket) (events : list SocketEvent) :
  forall buffer,
    sock_written (snd (await_bytes n s buffer events)) = sock_written s.
Proof.
  induction events as [| [chunk | e |] events IH]; intros buffer; simpl;
    try reflexivity.
  destruct (n <=? blen (buffer ++ chunk)); [reflexivity | apply IH].
Qed.

Lemma readExact_written (n : Z) (s : Socket) :
  sock_written (snd (readExact n s)) = sock_written s.
Proof.
  unfold readExact. destruct (n <=? blen (sock_buffer s)); [reflexivity|].
  apply await_bytes_written.
Qed.

Definition keeps_written {A : Type} (m : SE Socket A) : Prop :=
  forall s, sock_written (snd (m s)) = sock_written s.

Lemma keeps_written_bind {A B : Type} (m : SE Socket A) (k : A -> SE Socket B) :
  keeps_written m -> (forall a, keeps_written (k a)) ->
  keeps_written (se_bind m k).
Proof.
  intros Hm Hk s. unfold se_bind. specialize (Hm s).
  destruct (m s) as [[a | e] s']; simpl in *; [|assumption].
  rewrite Hk. assumption.
Qed.

Lemma keeps_written_pure {A : Type} (r : result A) :
  keeps_written (se_lift r).
Proof. intros s. reflexivity. Qed.

Lemma readAfcHeader_written : keeps_written readAfcHeader.
Proof.
  unfold readAfcHeader. apply keeps_written_bind.
  - intros s. apply readExact_written.
  - intros buf. destruct (negb _); intros s; reflexivity.
Qed.

Lemma readAfcResponse_written : keeps_written readAfcResponse.
Proof.
  unfold readAfcResponse. apply keeps_written_bind;
    [apply readAfcHeader_written|].
  intros header. apply keeps_written_bind.
  - destruct (0 <? _); intros s; [apply readExact_written | reflexivity].
  - intros payload. destruct (_ =? _).
    + apply keeps_written_bind; [apply keeps_written_pure|].
      intros status s. reflexivity.
    + intros s. reflexivity.
Qed.

(** *** Operations preserve the invariant *)

Definition preserves {A : Type} (m : SE AfcService A) : Prop :=
  forall svc, wire_ok svc -> wire_ok (snd (m svc)).

Definition preserves_f {A : Type} (m : SEF AfcService A) : Prop :=
  forall svc r svc', wire_ok svc -> m svc = Some (r, svc') -> wire_ok svc'.

Lemma preserves_ret {A : Type} (a : A) : preserves (se_ret a).
Proof. intros svc Hok. exact Hok. Qed.

Lemma preserves_throw {A : Type} (e : JsError) :
  preserves (@se_throw AfcService A e).
Proof. intros svc Hok. exact Hok. Qed.

Lemma preserves_lift {A : Type} (r : result A) :
  preserves (@se_lift AfcService A r).
Proof. intros svc Hok. exact Hok. Qed.

Lemma preserves_bind {A B : Type} (m : SE AfcService A)
      (k : A -> SE AfcService B) :
  preserves m -> (forall a, preserves (k a)) -> preserves (se_bind m k).
Proof.
  intros Hm Hk svc Hok. unfold se_bind. specialize (Hm svc Hok).
  destruct (m svc) as [[a | e] svc']; simpl in *; [|assumption].
  apply Hk. assumption.
Qed.

Lemma preserves_catch {A : Type} (m : SE AfcService A)
      (h : JsError -> SE AfcService A) :
  preserves m -> (forall e, preserves (h e)) -> preserves (se_catch m h).
Proof.
  intros Hm Hh svc Hok. unfold se_catch. specialize (Hm svc Hok).
  destruct (m svc) as [[a | e] svc']; simpl in *; [assumption|].
  apply Hh. assumption.
Qed.

Lemma preserves_connect : preserves _connect.
Proof.
  intros svc [Hsock Hnet]. unfold _connect.
  assert (Hdial : wire_ok (snd
    match network svc with
    | [] => (Throw (Err "AFC connect timed out"), svc)
    | DialError e :: rest =>
        (Throw e, mkAfcService (socket svc) (packetNum svc) rest)
    | DialHandshakeError s e :: rest =>
        (Throw e, mkAfcService (Some s) (packetNum svc) rest)
    | DialReady s :: rest =>
        (@Ok unit tt, mkAfcService (Some s) (packetNum svc) rest)
    end)).
  { destruct (network svc) as [| [e | s e | s] rest] eqn:Hn.
    - split; [assumption|]. cbn [snd]. rewrite Hn. constructor.
    - inversion Hnet as [| ? ? H2 H3]; subst; split; [exact Hsock | exact H3].
    - inversion Hnet as [| ? ? H2 H3]; subst; split; [exact H2 | exact H3].
    - inversion Hnet as [| ? ? H2 H3]; subst; split; [exact H2 | exact H3]. }
  destruct (socket svc) as [s|] eqn:Hs; [|exact Hdial].
  destruct (sock_destroyed s); [exact Hdial|].
  split; [cbn [snd]; rewrite Hs; exact Hsock | exact Hnet].
Qed.

Lemma preserves_next_packetNum : preserves next_packetNum.
Proof. intros svc Hok. exact Hok. Qed.

Lemma preserves_on_socket {A : Type} (m : SE Socket A) :
  (forall s, packets_ok (sock_written s) ->
             packets_ok (sock_written (snd (m s)))) ->
  preserves (on_socket m).
Proof.
  intros Hm svc [Hsock Hnet]. unfold on_socket.
  destruct (socket svc) as [s|] eqn:Hs.
  - specialize (Hm s Hsock). destruct (m s) as [r s'].
    split; [exact Hm | exact Hnet].
  - split; [cbn [snd]; rewrite Hs; exact I | exact Hnet].
Qed.

Lemma preserves_dispatch (op : Z) (payload : Buffer) (ovr : option Z) :
  dispatch_shape op ovr -> preserves (_dispatch op payload ovr).
Proof.
  intros Hshape. unfold _dispatch.
  apply preserves_bind; [apply preserves_connect | intros _].
  apply preserves_bind; [apply preserves_next_packetNum | intros n].
  apply preserves_on_socket. intros s. apply sendAfcPacket_written, Hshape.
Qed.

Lemma preserves_receive : preserves _receive.
Proof.
  unfold _receive.
  apply preserves_bind; [apply preserves_connect | intros _].
  apply preserves_bind; [|intros res; apply preserves_ret].
  apply preserves_on_socket. intros s Hs.
  rewrite readAfcResponse_written. exact Hs.
Qed.

Lemma preserves_doOperation (op : Z) (payload : Buffer) :
  op <> OP_WRITE -> preserves (_doOperation op payload None).
Proof.
  intros Hop. unfold _doOperation.
  apply preserves_bind;
    [apply preserves_dispatch; left; split; [assumption | reflexivity]
    | intros _].
  apply preserves_bind; [apply preserves_receive | intros res].
  destruct (negb _); [destruct (_ =? _)|];
    first [apply preserves_throw | apply preserves_ret].
Qed.

Lemma preserves_f_ret {A : Type} (a : A) :
  preserves_f (@sef_ret AfcService A a).
Proof. intros svc r svc' Hok [= <- <-]. exact Hok. Qed.

Lemma preserves_f_throw {A : Type} (e : JsError) :
  preserves_f (@sef_throw AfcService A e).
Proof. intros svc r svc' Hok [= <- <-]. exact Hok. Qed.

Lemma preserves_f_lift {A : Type} (m : SE AfcService A) :
  preserves m -> preserves_f (sef_lift m).
Proof.
  intros Hm svc r svc' Hok. unfold sef_lift. intros [= Heq].
  specialize (Hm svc Hok). rewrite Heq in Hm. exact Hm.
Qed.

Lemma preserves_f_bind {A B : Type} (m : SEF AfcService A)
      (k : A -> SEF AfcService B) :
  preserves_f m -> (forall a, preserves_f (k a)) ->
  preserves_f (sef_bind m k).
Proof.
  intros Hm Hk svc r svc' Hok. unfold sef_bind.
  destruct (m svc) as [[[a | e] svc1]|] eqn:Hrun; [| |discriminate].
  - apply (Hk a svc1). apply (Hm svc _ _ Hok Hrun).
  - intros [= <- <-]. apply (Hm svc _ _ Hok Hrun).
Qed.

Lemma preserves_f_catch {A : Type} (m : SEF AfcService A)
      (h : JsError -> SEF AfcService A) :
  preserves_f m -> (forall e, preserves_f (h e)) ->
  preserves_f (sef_catch m h).
Proof.
  intros Hm Hh svc r svc' Hok. unfold sef_catch.
  destruct (m svc) as [[[a | e] svc1]|] eqn:Hrun; [| |discriminate].
  - intros [= <- <-]. apply (Hm svc _ _ Hok Hrun).
  - apply (Hh e svc1). apply (Hm svc _ _ Hok Hrun).
Qed.

Lemma opcodes_not_write :
  OP_READ_DIR <> OP_WRITE /\ OP_GET_FILE_INFO <> OP_WRITE /\
  OP_FILE_OPEN <> OP_WRITE /\ OP_FILE_CLOSE <> OP_WRITE /\
  OP_REMOVE_PATH <> OP_WRITE /\ OP_RENAME_PATH <> OP_WRITE /\
  OP_READ <> OP_WRITE.
Proof.
  unfold write_opcode_distinct in Hdistinct. simpl in Hdistinct.
  repeat split; intros Heq; apply Hdistinct; rewrite Heq; tauto.
Qed.

Lemma preserves_listdir (dirPath : string) : preserves (listdir dirPath).
Proof.
  unfold listdir. apply preserves_bind; [|intros; apply preserves_ret].
  apply preserves_doOperation, opcodes_not_write.
Qed.

Lemma preserves_stat (filePath : string) : preserves (stat filePath).
Proof.
  unfold stat. apply preserves_catch; [|intros; apply preserves_throw].
  apply preserves_bind;
    [apply preserves_doOperation, opcodes_not_write | intros data].
  repeat (apply preserves_bind; [apply preserves_lift | intros ?]).
  apply preserves_ret.
Qed.

Lemma preserves_isdir (filePath : string) : preserves (isdir filePath).
Proof.
  unfold isdir. apply preserves_bind; [apply preserves_stat|].
  intros; apply preserves_ret.
Qed.

Lemma preserves_exists (filePath : string) : preserves (exists_ filePath).
Proof.
  unfold exists_. apply preserves_catch; [|intros; apply preserves_ret].
  apply preserves_bind; [apply preserves_stat | intros; apply preserves_ret].
Qed.

Lemma preserves_fopen (filePath mode : string) :
  preserves (fopen filePath mode).
Proof.
  unfold fopen. destruct (table_get fopen_modes mode) as [afcMode|];
    [|apply preserves_throw].
  destruct (afcMode =? 0); [apply preserves_throw|].
  apply preserves_catch; [|intros; apply preserves_throw].
  apply preserves_bind; [apply preserves_lift | intros payload].
  apply preserves_bind;
    [apply preserves_doOperation, opcodes_not_write | intros data].
  apply preserves_lift.
Qed.

Lemma preserves_fclose (handle : Z) : preserves (fclose handle).
Proof.
  unfold fclose. apply preserves_bind; [apply preserves_lift | intros payload].
  apply preserves_bind;
    [apply preserves_doOperation, opcodes_not_write | intros _].
  apply preserves_ret.
Qed.

Lemma preserves_rmSingle (filePath : string) (force : bool) :
  preserves (rmSingle filePath force).
Proof.
  unfold rmSingle. apply preserves_catch.
  - apply preserves_bind;
      [apply preserves_doOperation, opcodes_not_write | intros _].
    apply preserves_ret.
  - intros e. destruct force; [apply preserves_ret | apply preserves_throw].
Qed.

Lemma preserves_rename (src dst : string) : preserves (rename src dst).
Proof.
  unfold rename. apply preserves_catch; [|intros; apply preserves_throw].
  apply preserves_bind;
    [apply preserves_doOperation, opcodes_not_write | intros _].
  apply preserves_ret.
Qed.

Lemma preserves_read_stream (handle left : Z) (svc : AfcService) :
  wire_ok svc -> wire_ok (snd (afc_read_stream_read handle left svc)).
Proof.
  intros Hok. unfold afc_read_stream_read.
  destruct (left <=? 0); [exact Hok|].
  match goal with
  | |- context [match ?run svc with _ => _ end] =>
      assert (Hrun : preserves run)
  end.
  { apply preserves_bind; [apply preserves_lift | intros payload].
    apply preserves_bind; [|intros _; apply preserves_receive].
    apply preserves_dispatch. left. split; [|reflexivity].
    apply opcodes_not_write. }
  specialize (Hrun svc Hok).
  match goal with
  | |- context [match ?run svc with _ => _ end] =>
      destruct (run svc) as [[[status data] | e] svc']
  end; [destruct (negb _)|]; exact Hrun.
Qed.

Lemma preserves_write_chunk (handle : Z) (chunk : Buffer)
      (k : SEF AfcService unit) :
  preserves_f k ->
  preserves_f
    (h <~~ sef_lift (se_lift (writeUInt64LE handle)) ;;
     _ <~~ sef_lift (_dispatch OP_WRITE (h ++ chunk)
                               (Some AFC_WRITE_THIS_LENGTH)) ;;
     res <~~ sef_lift _receive ;;
     if negb (fst res =? AFC_SUCCESS)
     then sef_throw (Err "fwrite chunk failed")
     else k).
Proof.
  intros Hk.
  apply preserves_f_bind;
    [apply preserves_f_lift, preserves_lift | intros h].
  apply preserves_f_bind.
  { apply preserves_f_lift, preserves_dispatch. right. split; reflexivity. }
  intros _. apply preserves_f_bind;
    [apply preserves_f_lift, preserves_receive | intros res].
  destruct (negb _); [apply preserves_f_throw | exact Hk].
Qed.

Lemma preserves_fwrite_loop (fuel : nat) (handle : Z) (data : Buffer)
      (chunkSize : Z) :
  forall offset, preserves_f (fwrite_loop fuel handle data chunkSize offset).
Proof.
  induction fuel as [| fuel IH]; intros offset; simpl;
    destruct (offset <? blen data); try apply preserves_f_ret.
  - intros svc r svc' _ [=].
  - apply preserves_write_chunk, IH.
Qed.

Lemma preserves_fwrite (fuel : nat) (handle : Z) (data : Buffer)
      (chunkSize : option Z) :
  preserves_f (fwrite fuel handle data chunkSize).
Proof. unfold fwrite. apply preserves_fwrite_loop. Qed.

Lemma preserves_write_stream (fuel : nat) (handle : Z) (chunk : Buffer)
      (chunkSize : option Z) :
  preserves_f (afc_write_stream_write fuel handle chunk chunkSize).
Proof.
  unfold afc_write_stream_write. generalize 0 as offset.
  induction fuel as [| fuel IH]; intros offset; simpl;
    destruct (offset <? blen chunk); try apply preserves_f_ret.
  - intros svc r svc' _ [=].
  - apply preserves_write_chunk, IH.
Qed.

Lemma preserves_rm_entries
      (rm_rec : string -> bool -> SEF AfcService (list string))
      (filePath : string) (entries : list string) :
  (forall p f, preserves_f (rm_rec p f)) ->
  forall failedPaths,
    preserves_f (rm_entries rm_rec filePath entries failedPaths).
Proof.
  intros Hrec. induction entries as [| entry rest IH]; intros failedPaths;
    simpl; [apply preserves_f_ret|].
  apply preserves_f_bind;
    [apply preserves_f_lift, preserves_isdir | intros d].
  destruct d.
  - apply preserves_f_bind; [apply Hrec | intros sub; apply IH].
  - apply preserves_f_bind;
      [apply preserves_f_lift, preserves_rmSingle | intros ok; apply IH].
Qed.

Lemma preserves_rm (fuel : nat) :
  forall filePath force, preserves_f (rm fuel filePath force).
Proof.
  induction fuel as [| fuel IH]; intros filePath force; simpl.
  - intros svc r svc' _ [=].
  - apply preserves_f_bind;
      [apply preserves_f_lift, preserves_exists | intros ex].
    destruct (negb ex); [apply preserves_f_ret|].
    apply preserves_f_bind;
      [apply preserves_f_lift, preserves_isdir | intros d].
    destruct (negb d).
    + apply preserves_f_bind;
        [apply preserves_f_lift, preserves_rmSingle | intros ok].
      apply preserves_f_ret.
    + apply preserves_f_bind;
        [apply preserves_f_lift, preserves_listdir | intros entries].
      apply preserves_f_bind;
        [apply preserves_rm_entries, IH | intros failedPaths].
      apply preserves_f_catch.
      * apply preserves_f_bind;
          [apply preserves_f_lift, preserves_rmSingle | intros ok].
        apply preserves_f_ret.
      * intros e. destruct failedPaths;
          [apply preserves_f_throw | apply preserves_f_ret].
Qed.

End WireInvariant.

Lemma encodeHeader_ok (op packetNum payloadLen : Z) (ovr : option Z) :
  0 <= op < 2 ^ 64 -> 0 <= packetNum < 2 ^ 64 ->
  0 <= AFC_HEADER_SIZE + payloadLen < 2 ^ 64 ->
  0 <= match ovr with Some v => v | None => AFC_HEADER_SIZE + payloadLen end
    < 2 ^ 64 ->
  exists hdr, encodeHeader op packetNum payloadLen ovr = Ok hdr.
Proof.
  intros Hop Hpn Hent Hthis. unfold encodeHeader. cbv zeta.
  rewrite (writeUInt64LE_ok (AFC_HEADER_SIZE + payloadLen)) by assumption.
  cbn [rbind].
  rewrite (writeUInt64LE_ok _ Hthis). cbn [rbind].
  rewrite (writeUInt64LE_ok _ Hpn). cbn [rbind].
  rewrite (writeUInt64LE_ok _ Hop). cbn [rbind].
  eexists. reflexivity.
Qed.

Lemma sendAfcPacket_appends (op packetNum : Z) (payload : Buffer)
      (ovr : option Z) (s : Socket) (hdr : Buffer) :
  sock_write_error s = None ->
  encodeHeader op packetNum (blen payload) ovr = Ok hdr ->
  exists s',
    sendAfcPacket op packetNum payload ovr s = (Ok tt, s') /\
    sock_written s'
    = sock_written s ++ hdr :: (if 0 <? blen payload then [payload] else []).
Proof.
  intros Hw Henc. unfold sendAfcPacket, se_bind, se_lift. rewrite Henc.
  unfold socket_write at 1. rewrite Hw.
  destruct (0 <? blen payload).
  - unfold socket_write. cbn [sock_write_error sock_written].
    eexists. split; [reflexivity|]. cbn [sock_written].
    rewrite <- app_assoc. reflexivity.
  - unfold se_ret. eexists. split; [reflexivity|]. reflexivity.
Qed.

(** C7.  Every header the client encodes is 40 bytes long with
    entire-length equal to 40 plus the payload length and this-length
    equal to the override when there is one and to entire-length
    otherwise; a packet sent on a writable socket is that header followed
    by its payload; and every operation of the client keeps the writes on
    the wire a sequence of packets whose this-length is entire-length,
    except for WRITE packets, whose this-length is the override 48. *)
Theorem afc_packet_lengths `{AfcEnv} (svc : AfcService) (s : Socket)
        (op packetNum : Z) (payload : Buffer) (ovr : option Z) :
  write_opcode_distinct ->
  wire_ok svc ->
  match encodeHeader op packetNum (blen payload) ovr with
  | Ok hdr =>
      blen hdr = AFC_HEADER_SIZE /\
      readUInt64LE hdr 8 = Ok (AFC_HEADER_SIZE + blen payload) /\
      readUInt64LE hdr 16
      = Ok (match ovr with
            | Some v => v
            | None => AFC_HEADER_SIZE + blen payload
            end) /\
      (sock_write_error s = None ->
       sock_written (snd (sendAfcPacket op packetNum payload ovr s))
       = sock_written s ++
         hdr :: (if 0 <? blen payload then [payload] else []))
  | Throw _ =>
      ~ (0 <= op < 2 ^ 64 /\ 0 <= packetNum < 2 ^ 64 /\
         0 <= AFC_HEADER_SIZE + blen payload < 2 ^ 64 /\
         0 <= match ovr with
              | Some v => v
              | None => AFC_HEADER_SIZE + blen payload
              end < 2 ^ 64)
  end /\
  (forall p, wire_ok (snd (listdir p svc))) /\
  (forall p, wire_ok (snd (stat p svc))) /\
  (forall p, wire_ok (snd (isdir p svc))) /\
  (forall p, wire_ok (snd (exists_ p svc))) /\
  (forall p mode, wire_ok (snd (fopen p mode svc))) /\
  (forall handle, wire_ok (snd (fclose handle svc))) /\
  (forall p force, wire_ok (snd (rmSingle p force svc))) /\
  (forall src dst, wire_ok (snd (rename src dst svc))) /\
  (forall handle left,
      wire_ok (snd (afc_read_stream_read handle left svc))) /\
  (forall fuel handle data chunkSize,
      wire_ok_after (fwrite fuel handle data chunkSize svc)) /\
  (forall fuel handle chunk chunkSize,
      wire_ok_after (afc_write_stream_write fuel handle chunk chunkSize svc)) /\
  (forall fuel p force, wire_ok_after (rm fuel p force svc)).
Proof.
  intros Hdistinct Hok. split.
  { destruct (encodeHeader op packetNum (blen payload) ovr) as [hdr | e]
      eqn:Henc.
    - pose proof (encodeHeader_inv _ _ _ _ _ Henc)
        as (Hlen & _ & He & Ht & _ & _).
      split; [exact Hlen|]. split; [exact He|]. split; [exact Ht|].
      intros Hw.
      destruct (sendAfcPacket_appends _ _ _ _ _ _ Hw Henc) as (s' & -> & Hs').
      exact Hs'.
    - intros (Hop & Hpn & Hent & Hthis).
      destruct (encodeHeader_ok op packetNum (blen payload) ovr
                  Hop Hpn Hent Hthis) as (hdr & Hhdr).
      congruence. }
  assert (Hf : forall A (m : SEF AfcService A),
             preserves_f m -> wire_ok_after (m svc)).
  { intros A m Hm. unfold wire_ok_after.
    destruct (m svc) as [[r svc']|] eqn:Hrun; [|exact I].
    exact (Hm svc r svc' Hok Hrun). }
  split; [intros; apply preserves_listdir; assumption|].
  split; [intros; apply preserves_stat; assumption|].
  split; [intros; apply preserves_isdir; assumption|].
  split; [intros; apply preserves_exists; assumption|].
  split; [intros; apply preserves_fopen; assumption|].
  split; [intros; apply preserves_fclose; assumption|].
  split; [intros; apply preserves_rmSingle; assumption|].
  split; [intros; apply preserves_rename; assumption|].
  split; [intros; apply preserves_read_stream; assumption|].
  split; [intros; apply Hf, preserves_fwrite; assumption|].
  split; [intros; apply Hf, preserves_write_stream; assumption|].
  intros; apply Hf, preserves_rm; assumption.
Qed.

(** A run of [fwrite]: three bytes written to handle 7 give one WRITE
    packet (operation 16, sequence number 0) with entire-length
    40 + 8 + 3 and this-length 48. *)
Example fwrite_sample_packet :
  exists hdr svc',
    fwrite (H := afc_protocol_env) 1 7 sample_data None sample_write_service
    = Some (Ok tt, svc') /\
    option_map sock_written (socket svc')
    = Some [hdr; le_split 8 7 ++ sample_data] /\
    readUInt64LE hdr 8 = Ok 51 /\
    readUInt64LE hdr 16 = Ok 48 /\
    readUInt64LE hdr 24 = Ok 0 /\
    readUInt64LE hdr 32 = Ok 16.
Proof.
  do 2 eexists. split; [vm_compute; reflexivity|].
  split; [vm_compute; reflexivity|].
  repeat split; vm_compute; reflexivity.
Qed.

Lemma afc_packet_lengths_witness :
  (exists hdr,
      encodeHeader 16 0 (blen (le_split 8 7 ++ sample_data)) (Some 48) = Ok hdr /\
      readUInt64LE hdr 8 = Ok 51 /\ readUInt64LE hdr 16 = Ok 48) /\
  wire_ok_after (H := afc_protocol_env)
    (fwrite (H := afc_protocol_env) 1 7 sample_data None sample_write_service) /\
  wire_ok_after (H := afc_protocol_env)
    (rm (H := afc_protocol_env) 3 "/tmp" false sample_write_service).
Proof.
  assert (Hd : write_opcode_distinct (H := afc_protocol_env))
    by (unfold write_opcode_distinct; simpl; lia).
  assert (Hok : wire_ok (H := afc_protocol_env) sample_write_service)
    by (split; [exact I | repeat constructor]).
  pose proof (afc_packet_lengths (H := afc_protocol_env)
                sample_write_service (socket_of_events []) 16 0
                (le_split 8 7 ++ sample_data) (Some 48) Hd Hok)
    as (Henc & _ & _ & _ & _ & _ & _ & _ & _ & _ & Hfw & _ & Hrm).
  split.
  - destruct (encodeHeader 16 0 (blen (le_split 8 7 ++ sample_data)) (Some 48))
      as [hdr | e].
    + exists hdr. destruct Henc as (_ & He & Ht & _).
      split; [reflexivity|]. split; [exact He | exact Ht].
    + exfalso. apply Henc. vm_compute. intuition discriminate.
  - split; [apply Hfw | apply Hrm].
Defined.

(** ** Removing paths *)

Section Rm.
Context `{AfcEnv}.

Lemma rm_missing (fuel : nat) (p : string) (force : bool)
      (svc svc' : AfcService) :
  exists_ p svc = (Ok false, svc') ->
  rm (S fuel) p force svc = Some (Ok (if force then [] else [p]), svc').
Proof.
  intros Hex. cbn [rm]. unfold sef_bind, sef_lift. rewrite Hex.
  reflexivity.
Qed.

Lemma rm_empty_dir (fuel : nat) (p : string) (force : bool)
      (s s1 s2 s3 s4 : AfcService) :
  exists_ p s = (Ok true, s1) ->
  isdir p s1 = (Ok true, s2) ->
  listdir p s2 = (Ok [], s3) ->
  rmSingle p force s3 = (Ok true, s4) ->
  rm (S fuel) p force s = Some (Ok [], s4).
Proof.
  intros Hex Hdir Hls Hrm. cbn [rm]. unfold sef_bind, sef_lift, sef_catch.
  rewrite Hex. cbn [negb]. rewrite Hdir. cbn [negb]. rewrite Hls.
  cbn [rm_entries sef_ret]. rewrite Hrm. reflexivity.
Qed.

Lemma rm_entries_removes (fuel : nat) (dir : string) (entries : list string)
      (s s' : AfcService) :
  removes_entries dir entries s s' ->
  forall failedPaths,
    rm_entries (rm (S fuel)) dir entries failedPaths s
    = Some (Ok failedPaths, s').
Proof.
  induction 1 as [s | entry rest s s1 s2 s3 Hdir Hrm _ IH
                    | entry rest s s1 s2 s3 s4 s5 s6 Hdir Hex Hdir' Hls Hrm _ IH];
    intros failedPaths.
  - reflexivity.
  - cbn [rm_entries]. unfold sef_bind at 1, sef_lift at 1. rewrite Hdir.
    unfold sef_bind at 1, sef_lift at 1. rewrite Hrm. apply IH.
  - cbn [rm_entries]. unfold sef_bind at 1, sef_lift at 1. rewrite Hdir.
    unfold sef_bind at 1.
    rewrite (rm_empty_dir fuel _ true s1 s2 s3 s4 s5 Hex Hdir' Hls Hrm).
    rewrite app_nil_r. apply IH.
Qed.

Lemma rm_directory (fuel : nat) (dir : string) (force : bool)
      (entries : list string) (s0 s1 s2 s3 s4 s5 : AfcService) :
  exists_ dir s0 = (Ok true, s1) ->
  isdir dir s1 = (Ok true, s2) ->
  listdir dir s2 = (Ok entries, s3) ->
  removes_entries dir entries s3 s4 ->
  rmSingle dir force s4 = (Ok true, s5) ->
  rm (S (S fuel)) dir force s0 = Some (Ok [], s5).
Proof.
  intros Hex Hdir Hls Hentries Hrm.
  change (rm (S (S fuel)) dir force s0) with
    ((ex <~~ sef_lift (exists_ dir) ;;
      if negb ex
      then sef_ret (if force then [] else [dir])
      else
        d <~~ sef_lift (isdir dir) ;;
        if negb d
        then
          ok <~~ sef_lift (rmSingle dir force) ;;
          sef_ret (if ok then [] else [dir])
        else
          entries <~~ sef_lift (listdir dir) ;;
          failedPaths <~~ rm_entries (rm (S fuel)) dir entries [] ;;
          sef_catch
            (ok <~~ sef_lift (rmSingle dir force) ;;
             sef_ret (if ok then failedPaths else failedPaths ++ [dir]))
            (fun err =>
               match failedPaths with
               | _ :: _ => sef_ret (failedPaths ++ [dir])
               | [] => sef_throw err
               end)) s0).
  unfold sef_bind at 1, sef_lift at 1. rewrite Hex. cbn [negb].
  unfold sef_bind at 1, sef_lift at 1. rewrite Hdir. cbn [negb].
  unfold sef_bind at 1, sef_lift at 1. rewrite Hls.
  unfold sef_bind at 1.
  rewrite (rm_entries_removes fuel dir entries s3 s4 Hentries).
  unfold sef_catch, sef_bind, sef_lift. rewrite Hrm. reflexivity.
Qed.

Lemma exists_of_stat (p : string) (svc : AfcService) :
  exists_ p svc
  = (Ok (is_ok (fst (stat p svc))), snd (stat p svc)).
Proof.
  unfold exists_, se_catch, se_bind, se_ret.
  destruct (stat p svc) as [[st | e] svc']; reflexivity.
Qed.

End Rm.

(** C8.  [rm] on a directory whose entries the device presents as files
    or as empty subdirectories, every removal succeeding, removes the
    entries in listing order and then the directory, and returns the
    empty list: in particular for a directory with one file and one
    empty subdirectory.  [rm] on a path whose [stat] fails (a path that
    does not exist) returns the empty list when forced and the list
    holding the path otherwise, and does not throw. *)
Theorem rm_directory_and_missing `{AfcEnv} (fuel : nat)
        (dir : string) (force : bool) (entries : list string)
        (s0 s1 s2 s3 s4 s5 : AfcService)
        (p : string) (t t' : AfcService) (e : JsError) :
  (2 <= fuel)%nat ->
  exists_ dir s0 = (Ok true, s1) ->
  isdir dir s1 = (Ok true, s2) ->
  listdir dir s2 = (Ok entries, s3) ->
  removes_entries dir entries s3 s4 ->
  rmSingle dir force s4 = (Ok true, s5) ->
  stat p t = (Throw e, t') ->
  rm fuel dir force s0 = Some (Ok [], s5) /\
  rm fuel p true t = Some (Ok [], t') /\
  rm fuel p false t = Some (Ok [p], t').
Proof.
  intros Hfuel Hex Hdir Hls Hentries Hrm Hstat.
  destruct fuel as [| [| fuel]]; [lia | lia |].
  split; [exact (rm_directory fuel dir force entries _ _ _ _ _ _
                   Hex Hdir Hls Hentries Hrm)|].
  assert (Hmissing : exists_ p t = (Ok false, t'))
    by (rewrite exists_of_stat, Hstat; reflexivity).
  split; [exact (rm_missing _ p true t t' Hmissing)
         | exact (rm_missing _ p false t t' Hmissing)].
Qed.

Lemma run_ok {S A : Type} (m : SE S A) (s : S) (a : A) :
  fst (m s) = Ok a -> m s = (Ok a, snd (m s)).
Proof. destruct (m s) as [r s']. simpl. intros ->. reflexivity. Qed.

Lemma run_throw {S A : Type} (m : SE S A) (s : S) (e : JsError) :
  fst (m s) = Throw e -> m s = (Throw e, snd (m s)).
Proof. destruct (m s) as [r s']. simpl. intros ->. reflexivity. Qed.

Lemma rm_directory_and_missing_witness :
  exists s5 t',
    rm (H := afc_protocol_env) 5 "/stuff" false sample_rm_service
    = Some (Ok [], s5) /\
    device_fs_after sample_fs s5 = Some [("/other"%string, false)] /\
    option_map (fun s => removed_paths (sock_written s)) (socket s5)
    = Some ["/stuff/a.txt"; "/stuff/sub"; "/stuff"]%string /\
    rm (H := afc_protocol_env) 5 "/nothing" true sample_rm_service
    = Some (Ok [], t') /\
    rm (H := afc_protocol_env) 5 "/nothing" false sample_rm_service
    = Some (Ok ["/nothing"%string], t') /\
    device_fs_after sample_fs t' = Some sample_fs.
Proof.
  pose (E := afc_protocol_env).
  pose (s0 := sample_rm_service).
  pose (s1 := snd (exists_ (H := E) "/stuff" s0)).
  pose (s2 := snd (isdir (H := E) "/stuff" s1)).
  pose (s3 := snd (listdir (H := E) "/stuff" s2)).
  pose (a1 := snd (isdir (H := E) "/stuff/a.txt" s3)).
  pose (a2 := snd (rmSingle (H := E) "/stuff/a.txt" true a1)).
  pose (b1 := snd (isdir (H := E) "/stuff/sub" a2)).
  pose (b2 := snd (exists_ (H := E) "/stuff/sub" b1)).
  pose (b3 := snd (isdir (H := E) "/stuff/sub" b2)).
  pose (b4 := snd (listdir (H := E) "/stuff/sub" b3)).
  pose (s4 := snd (rmSingle (H := E) "/stuff/sub" true b4)).
  pose (s5 := snd (rmSingle (H := E) "/stuff" false s4)).
  pose (t' := snd (stat (H := E) "/nothing" s0)).
  assert (Hentries :
            removes_entries (H := E) "/stuff" ["a.txt"; "sub"]%string s3 s4).
  { apply (removes_file (H := E) "/stuff" "a.txt" ["sub"]%string s3 a1 a2 s4).
    - apply run_ok. vm_compute. reflexivity.
    - apply run_ok. vm_compute. reflexivity.
    - apply (removes_empty_dir (H := E) "/stuff" "sub" [] a2 b1 b2 b3 b4 s4 s4).
      + apply run_ok. vm_compute. reflexivity.
      + apply run_ok. vm_compute. reflexivity.
      + apply run_ok. vm_compute. reflexivity.
      + apply run_ok. vm_compute. reflexivity.
      + apply run_ok. vm_compute. reflexivity.
      + apply removes_none. }
  destruct (rm_directory_and_missing (H := E) 5 "/stuff" false
              ["a.txt"; "sub"]%string s0 s1 s2 s3 s4 s5
              "/nothing" s0 t' (Err "AFC error: OBJECT_NOT_FOUND"))
    as (Hdir & Hforce & Hplain).
  - lia.
  - apply run_ok. vm_compute. reflexivity.
  - apply run_ok. vm_compute. reflexivity.
  - apply run_ok. vm_compute. reflexivity.
  - exact Hentries.
  - apply run_ok. vm_compute. reflexivity.
  - apply run_throw. vm_compute. reflexivity.
  - exists s5, t'.
    split; [exact Hdir|].
    split; [vm_compute; reflexivity|].
    split; [vm_compute; reflexivity|].
    split; [exact Hforce|].
    split; [exact Hplain | vm_compute; reflexivity].
Defined.

(** ** [exists] *)

(** C10.  [exists] returns true exactly when [stat] returns, returns
    false when [stat] throws, whatever the error, and never throws
    itself; it leaves the client in the state [stat] left it in. *)
Theorem exists_reflects_stat `{AfcEnv} (filePath : string) (svc : AfcService) :
  match stat filePath svc with
  | (Ok _, svc') => exists_ filePath svc = (Ok true, svc')
  | (Throw _, svc') => exists_ filePath svc = (Ok false, svc')
  end /\
  (exists b, fst (exists_ filePath svc) = Ok b) /\
  (fst (exists_ filePath svc) = Ok true <->
   exists st, fst (stat filePath svc) = Ok st).
Proof.
  unfold exists_, se_catch, se_bind, se_ret.
  destruct (stat filePath svc) as [[st | e] svc']; cbn [fst].
  - split; [reflexivity|]. split; [eauto|]. split; eauto.
  - split; [reflexivity|]. split; [eauto|].
    split; [discriminate | intros [st [=]]].
Qed.

(** [exists] answers false, without throwing, when the connection fails,
    when the device reports a status other than OBJECT_NOT_FOUND, when
    the response is not a file-conduit packet, and when the attributes
    cannot be parsed. *)
Example exists_false_for_any_failure :
  fst (stat (H := afc_protocol_env) "/x" service_unreachable)
  = Throw (Err "ECONNREFUSED") /\
  fst (exists_ (H := afc_protocol_env) "/x" service_unreachable) = Ok false /\
  fst (stat (H := afc_protocol_env) "/x" service_denied)
  = Throw (Err "AFC operation failed") /\
  fst (exists_ (H := afc_protocol_env) "/x" service_denied) = Ok false /\
  fst (stat (H := afc_protocol_env) "/x" service_garbled)
  = Throw (Err "Invalid AFC magic") /\
  fst (exists_ (H := afc_protocol_env) "/x" service_garbled) = Ok false /\
  fst (stat (H := afc_protocol_env) "/x" service_odd_attributes)
  = Throw (Err "Invalid key/value AFC list (odd number of entries)") /\
  fst (exists_ (H := afc_protocol_env) "/x" service_odd_attributes)
  = Ok false /\
  fst (stat (H := afc_protocol_env) "/x" service_bad_size) = Throw TypeErr /\
  fst (exists_ (H := afc_protocol_env) "/x" service_bad_size) = Ok false /\
  fst (exists_ (H := afc_protocol_env) "/stuff" sample_rm_service) = Ok true.
Proof. repeat split; vm_compute; reflexivity. Qed.

(** ** Fragment reassembly *)

Section Reassembly.
Variable regular : bool.

(** Fragments that are not the last one of their message only extend the
    accumulation buffer. *)
Lemma addFragments_partial (n : Z) (frags : list (DTXMessageHeader * Buffer)) :
  forall (start : nat) (f : ChannelFragmenter),
    (forall i h c, frags !! i = Some (h, c) ->
                   fragmentId h = Z.of_nat (start + i) /\
                   fragmentCount h = n /\
                   (0 <=? channelCode h) = regular) ->
    Z.of_nat (start + length frags) <= n - 1 ->
    messages (addFragments frags f) = messages f /\
    accumulator regular (addFragments frags f)
    = accumulator regular f ++ concat (map snd frags) /\
    accumulator (negb regular) (addFragments frags f)
    = accumulator (negb regular) f.
Proof.
  induction frags as [| [h c] frags IH]; intros start f Hfr Hlen.
  - simpl. rewrite app_nil_r. auto.
  - destruct (Hfr 0%nat h c eq_refl) as (Hid & Hcount & Hsign).
    simpl in Hlen.
    assert (Hnotlast : (fragmentId h =? fragmentCount h - 1) = false)
      by (apply Z.eqb_neq; lia).
    specialize (IH (S start) (ChannelFragmenter.addFragment h c f)).
    destruct IH as (Hm & Hacc & Hother).
    { intros i h' c' Hi. specialize (Hfr (S i) h' c' Hi).
      replace (S start + i)%nat with (start + S i)%nat by lia. exact Hfr. }
    { lia. }
    unfold addFragments in *. cbn [fold_left map concat snd].
    rewrite Hm, Hacc, Hother.
    unfold ChannelFragmenter.addFragment. rewrite Hsign, Hnotlast.
    destruct regular; simpl; rewrite <- ?app_assoc; auto.
Qed.

Lemma addFragments_snoc (frags : list (DTXMessageHeader * Buffer))
      (h : DTXMessageHeader) (c : Buffer) (f : ChannelFragmenter) :
  addFragments (frags ++ [(h, c)]) f
  = ChannelFragmenter.addFragment h c (addFragments frags f).
Proof. unfold addFragments. rewrite fold_left_app. reflexivity. Qed.

End Reassembly.

(** C2.  Starting from a fragmenter with nothing queued and an empty
    accumulation buffer, adding the fragments [0 .. n-1] of a message in
    order queues nothing before the last one ([get] returns null after
    every proper prefix), and after the last one [get] returns the
    concatenation of the payloads in arrival order, a second [get]
    returns null, and the accumulation buffer is empty again. *)
Theorem fragments_reassemble (regular : bool)
        (frags : list (DTXMessageHeader * Buffer)) (f0 : ChannelFragmenter) :
  frags <> [] ->
  fragments_in_order regular frags ->
  messages f0 = [] ->
  accumulator regular f0 = [] ->
  (forall k, (k < length frags)%nat ->
             fst (ChannelFragmenter.get (addFragments (firstn k frags) f0))
             = None) /\
  let f := addFragments frags f0 in
  fst (ChannelFragmenter.get f) = Some (concat (map snd frags)) /\
  fst (ChannelFragmenter.get (snd (ChannelFragmenter.get f))) = None /\
  accumulator regular f = [] /\
  accumulator regular (snd (ChannelFragmenter.get f)) = [].
Proof.
  intros Hne Hord Hm0 Hacc0.
  assert (Hprefix : forall k, (k < length frags)%nat ->
            messages (addFragments (firstn k frags) f0) = [] /\
            accumulator regular (addFragments (firstn k frags) f0)
            = concat (map snd (firstn k frags))).
  { intros k Hk.
    destruct (addFragments_partial regular (Z.of_nat (length frags))
                (firstn k frags) 0 f0) as (Hm & Hacc & _).
    - intros i h c Hi. apply lookup_take_Some in Hi as [Hi _].
      exact (Hord i h c Hi).
    - rewrite length_take. lia.
    - rewrite Hm, Hacc, Hm0, Hacc0. auto. }
  split.
  { intros k Hk. destruct (Hprefix k Hk) as [Hm _].
    unfold ChannelFragmenter.get. rewrite Hm. reflexivity. }
  destruct (exists_last Hne) as (init & [h c] & ->).
  destruct (Hprefix (length init)) as [Hm Hacc].
  { rewrite length_app. simpl. lia. }
  rewrite take_app_length in Hm, Hacc.
  destruct (Hord (length init) h c) as (Hid & Hcount & Hsign).
  { rewrite lookup_app_r by lia. rewrite Nat.sub_diag. reflexivity. }
  assert (Hlast : (fragmentId h =? fragmentCount h - 1) = true).
  { apply Z.eqb_eq. rewrite Hid, Hcount, length_app. simpl. lia. }
  cbv zeta. rewrite addFragments_snoc.
  rewrite map_app, concat_app. cbn [map concat snd]. rewrite app_nil_r.
  unfold ChannelFragmenter.addFragment. rewrite Hsign, Hlast.
  unfold accumulator in *.
  destruct regular; rewrite Hm, ?Hacc; cbn; auto.
Qed.

Lemma fragments_reassemble_witness :
  (forall k, (k < 3)%nat ->
     fst (ChannelFragmenter.get
            (addFragments (firstn k (sample_fragments (-4)))
                          new_ChannelFragmenter)) = None) /\
  fst (ChannelFragmenter.get
         (addFragments (sample_fragments (-4)) new_ChannelFragmenter))
  = Some (utf8_bytes "abcde") /\
  fst (ChannelFragmenter.get
         (snd (ChannelFragmenter.get
                 (addFragments (sample_fragments (-4))
                               new_ChannelFragmenter)))) = None.
Proof.
  destruct (fragments_reassemble false (sample_fragments (-4))
              new_ChannelFragmenter) as (Hbefore & Hget & Hagain & _).
  - discriminate.
  - intros i h c Hi.
    destruct i as [| [| [| i]]]; simpl in Hi; try discriminate;
      injection Hi as <- <-; repeat split; reflexivity.
  - reflexivity.
  - reflexivity.
  - split; [exact Hbefore|]. split; [exact Hget | exact Hagain].
Defined.

(** ** Selector conversion *)

Lemma replace_underscores_length (s : string) :
  String.length (replace_underscores s) = String.length s.
Proof. induction s as [| c s IH]; simpl; congruence. Qed.

Lemma convertToSelector_length (name : string) :
  String.length (convertToSelector name) = String.length name.
Proof.
  destruct name as [| c rest]; [reflexivity|]. unfold convertToSelector.
  destruct (Ascii.eqb c "_"); simpl; rewrite ?replace_underscores_length;
    reflexivity.
Qed.

(** C6, the code at the inputs of the claim: the underscore between the
    words becomes a colon and no colon is added after the last word, so
    the results are method:name and _method:name, one character shorter
    than the colon-suffixed forms; the conversion never changes the
    length of a name. *)
Theorem convertToSelector_adds_no_colon :
  convertToSelector "method_name" = "method:name"%string /\
  convertToSelector "method_name" <> "method:name:"%string /\
  convertToSelector "_method_name" = "_method:name"%string /\
  convertToSelector "_method_name" <> "_method:name:"%string /\
  convertToSelector "method_name_" = "method:name:"%string /\
  (forall name,
      String.length (convertToSelector name) = String.length name).
Proof.
  split; [reflexivity|]. split; [discriminate|].
  split; [reflexivity|]. split; [discriminate|].
  split; [reflexivity|]. exact convertToSelector_length.
Qed.

(** ** The archive decoder returns *)

(** A fuelled computation that returns a value in every state. *)
Definition returns {S A : Type} (m : SEF S A) : Prop :=
  forall s, exists a s', m s = Some (Ok a, s').

Lemma returns_ret {S A : Type} (a : A) : returns (@sef_ret S A a).
Proof. intros s. eexists _, _. reflexivity. Qed.

Lemma returns_bind {S A B : Type} (m : SEF S A) (k : A -> SEF S B) :
  returns m -> (forall a, returns (k a)) -> returns (sef_bind m k).
Proof.
  intros Hm Hk s. unfold sef_bind.
  destruct (Hm s) as (a & s' & ->). apply Hk.
Qed.

Section DecoderReturns.
Context `{JsCoercion}.
Import NSKeyedArchiverDecoder.

Lemma returns_visited_has (index : JSValue) : returns (visited_has index).
Proof. intros s. eexists _, _. reflexivity. Qed.

Lemma returns_visited_add (index : JSValue) : returns (visited_add index).
Proof. intros s. eexists _, _. reflexivity. Qed.

Lemma returns_visited_delete (index : JSValue) :
  returns (visited_delete index).
Proof. intros s. eexists _, _. reflexivity. Qed.

Lemma returns_decoded_get (index : JSValue) : returns (decoded_get index).
Proof. intros s. eexists _, _. reflexivity. Qed.

Lemma returns_decoded_set (index value : JSValue) :
  returns (decoded_set index value).
Proof. intros s. eexists _, _. reflexivity. Qed.

Lemma returns_pure {A : Type} (a : A) : returns (pure (Ok a)).
Proof. intros s. eexists _, _. reflexivity. Qed.

Lemma returns_bind_pure {A B : Type} (a : A) (k : A -> SEF DecodeState B) :
  returns (k a) -> returns (sef_bind (pure (Ok a)) k).
Proof. intros Hk s. exact (Hk s). Qed.

(** The guard in front of [in] keeps it from throwing. *)
Lemma is_uid_object_ok (ref : JSValue) :
  exists b, is_uid_object ref = Ok b /\
            (b = true -> exists v, get_property ref "CF$UID" = Ok v).
Proof.
  unfold is_uid_object.
  destruct ref; cbn;
    (eexists; split;
     [reflexivity | first [discriminate | intros _; eexists; reflexivity]]).
Qed.

Lemma object_has_property (key : string) (obj : JSValue) :
  is_type TObject obj = true -> obj <> JNull ->
  exists b, has_property key obj = Ok b.
Proof.
  destruct obj; cbn; intros Ht Hn; try discriminate; try congruence; eauto.
Qed.

Lemma object_get_property (obj : JSValue) (key : string) :
  is_type TObject obj = true -> obj <> JNull ->
  exists v, get_property obj key = Ok v.
Proof.
  destruct obj; cbn; intros Ht Hn; try discriminate; try congruence; eauto.
Qed.

Section LoopsReturn.
Variable rec : JSValue -> Z -> SEF DecodeState JSValue.
Variable depth : Z.
Hypothesis Hrec : forall index, returns (rec index (depth + 1)).

Lemma returns_decode_ref (ref : JSValue) : returns (decode_ref rec ref depth).
Proof.
  unfold decode_ref. destruct (is_type TNumber ref); [apply Hrec|].
  destruct (is_uid_object_ok ref) as (b & -> & Hget).
  apply returns_bind_pure. destruct b; [|apply returns_ret].
  destruct (Hget eq_refl) as (v & ->).
  apply returns_bind_pure, Hrec.
Qed.

Lemma returns_decode_refs (refs : list JSValue) :
  returns (decode_refs rec refs depth).
Proof.
  induction refs as [| ref refs IH]; cbn [decode_refs]; [apply returns_ret|].
  apply returns_bind; [apply returns_decode_ref | intros v].
  apply returns_bind; [exact IH | intros vs; apply returns_ret].
Qed.

Lemma returns_decodeArray (refs : JSValue) :
  returns (decodeArray rec refs depth).
Proof.
  unfold decodeArray. destruct refs; try apply returns_ret.
  apply returns_bind; [apply returns_decode_refs | intros; apply returns_ret].
Qed.

Lemma returns_decode_pairs (keyRefs : list JSValue) :
  forall valueRefs result,
    returns (decode_pairs rec keyRefs valueRefs depth result).
Proof.
  induction keyRefs as [| k ks IH]; intros [| v vs] result;
    cbn [decode_pairs]; try apply returns_ret.
  apply returns_bind; [apply Hrec | intros key].
  apply returns_bind; [apply Hrec | intros value]. apply IH.
Qed.

Lemma returns_decodeDictionary (keyRefs valueRefs : JSValue) :
  returns (decodeDictionary rec keyRefs valueRefs depth).
Proof.
  unfold decodeDictionary.
  destruct keyRefs; try apply returns_ret.
  destruct valueRefs; try apply returns_ret.
  apply returns_bind; [apply returns_decode_pairs | intros; apply returns_ret].
Qed.

Lemma returns_decode_field (objs : list JSValue) (value : JSValue) :
  returns (decode_field rec objs value depth).
Proof.
  assert (Huid : forall v,
    returns (isUid <~~ pure (is_uid_object v) ;;
             if isUid
             then
               uid <~~ pure (get_property v "CF$UID") ;;
               seen <~~ visited_has uid ;;
               if is_type TNumber uid && negb seen
               then rec uid (depth + 1)
               else sef_ret v
             else sef_ret v)).
  { intros v. destruct (is_uid_object_ok v) as (b & -> & Hget).
    apply returns_bind_pure. destruct b; [|apply returns_ret].
    destruct (Hget eq_refl) as (u & ->). apply returns_bind_pure.
    apply returns_bind; [apply returns_visited_has | intros seen].
    destruct (_ && _); [apply Hrec | apply returns_ret]. }
  destruct value; try apply Huid.
  cbn [decode_field]. destruct (_ && _); [|apply returns_ret].
  apply returns_bind; [apply returns_visited_has | intros seen].
  destruct (_ && _); [apply Hrec | apply returns_ret].
Qed.

Lemma returns_decode_fields (objs : list JSValue)
      (fields : list (string * JSValue)) :
  forall result, returns (decode_fields rec objs fields depth result).
Proof.
  induction fields as [| [key value] fields IH]; intros result;
    cbn [decode_fields]; [apply returns_ret|].
  destruct (String.eqb key "$class"); [apply IH|].
  apply returns_bind; [apply returns_decode_field | intros v; apply IH].
Qed.

End LoopsReturn.

(** With fuel for the levels that remain below the depth ceiling,
    [decodeObject] returns: it neither runs out of fuel nor throws. *)
Lemma returns_decodeObject (objs : list JSValue) (fuel : nat) :
  forall index depth,
    MAX_DECODE_DEPTH + 1 <= depth + Z.of_nat fuel ->
    returns (decodeObject fuel objs index depth).
Proof.
  induction fuel as [| fuel IH]; intros index depth Hfuel.
  - cbn [decodeObject].
    replace (MAX_DECODE_DEPTH <? depth) with true
      by (symmetry; apply Z.ltb_lt; lia).
    apply returns_ret.
  - cbn [decodeObject].
    destruct (MAX_DECODE_DEPTH <? depth); [apply returns_ret|].
    destruct (_ || _); [apply returns_ret|].
    apply returns_bind; [apply returns_visited_has | intros seen].
    destruct seen; [apply returns_ret|].
    apply returns_bind; [apply returns_decoded_get | intros cached].
    destruct cached as [v|]; [apply returns_ret|].
    apply returns_bind; [apply returns_visited_add | intros _].
    assert (Hrec : forall i, returns (decodeObject fuel objs i (depth + 1)))
      by (intros i; apply IH; lia).
    set (obj := element_at objs index).
    destruct (is_string "$null" obj || _) eqn:Hnull.
    { apply returns_bind; [apply returns_visited_delete | intros _].
      apply returns_ret. }
    destruct (negb (is_type TObject obj)) eqn:Hobj.
    { apply returns_bind; [apply returns_visited_delete | intros _].
      apply returns_ret. }
    destruct (isBuffer obj).
    { apply returns_bind; [apply returns_decoded_set | intros _].
      apply returns_bind; [apply returns_visited_delete | intros _].
      apply returns_ret. }
    assert (Hisobj : is_type TObject obj = true)
      by (destruct (is_type TObject obj); [reflexivity | discriminate]).
    assert (Hnotnull : obj <> JNull).
    { intros Heq. rewrite Heq in Hnull. cbn in Hnull. discriminate. }
    destruct (object_has_property "CF$UID" obj Hisobj Hnotnull) as (b1 & ->).
    apply returns_bind_pure. destruct b1.
    { destruct (object_get_property obj "CF$UID" Hisobj Hnotnull) as (u & ->).
      apply returns_bind_pure.
      apply returns_bind; [apply Hrec | intros result].
      apply returns_bind; [apply returns_visited_delete | intros _].
      apply returns_ret. }
    destruct (object_has_property "NS.keys" obj Hisobj Hnotnull) as (b2 & ->).
    apply returns_bind_pure.
    destruct (object_has_property "NS.objects" obj Hisobj Hnotnull)
      as (b3 & ->).
    apply returns_bind_pure.
    destruct (object_get_property obj "NS.keys" Hisobj Hnotnull) as (ks & Hks).
    destruct (object_get_property obj "NS.objects" Hisobj Hnotnull)
      as (vs & Hvs).
    destruct (b2 && b3); [|destruct b3].
    + rewrite Hks. apply returns_bind_pure.
      rewrite Hvs. apply returns_bind_pure.
      apply returns_bind; [apply returns_decodeDictionary, Hrec | intros r].
      apply returns_bind; [apply returns_decoded_set | intros _].
      apply returns_bind; [apply returns_visited_delete | intros _].
      apply returns_ret.
    + rewrite Hvs. apply returns_bind_pure.
      apply returns_bind; [apply returns_decodeArray, Hrec | intros r].
      apply returns_bind; [apply returns_decoded_set | intros _].
      apply returns_bind; [apply returns_visited_delete | intros _].
      apply returns_ret.
    + apply returns_bind; [apply returns_decode_fields, Hrec | intros r].
      apply returns_bind; [apply returns_decoded_set | intros _].
      apply returns_bind; [apply returns_visited_delete | intros _].
      apply returns_ret.
Qed.

End DecoderReturns.

(** Case analysis on the scrutinee of a [match] or [if] in the goal. *)
Ltac break_match :=
  match goal with
  | |- context [match ?x with _ => _ end] =>
      match x with
      | context [match _ with _ => _ end] => fail 1
      | _ => destruct x eqn:?
      end
  end.

Section DecodeReturns.
Context `{JsCoercion}.
Import NSKeyedArchiverDecoder.

Lemma isNSKeyedArchive_ok (data : JSValue) :
  exists b, isNSKeyedArchive data = Ok b /\
            (b = true -> exists fields, data = JObj fields).
Proof.
  unfold isNSKeyedArchive.
  destruct data; cbn; rewrite ?orb_true_r; repeat (break_match; cbn);
    (eexists; split; [reflexivity | first [discriminate | eauto]]).
Qed.

Lemma new_archive (data : JSValue) (d : Decoder) :
  new data = Ok d -> exists fields, archive d = JObj fields.
Proof.
  unfold new.
  destruct (isNSKeyedArchive_ok data) as (b & -> & Hobj). cbn [rbind].
  destruct b; cbn [negb]; [|discriminate].
  destruct (Hobj eq_refl) as (fields & ->). cbn.
  intros [= <-]. eauto.
Qed.

Lemma root_index_ok (d : Decoder) (fields : list (string * JSValue)) :
  archive d = JObj fields -> exists r, root_index d = Ok r.
Proof.
  intros Harch. unfold root_index. rewrite Harch.
  cbn [get_property rbind].
  set (top := match fields_get fields "$top" with
              | Some x => x
              | None => JUndefined
              end).
  destruct (truthy top && is_type TObject top) eqn:Htop; [|eauto].
  apply andb_true_iff in Htop as [Htruthy Hobj].
  assert (Hnn : top <> JNull) by (intros Heq; rewrite Heq in Htruthy;
                                  discriminate).
  destruct (object_has_property "root" top Hobj Hnn) as (b & ->).
  cbn [rbind]. destruct b; [|eauto].
  destruct (object_get_property top "root" Hobj Hnn) as (root & ->).
  cbn [rbind]. destruct (is_type TNumber root); [eauto|].
  destruct (is_uid_object_ok root) as (b & -> & Hget). cbn [rbind].
  destruct b; [|eauto]. destruct (Hget eq_refl) as (v & ->). eauto.
Qed.

Lemma decodeObject_top_returns (fuel : nat) (d : Decoder) (index : JSValue) :
  (1001 <= fuel)%nat ->
  exists v d', decodeObject_top fuel d index = Some (Ok v, d').
Proof.
  intros Hfuel. unfold decodeObject_top.
  destruct (returns_decodeObject (objects d) fuel index 0
              ltac:(unfold MAX_DECODE_DEPTH; lia)
              (mkDecodeState [] (decoder_cache d))) as (v & st & ->).
  eauto.
Qed.

Lemma decode_returns (fuel : nat) (data : JSValue) (d : Decoder) :
  (1001 <= fuel)%nat -> new data = Ok d ->
  exists v d', decode fuel d = Some (Ok v, d').
Proof.
  intros Hfuel Hnew. unfold decode.
  destruct (objects d); [eauto|].
  destruct (new_archive data d Hnew) as (fields & Harch).
  destruct (root_index_ok d fields Harch) as (r & ->).
  destruct r; apply decodeObject_top_returns; assumption.
Qed.

Lemma decodeNSKeyedArchiver_returns (fuel : nat) (data : JSValue) :
  (1001 <= fuel)%nat ->
  exists v, decodeNSKeyedArchiver fuel data = Some (Ok v).
Proof.
  intros Hfuel. unfold decodeNSKeyedArchiver.
  destruct (negb (truthy data)); [eauto|].
  destruct (isNSKeyedArchive_ok data) as (b & -> & _).
  destruct b; [|eauto].
  destruct (new data) as [d | e] eqn:Hnew; [|eauto].
  destruct (decode_returns fuel data d Hfuel Hnew) as (v & d' & ->).
  eauto.
Qed.







End DecodeReturns.




(** ** Receiving messages *)

Section Receive.
Context `{DvtEnv} `{JsCoercion}.

Lemma readUIntLE_throws (n : nat) (b : Buffer) (off : Z) (e : JsError) :
  readUIntLE n b off = Throw e -> e = RangeErr.
Proof.
  unfold readUIntLE. destruct (_ && _); [discriminate|].
  intros [= <-]. reflexivity.
Qed.

Lemma parseAuxiliaryValue_unknown (buffer : Buffer) (type offset : Z) :
  known_aux_type type = false ->
  parseAuxiliaryValue buffer type offset
  = Throw (Err "Unknown auxiliary type").
Proof.
  unfold known_aux_type, parseAuxiliaryValue. intros Hk.
  apply orb_false_iff in Hk as [Hk ->].
  apply orb_false_iff in Hk as [-> ->]. reflexivity.
Qed.

(** An item of unknown type ends the loop of [parseAuxiliaryStandard]
    with the values parsed so far. *)
Lemma parse_aux_items_unknown (fuel : nat) (buffer : Buffer)
      (endOffset offset : Z) (values : list JSValue) (marker type : Z) :
  offset < endOffset -> offset < blen buffer ->
  readUInt32LE buffer offset = Ok marker ->
  readUInt32LE buffer
    (if marker =? DTX_CONSTANTS.EMPTY_DICTIONARY then offset + 4 else offset)
  = Ok type ->
  known_aux_type type = false ->
  parse_aux_items (S fuel) buffer endOffset offset values = Some (Ok values).
Proof.
  intros Hend Hlen Hmarker Htype Hunknown. cbn [parse_aux_items].
  replace (offset <? endOffset) with true by (symmetry; apply Z.ltb_lt; lia).
  replace (offset <? blen buffer) with true
    by (symmetry; apply Z.ltb_lt; lia).
  cbn [andb]. rewrite Hmarker. cbv zeta. rewrite Htype.
  rewrite parseAuxiliaryValue_unknown by assumption. reflexivity.
Qed.

(** When the items before an item of unknown type parse, the loop
    returns exactly their values. *)
Lemma parse_aux_items_before_unknown (buffer : Buffer) (endOffset : Z)
      (start stop : Z) (values : list JSValue) (marker type : Z) :
  parsed_items buffer endOffset start values stop ->
  stop < endOffset -> stop < blen buffer ->
  readUInt32LE buffer stop = Ok marker ->
  readUInt32LE buffer
    (if marker =? DTX_CONSTANTS.EMPTY_DICTIONARY then stop + 4 else stop)
  = Ok type ->
  known_aux_type type = false ->
  forall fuel acc,
    (length values < fuel)%nat ->
    parse_aux_items fuel buffer endOffset start acc
    = Some (Ok (acc ++ values)).
Proof.
  intros Hitems Hend Hlen Hmarker Htype Hunknown.
  induction Hitems as [offset
                      | offset m t newOffset stop data values
                               Ho1 Ho2 Hm Ht Hvalue _ IH];
    intros [| fuel] acc Hfuel; try (cbn [length] in Hfuel; lia).
  - rewrite app_nil_r.
    apply (parse_aux_items_unknown fuel buffer endOffset offset acc
                                   marker type); assumption.
  - cbn [parse_aux_items].
    replace (offset <? endOffset) with true
      by (symmetry; apply Z.ltb_lt; lia).
    replace (offset <? blen buffer) with true
      by (symmetry; apply Z.ltb_lt; lia).
    cbn [andb]. rewrite Hm. cbv zeta. rewrite Ht, Hvalue.
    rewrite (IH Hend Hlen Hmarker Htype fuel (acc ++ [data]))
      by (cbn [length] in Hfuel; lia).
    rewrite <- app_assoc. reflexivity.
Qed.

(** The only error that leaves the loop is the range error of a read of
    a marker or of a type. *)
Lemma parse_aux_items_throws (fuel : nat) (buffer : Buffer) (endOffset : Z) :
  forall offset values e,
    parse_aux_items fuel buffer endOffset offset values = Some (Throw e) ->
    e = RangeErr.
Proof.
  induction fuel as [| fuel IH]; intros offset values e; cbn [parse_aux_items];
    destruct (_ && _); try discriminate.
  destruct (readUInt32LE buffer offset) as [marker | e1] eqn:Hmarker.
  - cbv zeta.
    match goal with
    | |- context [match readUInt32LE buffer ?o with _ => _ end] =>
        destruct (readUInt32LE buffer o) as [type | e2] eqn:Htype
    end.
    + match goal with
      | |- context [parseAuxiliaryValue buffer type ?o] =>
          destruct (parseAuxiliaryValue buffer type o)
            as [[data newOffset] | e3]
      end; [apply IH | discriminate].
    + intros [= <-]. exact (readUIntLE_throws _ _ _ _ Htype).
  - intros [= <-]. exact (readUIntLE_throws _ _ _ _ Hmarker).
Qed.

Lemma parseAuxiliaryData_throws (fuel : nat) (buffer : Buffer) (e : JsError) :
  parseAuxiliaryData fuel buffer = Some (Throw e) -> e = RangeErr.
Proof.
  unfold parseAuxiliaryData, parseAuxiliaryStandard.
  destruct (blen buffer <? 16); [discriminate|].
  destruct (readBigUInt64LE buffer 0) as [magic | e1] eqn:Hmagic.
  - destruct (negb _); [discriminate|].
    destruct (readBigUInt64LE buffer 8) as [size | e2] eqn:Hsize.
    + apply parse_aux_items_throws.
    + intros [= <-]. exact (readUIntLE_throws _ _ _ _ Hsize).
  - intros [= <-]. exact (readUIntLE_throws _ _ _ _ Hmagic).
Qed.

Lemma parsePayloadHeader_throws (packetData : Buffer) (e : JsError) :
  DTXMessage.parsePayloadHeader packetData = Throw e ->
  e = Err "Buffer too small for DTX payload header" \/ e = RangeErr.
Proof.
  unfold DTXMessage.parsePayloadHeader.
  destruct (blen packetData <? _); [intros [= <-]; auto|].
  unfold readUInt32LE, readBigUInt64LE.
  repeat match goal with
         | |- context [readUIntLE ?n ?b ?o] =>
             let E := fresh "E" in
             destruct (readUIntLE n b o) eqn:E; cbn [rbind];
             [|intros [= <-]; right; exact (readUIntLE_throws _ _ _ _ E)]
         end.
  discriminate.
Qed.

Lemma decode_packet_compressed (fuel : nat) (packetData : Buffer)
      (h : DTXMessagePayloadHeader) :
  DTXMessage.parsePayloadHeader packetData = Ok h ->
  Z.shiftr (Z.land (flags h) 0xff000) 12 <> 0 ->
  decode_packet fuel packetData
  = Some (Throw (Err "Compressed messages not supported")).
Proof.
  intros Hh Hc. unfold decode_packet. rewrite Hh.
  apply Z.eqb_neq in Hc. rewrite Hc. reflexivity.
Qed.

Lemma decode_packet_throws (fuel : nat) (packetData : Buffer) (e : JsError) :
  decode_packet fuel packetData = Some (Throw e) ->
  e = Err "Buffer too small for DTX payload header" \/
  e = Err "Compressed messages not supported" \/
  e = RangeErr.
Proof.
  unfold decode_packet.
  destruct (DTXMessage.parsePayloadHeader packetData) as [h | e1] eqn:Hh.
  - destruct (negb _); [intros [= <-]; auto|].
    destruct (0 <? auxiliaryLength h).
    + destruct (parseAuxiliaryData fuel _) as [[aux | e2]|] eqn:Haux;
        try discriminate.
      intros [= <-]. right. right.
      exact (parseAuxiliaryData_throws _ _ _ Haux).
    + discriminate.
  - intros [= <-].
    destruct (parsePayloadHeader_throws _ _ Hh) as [-> | ->]; auto.
Qed.

(** A packet whose auxiliary section holds an item of unknown type:
    the values of the items before it are returned, with the object
    data. *)
Lemma decode_packet_unknown_aux (fuel : nat) (packetData : Buffer)
      (h : DTXMessagePayloadHeader) (totalSize stop : Z)
      (values : list JSValue) (marker type : Z) :
  DTXMessage.parsePayloadHeader packetData = Ok h ->
  Z.shiftr (Z.land (flags h) 0xff000) 12 = 0 ->
  0 < auxiliaryLength h ->
  let aux := subarray packetData DTX_CONSTANTS.PAYLOAD_HEADER_SIZE
                      (DTX_CONSTANTS.PAYLOAD_HEADER_SIZE
                       + auxiliaryLength h) in
  16 <= blen aux ->
  readBigUInt64LE aux 0 = Ok DTX_CONSTANTS.MESSAGE_AUX_MAGIC ->
  readBigUInt64LE aux 8 = Ok totalSize ->
  parsed_items aux (16 + totalSize) 16 values stop ->
  stop < 16 + totalSize -> stop < blen aux ->
  readUInt32LE aux stop = Ok marker ->
  readUInt32LE aux
    (if marker =? DTX_CONSTANTS.EMPTY_DICTIONARY then stop + 4 else stop)
  = Ok type ->
  known_aux_type type = false ->
  (length values < fuel)%nat ->
  decode_packet fuel packetData
  = Some (Ok (if 0 <? totalLength h - auxiliaryLength h
              then Some (subarray packetData
                           (DTX_CONSTANTS.PAYLOAD_HEADER_SIZE
                            + auxiliaryLength h)
                           (DTX_CONSTANTS.PAYLOAD_HEADER_SIZE
                            + auxiliaryLength h
                            + (totalLength h - auxiliaryLength h)))
              else None,
              values)).
Proof.
  intros Hh Hc Haux aux Hlen Hmagic Hsize Hitems Hend Hstop Hmarker Htype
         Hunknown Hfuel.
  unfold decode_packet. rewrite Hh, Hc. cbn [Z.eqb negb].
  replace (0 <? auxiliaryLength h) with true
    by (symmetry; apply Z.ltb_lt; exact Haux).
  fold aux. unfold parseAuxiliaryData, parseAuxiliaryStandard.
  replace (blen aux <? 16) with false by (symmetry; apply Z.ltb_ge; lia).
  rewrite Hmagic, Z.eqb_refl. cbn [negb]. rewrite Hsize.
  rewrite (parse_aux_items_before_unknown aux (16 + totalSize) 16 stop
             values marker type Hitems Hend Hstop Hmarker Htype Hunknown
             fuel [] Hfuel).
  reflexivity.
Qed.

Lemma recvMessage_decodes (fuel : nat) (channel : Z) (svc svc' : DVTService)
      (packetData : Buffer) :
  recvPacketFragments fuel channel svc = Some (Ok packetData, svc') ->
  recvMessage fuel channel svc
  = match decode_packet fuel packetData with
    | Some r => Some (r, svc')
    | None => None
    end.
Proof.
  intros Hrecv. unfold recvMessage, sef_bind, sef_of. rewrite Hrecv.
  reflexivity.
Qed.

Lemma readUIntLE_nonneg (n : nat) (b : Buffer) (off v : Z) :
  readUIntLE n b off = Ok v -> 0 <= v.
Proof.
  unfold readUIntLE. destruct (_ && _); [|discriminate].
  intros [= <-]. apply le_combine_bound.
Qed.

Lemma parseAuxiliaryValue_advances (buffer : Buffer) (type offset : Z)
      (data : JSValue) (newOffset : Z) :
  parseAuxiliaryValue buffer type offset = Ok (data, newOffset) ->
  offset + 4 <= newOffset.
Proof.
  unfold parseAuxiliaryValue, readUInt32LE, readBigUInt64LE.
  destruct (type =? _).
  { destruct (readUIntLE 4 buffer offset); [|discriminate].
    intros [= _ <-]. lia. }
  destruct (type =? _).
  { destruct (readUIntLE 8 buffer offset); [|discriminate].
    intros [= _ <-]. lia. }
  destruct (type =? _); [|discriminate].
  destruct (readUIntLE 4 buffer offset) as [len|] eqn:Hlen; [|discriminate].
  apply readUIntLE_nonneg in Hlen. cbn [rbind]. intros [= _ <-]. lia.
Qed.

(** The loop ends within as many iterations as the buffer has bytes. *)
Lemma parse_aux_items_returns (buffer : Buffer) (endOffset : Z) (fuel : nat) :
  forall offset values,
    blen buffer - offset < Z.of_nat fuel ->
    exists r, parse_aux_items fuel buffer endOffset offset values = Some r.
Proof.
  induction fuel as [| fuel IH]; intros offset values Hfuel;
    cbn [parse_aux_items].
  - replace (offset <? blen buffer) with false
      by (symmetry; apply Z.ltb_ge; lia).
    rewrite andb_false_r. eauto.
  - destruct (_ && _); [|eauto].
    destruct (readUInt32LE buffer offset) as [marker | e1]; [|eauto].
    cbv zeta.
    set (o := if marker =? DTX_CONSTANTS.EMPTY_DICTIONARY
              then offset + 4 else offset).
    assert (Ho : offset <= o) by (unfold o; destruct (marker =? _); lia).
    clearbody o.
    destruct (readUInt32LE buffer o) as [type | e2]; [|eauto].
    destruct (parseAuxiliaryValue buffer type (o + 4))
      as [[data newOffset] | e3] eqn:Hvalue; [|eauto].
    apply parseAuxiliaryValue_advances in Hvalue.
    apply IH. lia.
Qed.

Lemma length_subarray (b : Buffer) (s e : Z) :
  blen (subarray b s e) <= blen b.
Proof.
  unfold subarray, blen. rewrite length_take, length_drop. lia.
Qed.

Lemma decode_packet_returns (fuel : nat) (packetData : Buffer) :
  blen packetData < Z.of_nat fuel ->
  exists r, decode_packet fuel packetData = Some r.
Proof.
  intros Hfuel. unfold decode_packet.
  destruct (DTXMessage.parsePayloadHeader packetData) as [h | e]; [|eauto].
  destruct (negb _); [eauto|].
  destruct (0 <? auxiliaryLength h); [|eauto].
  set (aux := subarray packetData _ _).
  assert (Haux : exists r, parseAuxiliaryData fuel aux = Some r).
  { unfold parseAuxiliaryData, parseAuxiliaryStandard.
    destruct (blen aux <? 16); [eauto|].
    destruct (readBigUInt64LE aux 0); [|eauto].
    destruct (negb _); [eauto|].
    destruct (readBigUInt64LE aux 8); [|eauto].
    apply parse_aux_items_returns.
    pose proof (length_subarray packetData DTX_CONSTANTS.PAYLOAD_HEADER_SIZE
                  (DTX_CONSTANTS.PAYLOAD_HEADER_SIZE + auxiliaryLength h)).
    fold aux in H1. lia. }
  destruct Haux as ([auxValues | e] & ->); eauto.
Qed.

End Receive.

(** C4, as the code has it.  When the compression bits of the payload
    flags are set, [recvMessage] throws.  An auxiliary item of unknown
    type does not make it throw: the error is caught inside
    [parseAuxiliaryStandard], which stops there and returns the values
    parsed before the item.  Whatever the packet, [recvMessage] returns
    or throws (with fuel for its length), and what it throws is the
    error of a short payload header, the compression error, or the range
    error of a read outside the buffer.  For a packet without
    compression whose auxiliary section, after its magic and size, holds
    items that parse to the values [before] and then an item of unknown
    type, [recvMessage] returns: it delivers the object data of the
    packet (null when the header announces none) together with exactly
    the values [before]. *)
Theorem recvMessage_errors `{DvtEnv} (fuel : nat) (channel : Z)
        (svc svc' : DVTService) (packetData : Buffer)
        (h : DTXMessagePayloadHeader)
        (buffer : Buffer) (endOffset offset : Z) (values : list JSValue)
        (marker type : Z)
        (totalSize stop : Z) (before : list JSValue) :
  (recvPacketFragments fuel channel svc = Some (Ok packetData, svc') ->
   DTXMessage.parsePayloadHeader packetData = Ok h ->
   Z.shiftr (Z.land (flags h) 0xff000) 12 <> 0 ->
   recvMessage fuel channel svc
   = Some (Throw (Err "Compressed messages not supported"), svc')) /\
  (offset < endOffset -> offset < blen buffer ->
   readUInt32LE buffer offset = Ok marker ->
   readUInt32LE buffer
     (if marker =? DTX_CONSTANTS.EMPTY_DICTIONARY then offset + 4 else offset)
   = Ok type ->
   known_aux_type type = false ->
   parse_aux_items (S fuel) buffer endOffset offset values
   = Some (Ok values)) /\
  (recvPacketFragments fuel channel svc = Some (Ok packetData, svc') ->
   blen packetData < Z.of_nat fuel ->
   exists r,
     recvMessage fuel channel svc = Some (r, svc') /\
     forall e, r = Throw e ->
               e = Err "Buffer too small for DTX payload header" \/
               e = Err "Compressed messages not supported" \/
               e = RangeErr) /\
  (recvPacketFragments fuel channel svc = Some (Ok packetData, svc') ->
   DTXMessage.parsePayloadHeader packetData = Ok h ->
   Z.shiftr (Z.land (flags h) 0xff000) 12 = 0 ->
   0 < auxiliaryLength h ->
   let aux := subarray packetData DTX_CONSTANTS.PAYLOAD_HEADER_SIZE
                       (DTX_CONSTANTS.PAYLOAD_HEADER_SIZE
                        + auxiliaryLength h) in
   16 <= blen aux ->
   readBigUInt64LE aux 0 = Ok DTX_CONSTANTS.MESSAGE_AUX_MAGIC ->
   readBigUInt64LE aux 8 = Ok totalSize ->
   parsed_items aux (16 + totalSize) 16 before stop ->
   stop < 16 + totalSize -> stop < blen aux ->
   readUInt32LE aux stop = Ok marker ->
   readUInt32LE aux
     (if marker =? DTX_CONSTANTS.EMPTY_DICTIONARY then stop + 4 else stop)
   = Ok type ->
   known_aux_type type = false ->
   (length before < fuel)%nat ->
   recvMessage fuel channel svc
   = Some (Ok (if 0 <? totalLength h - auxiliaryLength h
               then Some (subarray packetData
                            (DTX_CONSTANTS.PAYLOAD_HEADER_SIZE
                             + auxiliaryLength h)
                            (DTX_CONSTANTS.PAYLOAD_HEADER_SIZE
                             + auxiliaryLength h
                             + (totalLength h - auxiliaryLength h)))
               else None,
               before),
           svc')).
Proof.
  split.
  { intros Hrecv Hh Hc. rewrite (recvMessage_decodes _ _ _ _ _ Hrecv).
    rewrite (decode_packet_compressed _ _ _ Hh Hc). reflexivity. }
  split; [apply parse_aux_items_unknown|].
  split.
  { intros Hrecv Hfuel. rewrite (recvMessage_decodes _ _ _ _ _ Hrecv).
    destruct (decode_packet_returns fuel packetData Hfuel) as (r & Hr).
    rewrite Hr. exists r. split; [reflexivity|].
    intros e ->. exact (decode_packet_throws _ _ _ Hr). }
  intros Hrecv Hh Hc Haux aux Hlen Hmagic Hsize Hitems Hend Hstop Hmarker
         Htype Hunknown Hfuel.
  rewrite (recvMessage_decodes _ _ _ _ _ Hrecv).
  rewrite (decode_packet_unknown_aux fuel packetData h totalSize stop before
             marker type Hh Hc Haux Hlen Hmagic Hsize Hitems Hend Hstop
             Hmarker Htype Hunknown Hfuel).
  reflexivity.
Qed.

(** C4, counterexample to the claim as stated: the auxiliary section of
    the message holds the integer 7, an item of the unknown type 99 and
    the integer 9.  [recvMessage] does not throw: it delivers the
    auxiliary values parsed before the unknown item. *)
Lemma recvMessage_delivers_after_unknown_aux :
  option_map fst (recvMessage (H := toy_plist_env) 200 0 service_unknown_aux)
  = Some (Ok (None, [JNum 7])).
Proof. vm_compute. reflexivity. Qed.

Lemma sef_run_ok {S A : Type} (m : SEF S A) (s : S) (a : A) :
  option_map fst (m s) = Some (Ok a) -> exists s', m s = Some (Ok a, s').
Proof.
  destruct (m s) as [[r s']|]; [|discriminate].
  simpl. intros [= ->]. eauto.
Qed.

Lemma recvMessage_errors_witness :
  (exists svc',
      recvMessage (H := toy_plist_env) 200 0 service_compressed
      = Some (Throw (Err "Compressed messages not supported"), svc')) /\
  parse_aux_items (H := toy_plist_env) 200 sample_aux_section 52 28 [JNum 7]
  = Some (Ok [JNum 7]) /\
  (exists r svc',
      recvMessage (H := toy_plist_env) 200 0 service_unknown_aux
      = Some (r, svc') /\
      forall e, r = Throw e ->
                e = Err "Buffer too small for DTX payload header" \/
                e = Err "Compressed messages not supported" \/
                e = RangeErr) /\
  (exists svc',
      recvMessage (H := toy_plist_env) 200 0 service_unknown_aux_data
      = Some (Ok (Some (utf8_bytes "data"), [JNum 7]), svc')).
Proof.
  destruct (sef_run_ok (recvPacketFragments 200 0) service_compressed
              payload_compressed) as (svc1 & Hrecv1);
    [vm_compute; reflexivity|].
  destruct (sef_run_ok (recvPacketFragments 200 0) service_unknown_aux
              payload_unknown_aux) as (svc2 & Hrecv2);
    [vm_compute; reflexivity|].
  destruct (sef_run_ok (recvPacketFragments 200 0) service_unknown_aux_data
              payload_unknown_aux_data) as (svc3 & Hrecv3);
    [vm_compute; reflexivity|].
  destruct (recvMessage_errors (H := toy_plist_env) 200 0
              service_compressed svc1 payload_compressed
              (mkDTXMessagePayloadHeader (2 + 0x3000) 0 12)
              sample_aux_section 52 28 [JNum 7] 10 99 36 28 [JNum 7])
    as (Hcompressed & _ & _ & _).
  destruct (recvMessage_errors (H := toy_plist_env) 199 0
              service_unknown_aux svc2 payload_unknown_aux
              (mkDTXMessagePayloadHeader 2 52 52)
              sample_aux_section 52 28 [JNum 7] 10 99 36 28 [JNum 7])
    as (_ & Hunknown & _ & _).
  destruct (recvMessage_errors (H := toy_plist_env) 200 0
              service_unknown_aux svc2 payload_unknown_aux
              (mkDTXMessagePayloadHeader 2 52 52)
              sample_aux_section 52 28 [JNum 7] 10 99 36 28 [JNum 7])
    as (_ & _ & Hreturns & _).
  destruct (recvMessage_errors (H := toy_plist_env) 200 0
              service_unknown_aux_data svc3 payload_unknown_aux_data
              (mkDTXMessagePayloadHeader 2 52 56)
              sample_aux_section 52 28 [JNum 7] 10 99 36 28 [JNum 7])
    as (_ & _ & _ & Hdelivers).
  split.
  { exists svc1. apply Hcompressed;
      [exact Hrecv1 | vm_compute; reflexivity | vm_compute; discriminate]. }
  split.
  { apply Hunknown; vm_compute; reflexivity. }
  split.
  { destruct Hreturns as (r & Hr & Herr);
      [exact Hrecv2 | vm_compute; reflexivity|].
    exists r, svc2. split; [exact Hr | exact Herr]. }
  exists svc3. rewrite Hdelivers.
  - vm_compute. reflexivity.
  - exact Hrecv3.
  - vm_compute. reflexivity.
  - vm_compute. reflexivity.
  - vm_compute. reflexivity.
  - vm_compute. discriminate.
  - vm_compute. reflexivity.
  - vm_compute. reflexivity.
  - apply (parsed_item _ _ 16 10 3 28 28 (JNum 7) []);
      try (vm_compute; reflexivity).
    apply parsed_none.
  - vm_compute. reflexivity.
  - vm_compute. reflexivity.
  - vm_compute. reflexivity.
  - vm_compute. reflexivity.
  - vm_compute. reflexivity.
  - cbn [length]. lia.
Defined.

(** ** Channels *)

Section Channels.
Context `{DvtEnv} `{JsCoercion}.

Definition keeps_frame {A : Type} (m : SEF DVTService A) : Prop :=
  forall svc r svc', m svc = Some (r, svc') -> framed svc svc'.

Lemma framed_refl (svc : DVTService) : framed svc svc.
Proof. repeat split. Qed.

Lemma framed_trans (a b c : DVTService) :
  framed a b -> framed b c -> framed a c.
Proof.
  intros (H1 & H2 & H3 & H4 & H5) (G1 & G2 & G3 & G4 & G5).
  repeat split; congruence.
Qed.

Lemma keeps_frame_ret {A : Type} (a : A) :
  keeps_frame (@sef_ret DVTService A a).
Proof. intros svc r svc' [= <- <-]. apply framed_refl. Qed.

Lemma keeps_frame_throw {A : Type} (e : JsError) :
  keeps_frame (@sef_throw DVTService A e).
Proof. intros svc r svc' [= <- <-]. apply framed_refl. Qed.

Lemma keeps_frame_of {A : Type} (o : option (result A)) :
  keeps_frame (@sef_of DVTService A o).
Proof.
  intros svc r svc'. unfold sef_of. destruct o; [|discriminate].
  intros [= <- <-]. apply framed_refl.
Qed.

Lemma keeps_frame_bind {A B : Type} (m : SEF DVTService A)
      (k : A -> SEF DVTService B) :
  keeps_frame m -> (forall a, keeps_frame (k a)) ->
  keeps_frame (sef_bind m k).
Proof.
  intros Hm Hk svc r svc'. unfold sef_bind.
  destruct (m svc) as [[[a | e] svc1]|] eqn:Hrun; [| |discriminate].
  - intros Hk1. eapply framed_trans; [exact (Hm _ _ _ Hrun)|].
    exact (Hk a _ _ _ Hk1).
  - intros [= <- <-]. exact (Hm _ _ _ Hrun).
Qed.

Lemma keeps_frame_get_service : keeps_frame get_service.
Proof. intros svc r svc' [= <- <-]. apply framed_refl. Qed.

Lemma keeps_frame_set_channelMessages (m : gmap Z ChannelFragmenter) :
  keeps_frame (set_channelMessages m).
Proof. intros svc r svc' [= <- <-]. repeat split. Qed.

Lemma keeps_frame_set_curMessageId (id : Z) :
  keeps_frame (set_curMessageId id).
Proof. intros svc r svc' [= <- <-]. repeat split. Qed.

Lemma keeps_frame_readExact (length : Z) : keeps_frame (dvt_readExact length).
Proof.
  intros svc r svc'. unfold dvt_readExact.
  destruct (dvt_socket svc) as [s|] eqn:Hs.
  - destruct (dvt_await length (readBuffer svc) (sock_events s))
      as [[[[e|] buffer] events']|]; [| |discriminate];
      intros [= <- <-]; repeat split; cbn; rewrite Hs; reflexivity.
  - intros [= <- <-]. apply framed_refl.
Qed.

Lemma keeps_frame_recvPacketFragments (fuel : nat) (channel : Z) :
  keeps_frame (recvPacketFragments fuel channel).
Proof.
  induction fuel as [| fuel IH]; cbn [recvPacketFragments].
  - intros svc r svc' [=].
  - apply keeps_frame_bind; [apply keeps_frame_get_service | intros svc0].
    destruct (channelMessages svc0 !! channel) as [fragmenter|];
      [|apply keeps_frame_throw].
    destruct (ChannelFragmenter.get fragmenter) as [[message|] fragmenter'].
    + apply keeps_frame_bind;
        [apply keeps_frame_set_channelMessages | intros _].
      apply keeps_frame_ret.
    + apply keeps_frame_bind; [apply keeps_frame_readExact | intros hd].
      apply keeps_frame_bind; [apply keeps_frame_of | intros header].
      apply keeps_frame_bind; [apply keeps_frame_get_service | intros svc1].
      apply keeps_frame_bind.
      { destruct (channelMessages svc1 !! _);
          [apply keeps_frame_ret | apply keeps_frame_set_channelMessages]. }
      intros _. apply keeps_frame_bind.
      { destruct (_ && _);
          [apply keeps_frame_set_curMessageId | apply keeps_frame_ret]. }
      intros _. destruct (_ && _); [exact IH|].
      apply keeps_frame_bind; [apply keeps_frame_readExact | intros md].
      apply keeps_frame_bind; [apply keeps_frame_get_service | intros svc2].
      apply keeps_frame_bind; [|intros _; exact IH].
      destruct (channelMessages svc2 !! _);
        [apply keeps_frame_set_channelMessages | apply keeps_frame_throw].
Qed.

Lemma keeps_frame_recvMessage (fuel : nat) (channel : Z) :
  keeps_frame (recvMessage fuel channel).
Proof.
  unfold recvMessage. apply keeps_frame_bind;
    [apply keeps_frame_recvPacketFragments | intros; apply keeps_frame_of].
Qed.

Lemma keeps_frame_recvPlist (fuel : nat) (channel : Z) :
  keeps_frame (recvPlist fuel channel).
Proof.
  unfold recvPlist. apply keeps_frame_bind;
    [apply keeps_frame_recvMessage | intros [data aux]].
  destruct data as [[| b bs]|]; try apply keeps_frame_ret.
  destruct (parseBinaryPlist (b :: bs)); [|apply keeps_frame_ret].
  destruct (decodeNSKeyedArchiver fuel a) as [[v | e]|];
    try apply keeps_frame_ret.
  intros svc r svc' [=].
Qed.

(** [sendMessage] advances the message identifier and, when it returns,
    has written one message to the socket. *)
Lemma sendMessage_spec (channel : Z) (selector : option string)
      (args : option (list MessageAuxValue)) (expectsReply : bool)
      (svc svc' : DVTService) (r : result unit) :
  sendMessage channel selector args expectsReply svc = (r, svc') ->
  isHandshakeComplete svc' = isHandshakeComplete svc /\
  channelCache svc' = channelCache svc /\
  lastChannelCode svc' = lastChannelCode svc /\
  next_ref svc' = next_ref svc /\
  (r = Ok tt ->
   exists s s' message,
     dvt_socket svc = Some s /\
     encode_message (curMessageId svc + 1) channel selector args expectsReply
     = Ok message /\
     dvt_socket svc' = Some s' /\
     sock_written s' = sock_written s ++ [message]).
Proof.
  unfold sendMessage. destruct (dvt_socket svc) as [s|] eqn:Hs.
  - destruct (encode_message _ _ _ _ _) as [message | e] eqn:Henc.
    + unfold socket_write.
      destruct (sock_write_error s) eqn:Hw; intros [= <- <-];
        (repeat split; try reflexivity); [discriminate|].
      intros _. do 3 eexists. repeat split; reflexivity.
    + intros [= <- <-]. repeat split; try reflexivity. discriminate.
  - intros [= <- <-]. repeat split; try reflexivity. discriminate.
Qed.

End Channels.

(** C9: [makeChannel] is idempotent per identifier, and allocates the next
    channel code before the request is sent.  (a) After a call that
    returned a channel, every further call with the same identifier, with
    whatever fuel, returns that same channel object and leaves the whole
    service as it was: nothing more is written to the socket and no
    message identifier is used.  (b) On a cache miss of a service whose
    handshake is complete, every run that ends, with a channel or with an
    error, leaves [lastChannelCode] one higher than before; when it
    returns a channel, the channel carries that code and a fresh object
    reference, it is cached under the identifier with a new fragmenter
    registered for its code, and the one message written to the socket is
    the channel request whose arguments carry the new code. *)
Theorem makeChannel_idempotent_sequential `{DvtEnv} `{JsCoercion}
        (fuel fuel' : nat) (identifier : string)
        (svc svc' : DVTService) (r : result Channel) :
  makeChannel fuel identifier svc = Some (r, svc') ->
  (forall channel, r = Ok channel ->
     makeChannel fuel' identifier svc' = Some (Ok channel, svc')) /\
  (isHandshakeComplete svc = true ->
   channelCache svc !! identifier = None ->
   let channelCode := lastChannelCode svc + 1 in
   lastChannelCode svc' = channelCode /\
   (forall channel, r = Ok channel ->
      channel_code channel = channelCode /\
      channel_ref channel = next_ref svc /\
      next_ref svc' = S (next_ref svc) /\
      channelCache svc' = <[identifier := channel]> (channelCache svc) /\
      channelMessages svc' !! channelCode = Some new_ChannelFragmenter /\
      exists s s' message,
        dvt_socket svc = Some s /\
        encode_message (curMessageId svc + 1) 0
          (Some "_requestChannelWithCode:identifier:"%string)
          (Some (channel_request_args channelCode identifier)) true
        = Ok message /\
        dvt_socket svc' = Some s' /\
        sock_written s' = sock_written s ++ [message])).
Proof.
  unfold makeChannel.
  destruct (isHandshakeComplete svc) eqn:Hhs; cbn [negb].
  2:{ intros [= <- <-]. split; [discriminate | discriminate]. }
  destruct (channelCache svc !! identifier) as [cached|] eqn:Hc.
  { intros [= <- <-]. split; [|discriminate].
    intros channel [= <-]. rewrite Hhs, Hc. reflexivity. }
  set (svc1 := mkDVTService _ _ _ _ _ _ _ _).
  unfold sef_bind at 1. unfold sef_lift.
  destruct (sendMessage _ _ _ _ svc1) as [rs svc2] eqn:Hsend.
  destruct (sendMessage_spec _ _ _ _ _ _ _ Hsend)
    as (S1 & S2 & S3 & S4 & S5).
  destruct rs as [[] | e].
  2:{ intros [= <- <-]. split; [discriminate|]. intros _ _.
      split; [exact S3 | discriminate]. }
  unfold sef_bind at 1.
  destruct (recvPlist fuel BROADCAST_CHANNEL svc2) as [[rr svc3]|] eqn:Hrecv;
    [|discriminate].
  destruct (keeps_frame_recvPlist _ _ _ _ _ Hrecv)
    as (R1 & R2 & R3 & R4 & R5).
  destruct rr as [res | e].
  2:{ intros [= <- <-]. split; [discriminate|]. intros _ _.
      split; [rewrite R3; exact S3 | discriminate]. }
  unfold sef_bind, sef_of.
  destruct (checkForNSError (fst res)) as [[] | e].
  2:{ intros [= <- <-]. split; [discriminate|]. intros _ _.
      split; [rewrite R3; exact S3 | discriminate]. }
  intros [= <- <-]. split.
  - intros channel [= <-]. cbn.
    rewrite R1, S1. cbn. rewrite lookup_insert_eq. reflexivity.
  - intros _ _. cbn. split; [rewrite R3; exact S3|].
    intros channel [= <-]. cbn.
    rewrite R4, S4, R2, S2. cbn.
    repeat split; [apply lookup_insert_eq|].
    destruct (S5 eq_refl) as (s & s2 & message & Hs & Henc & Hs2 & Hw).
    rewrite Hs2 in R5. destruct (dvt_socket svc3) as [s3|]; [|discriminate].
    injection R5 as R5.
    exists s, s3, message. repeat split; try assumption.
    congruence.
Qed.

Lemma makeChannel_idempotent_sequential_witness :
  exists svc',
    makeChannel (H := toy_plist_env) (H0 := plain_coercion) 1001
      sample_identifier service_for_channels
    = Some (Ok (mkChannel 0 1), svc') /\
    makeChannel (H := toy_plist_env) (H0 := plain_coercion) 0
      sample_identifier svc'
    = Some (Ok (mkChannel 0 1), svc') /\
    lastChannelCode svc' = lastChannelCode service_for_channels + 1 /\
    channelCache svc' !! sample_identifier = Some (mkChannel 0 1).
Proof.
  destruct (sef_run_ok
              (makeChannel (H := toy_plist_env) (H0 := plain_coercion) 1001
                 sample_identifier)
              service_for_channels (mkChannel 0 1)) as (svc' & Hrun);
    [vm_compute; reflexivity|].
  destruct (makeChannel_idempotent_sequential
              (H := toy_plist_env) (H0 := plain_coercion) 1001 0
              sample_identifier service_for_channels svc'
              (Ok (mkChannel 0 1)) Hrun) as (Hagain & Hmiss).
  destruct Hmiss as (Hcode & Hchannel);
    [vm_compute; reflexivity | vm_compute; reflexivity |].
  destruct (Hchannel (mkChannel 0 1) eq_refl) as (_ & _ & _ & Hcache & _).
  exists svc'. split; [exact Hrun|].
  split; [exact (Hagain (mkChannel 0 1) eq_refl)|].
  split; [exact Hcode|].
  rewrite Hcache. apply lookup_insert_eq.
Defined.


(** * Further properties of the code *)

(** ** The file-conduit codec *)

Lemma subarray_app_prefix (a b : Buffer) :
  subarray (a ++ b) 0 (blen a) = a.
Proof.
  unfold subarray, rel_index, blen. rewrite length_app.
  change (0 <? 0) with false. cbn match.
  destruct (Z.ltb_spec (Z.of_nat (length a)) 0) as [Hneg | _]; [lia|].
  rewrite Z.min_l by lia. rewrite Z.min_l by lia.
  rewrite Z.sub_0_r, Nat2Z.id. change (Z.to_nat 0) with 0%nat.
  rewrite drop_0. apply take_app_length.
Qed.

Lemma subarray_from_app (a b : Buffer) :
  subarray_from (a ++ b) (blen a) = b.
Proof.
  unfold subarray_from, rel_index, blen. rewrite length_app.
  destruct (Z.ltb_spec (Z.of_nat (length a)) 0) as [Hneg | _]; [lia|].
  rewrite Z.min_l by lia. rewrite Nat2Z.id.
  apply drop_app_length.
Qed.

Lemma readExact_buffered (n : Z) (s : Socket) (out rest : Buffer) :
  blen out = n -> sock_buffer s = out ++ rest ->
  readExact n s
  = (Ok out, sock_with_input s rest (sock_events s) (sock_destroyed s)).
Proof.
  intros Hn Hbuf. unfold readExact. rewrite Hbuf.
  assert (Hle : (n <=? blen (out ++ rest)) = true).
  { apply Z.leb_le. unfold blen in *. rewrite length_app. lia. }
  rewrite Hle. subst n.
  rewrite subarray_app_prefix, subarray_from_app. reflexivity.
Qed.

Lemma readAfcHeader_encoded (op packetNum payloadLen : Z) (ovr : option Z)
      (hdr rest : Buffer) (s : Socket) :
  encodeHeader op packetNum payloadLen ovr = Ok hdr ->
  sock_buffer s = hdr ++ rest ->
  readAfcHeader s
  = (Ok (mkAfcHeader AFCMAGIC (AFC_HEADER_SIZE + payloadLen)
                     (match ovr with
                      | Some v => v
                      | None => AFC_HEADER_SIZE + payloadLen
                      end)
                     packetNum op),
     sock_with_input s rest (sock_events s) (sock_destroyed s)).
Proof.
  intros Henc Hbuf.
  destruct (encodeHeader_inv _ _ _ _ _ Henc)
    as (Hlen & Hmagic & He & Ht & Hp & Ho).
  unfold readAfcHeader, se_bind.
  rewrite (readExact_buffered AFC_HEADER_SIZE s hdr rest Hlen Hbuf).
  assert (Hsub : subarray hdr 0 8 = AFCMAGIC).
  { rewrite subarray_prefix; [exact Hmagic|].
    unfold AFC_HEADER_SIZE in Hlen. lia. }
  rewrite Hsub.
  assert (Heq : buffer_equals AFCMAGIC AFCMAGIC = true)
    by (apply buffer_equals_spec; reflexivity).
  rewrite Heq. cbn [negb]. unfold se_lift.
  rewrite He, Ht, Hp, Ho. reflexivity.
Qed.

(** X1.  Header round trip of the file-conduit protocol: when the bytes
    [encodeHeader] produced are at the front of the receive buffer of a
    socket, [readAfcHeader] consumes exactly those forty bytes and
    returns the magic, the entire length (40 plus the payload length),
    the length override or else the entire length, the packet number and
    the operation that were encoded. *)
Theorem afc_header_round_trip (op packetNum payloadLen : Z) (ovr : option Z)
        (hdr rest : Buffer) (s : Socket) :
  encodeHeader op packetNum payloadLen ovr = Ok hdr ->
  sock_buffer s = hdr ++ rest ->
  readAfcHeader s
  = (Ok (mkAfcHeader AFCMAGIC (AFC_HEADER_SIZE + payloadLen)
                     (match ovr with
                      | Some v => v
                      | None => AFC_HEADER_SIZE + payloadLen
                      end)
                     packetNum op),
     sock_with_input s rest (sock_events s) (sock_destroyed s)).
Proof. apply readAfcHeader_encoded. Qed.

Lemma afc_header_round_trip_witness :
  let hdr := AFCMAGIC ++ le_split 8 51 ++ le_split 8 48 ++ le_split 8 5
             ++ le_split 8 16 in
  encodeHeader 16 5 11 (Some 48) = Ok hdr /\
  readAfcHeader (mkSocket (hdr ++ alloc 11) [] [] None false (fun _ => []))
  = (Ok (mkAfcHeader AFCMAGIC 51 48 5 16),
     mkSocket (alloc 11) [] [] None false (fun _ => [])).
Proof.
  intros hdr. split; [vm_compute; reflexivity|].
  apply (afc_header_round_trip 16 5 11 (Some 48) hdr (alloc 11)
           (mkSocket (hdr ++ alloc 11) [] [] None false (fun _ => [])));
    vm_compute; reflexivity.
Defined.

(** *** NUL-separated strings *)

Lemma cstring_parts_until_nul (l rest : Buffer) :
  ~ In Init.Byte.x00 l ->
  forall cur,
    cstring_parts cur (l ++ Init.Byte.x00 :: rest)
    = utf8_string (cur ++ l) :: cstring_parts [] rest.
Proof.
  induction l as [| b l IH]; intros Hnul cur.
  - cbn. rewrite app_nil_r. reflexivity.
  - cbn [app cstring_parts].
    destruct (Byte.eqb b Init.Byte.x00) eqn:Hb.
    + apply Byte.byte_dec_bl in Hb. subst b. exfalso. apply Hnul. left.
      reflexivity.
    + rewrite IH by (intros Hin; apply Hnul; right; exact Hin).
      rewrite <- app_assoc. reflexivity.
Qed.

Lemma cstring_parts_unterminated (l : Buffer) :
  ~ In Init.Byte.x00 l -> l <> [] ->
  forall cur, cstring_parts cur l = [utf8_string (cur ++ l)].
Proof.
  induction l as [| b l IH]; intros Hnul Hne cur; [congruence|].
  cbn [cstring_parts].
  destruct (Byte.eqb b Init.Byte.x00) eqn:Hb.
  - apply Byte.byte_dec_bl in Hb. subst b. exfalso. apply Hnul. left.
    reflexivity.
  - destruct l as [| b' l'].
    + cbn. destruct cur; reflexivity.
    + rewrite IH; [| intros Hin; apply Hnul; right; exact Hin | discriminate].
      rewrite <- app_assoc. reflexivity.
Qed.

Lemma utf8_round_trip (s : string) : utf8_string (utf8_bytes s) = s.
Proof. apply string_of_list_byte_of_string. Qed.

Lemma cstring_parts_concat (strs : list string) (tail : Buffer) :
  Forall nul_free strs ->
  cstring_parts [] (concat (map cstr strs) ++ tail)
  = strs ++ cstring_parts [] tail.
Proof.
  induction 1 as [| s strs Hs _ IH]; [reflexivity|].
  cbn [map concat]. unfold cstr at 1, NULL_BYTE.
  rewrite <- !app_assoc. cbn [app].
  rewrite (cstring_parts_until_nul _ _ Hs). cbn [app].
  rewrite utf8_round_trip, IH. reflexivity.
Qed.

Lemma pop_trailing_empty_repeat (n : nat) :
  pop_trailing_empty (repeat ""%string n) = [].
Proof. induction n as [| n IH]; [reflexivity|]. cbn. rewrite IH. reflexivity. Qed.

Lemma pop_trailing_empty_app (parts : list string) (n : nat) :
  pop_trailing_empty (parts ++ repeat ""%string n) = pop_trailing_empty parts.
Proof.
  induction parts as [| p parts IH]; [apply pop_trailing_empty_repeat|].
  cbn. rewrite IH. reflexivity.
Qed.

Lemma pop_trailing_empty_id (parts : list string) :
  ~ ends_with_empty parts -> pop_trailing_empty parts = parts.
Proof.
  induction parts as [| p parts IH]; intros Hend; [reflexivity|].
  cbn [pop_trailing_empty]. destruct parts as [| q parts'].
  - cbn. destruct (String.eqb_spec p ""); [|reflexivity].
    subst p. exfalso. apply Hend. exists []. reflexivity.
  - rewrite IH; [reflexivity|].
    intros (init & Hinit). apply Hend. exists (p :: init).
    rewrite Hinit. reflexivity.
Qed.

Lemma parseCStringArray_cstr (strs : list string) :
  Forall nul_free strs -> ~ ends_with_empty strs ->
  parseCStringArray (concat (map cstr strs)) = strs /\
  (forall n,
      parseCStringArray (concat (map cstr (strs ++ repeat ""%string n)))
      = strs) /\
  (forall s, nul_free s -> s <> ""%string ->
             parseCStringArray (concat (map cstr strs) ++ utf8_bytes s)
             = strs ++ [s]).
Proof.
  intros Hnul Hend.
  assert (Hempty : forall n, Forall nul_free (repeat ""%string n)).
  { intros n. induction n as [| n IHn]; constructor;
      [intros [] | exact IHn]. }
  assert (Hall : forall n,
             parseCStringArray (concat (map cstr (strs ++ repeat ""%string n)))
             = strs).
  { intros n. unfold parseCStringArray.
    rewrite <- (app_nil_r (concat _)).
    rewrite cstring_parts_concat by (apply Forall_app; split; auto).
    cbn [cstring_parts]. rewrite app_nil_r, pop_trailing_empty_app.
    apply pop_trailing_empty_id. exact Hend. }
  split; [|split].
  - specialize (Hall 0%nat). cbn [repeat] in Hall.
    rewrite app_nil_r in Hall. exact Hall.
  - exact Hall.
  - intros s Hs Hne. unfold parseCStringArray.
    rewrite cstring_parts_concat by exact Hnul.
    rewrite cstring_parts_unterminated; [| exact Hs |].
    + cbn [app]. rewrite utf8_round_trip.
      apply pop_trailing_empty_id.
      intros (init & Hinit). apply app_inj_tail in Hinit.
      destruct Hinit as [_ Hs']. contradiction.
    + intros Hnil. apply Hne. rewrite <- (utf8_round_trip s), Hnil.
      reflexivity.
Qed.

(** X2.  Round trip of NUL-separated string lists: for strings that hold
    no NUL character, of which the last is not empty,
    [parseCStringArray] returns the strings that were sent, each
    followed by a NUL byte; empty strings sent after them are dropped;
    and a last string sent without its NUL byte is returned as well. *)
Theorem cstring_array_round_trip (strs : list string) :
  Forall nul_free strs -> ~ ends_with_empty strs ->
  parseCStringArray (concat (map cstr strs)) = strs /\
  (forall n,
      parseCStringArray (concat (map cstr (strs ++ repeat ""%string n)))
      = strs) /\
  (forall s, nul_free s -> s <> ""%string ->
             parseCStringArray (concat (map cstr strs) ++ utf8_bytes s)
             = strs ++ [s]).
Proof. apply parseCStringArray_cstr. Qed.

Lemma cstring_array_round_trip_witness :
  parseCStringArray (concat (map cstr ["."; ".."; "a.txt"]%string))
  = ["."; ".."; "a.txt"]%string /\
  (forall n,
      parseCStringArray
        (concat (map cstr (["."; ".."; "a.txt"]%string ++ repeat ""%string n)))
      = ["."; ".."; "a.txt"]%string) /\
  (forall s, nul_free s -> s <> ""%string ->
             parseCStringArray
               (concat (map cstr ["."; ".."; "a.txt"]%string) ++ utf8_bytes s)
             = ["."; ".."; "a.txt"]%string ++ [s]).
Proof.
  apply (cstring_array_round_trip ["."; ".."; "a.txt"]%string).
  - repeat constructor; vm_compute; intuition discriminate.
  - intros (init & Hinit).
    apply (f_equal (fun l => List.last l "x"%string)) in Hinit.
    rewrite List.last_last in Hinit. vm_compute in Hinit. discriminate.
Defined.

(** *** Key/value lists *)

Lemma key_value_bytes_flat (kvs : list (string * string)) :
  key_value_bytes kvs = concat (map cstr (keys_and_values kvs)).
Proof.
  unfold key_value_bytes, keys_and_values.
  induction kvs as [| [k v] kvs IH]; [reflexivity|].
  cbn [map concat flat_map fst snd app]. rewrite IH, <- app_assoc.
  reflexivity.
Qed.

Lemma keys_and_values_app (a b : list (string * string)) :
  keys_and_values (a ++ b) = keys_and_values a ++ keys_and_values b.
Proof. unfold keys_and_values. apply flat_map_app. Qed.

Lemma keys_and_values_nul_free (kvs : list (string * string)) :
  Forall (fun kv => nul_free (fst kv) /\ nul_free (snd kv)) kvs ->
  Forall nul_free (keys_and_values kvs).
Proof.
  induction 1 as [| [k v] kvs [Hk Hv] _ IH]; [constructor|].
  cbn. repeat constructor; assumption.
Qed.

Lemma keys_and_values_even (kvs : list (string * string)) :
  Nat.even (length (keys_and_values kvs)) = true.
Proof. induction kvs as [| [k v] kvs IH]; [reflexivity | exact IH]. Qed.

Lemma kv_get_set (kv : list (string * string)) (k v k' : string) :
  kv_get (kv_set kv k v) k'
  = if String.eqb k k' then Some v else kv_get kv k'.
Proof.
  induction kv as [| [k0 v0] kv IH]; cbn.
  - reflexivity.
  - destruct (String.eqb_spec k0 k) as [-> | Hne]; cbn.
    + destruct (String.eqb_spec k k'); reflexivity.
    + rewrite IH. destruct (String.eqb_spec k0 k') as [-> | Hne'].
      * destruct (String.eqb_spec k k'); [congruence | reflexivity].
      * reflexivity.
Qed.

Lemma kv_get_app (a b : list (string * string)) (k : string) :
  kv_get (a ++ b) k
  = match kv_get a k with Some v => Some v | None => kv_get b k end.
Proof.
  induction a as [| [k0 v0] a IH]; cbn; [reflexivity|].
  destruct (String.eqb k0 k); [reflexivity | exact IH].
Qed.

Lemma kv_get_pair_up (kvs : list (string * string)) :
  forall acc k,
    kv_get (pair_up acc (keys_and_values kvs)) k
    = match kv_get (rev kvs) k with
      | Some v => Some v
      | None => kv_get acc k
      end.
Proof.
  induction kvs as [| [k0 v0] kvs IH]; intros acc k; [reflexivity|].
  cbn [keys_and_values flat_map fst snd app pair_up].
  fold (keys_and_values kvs). rewrite IH.
  cbn [rev]. rewrite kv_get_app, kv_get_set. cbn [kv_get].
  destruct (kv_get (rev kvs) k); [reflexivity|].
  destruct (String.eqb k0 k); reflexivity.
Qed.

Lemma keys_and_values_ends (kvs : list (string * string)) :
  (forall init k, kvs <> init ++ [(k, ""%string)]) ->
  ~ ends_with_empty (keys_and_values kvs).
Proof.
  intros Hlast (init & Hinit).
  destruct kvs as [| kv0 kvs0] using rev_ind.
  - destruct init; discriminate.
  - clear IHkvs0. destruct kv0 as [k v].
    rewrite keys_and_values_app in Hinit. cbn in Hinit.
    change [k; v] with ([k] ++ [v]) in Hinit.
    rewrite app_assoc in Hinit. apply app_inj_tail in Hinit.
    destruct Hinit as [_ ->]. exact (Hlast kvs0 k eq_refl).
Qed.

(** X3.  Key/value lists of the file-conduit protocol.  For keys and
    values without NUL characters: when the last value is not empty,
    [parseKeyValueNullList] returns an object in which every key has the
    value of its last occurrence in the list sent; when the last value
    is empty and its key is not, the trailing empty string is dropped
    and the list is rejected as having an odd number of entries. *)
Theorem key_value_list_round_trip (kvs : list (string * string)) :
  Forall (fun kv => nul_free (fst kv) /\ nul_free (snd kv)) kvs ->
  ((forall init k, kvs <> init ++ [(k, ""%string)]) ->
   exists kv,
     parseKeyValueNullList (key_value_bytes kvs) = Ok kv /\
     forall k, kv_get kv k = kv_get (rev kvs) k) /\
  (forall k, nul_free k -> k <> ""%string ->
     parseKeyValueNullList (key_value_bytes (kvs ++ [(k, ""%string)]))
     = Throw (Err "Invalid key/value AFC list (odd number of entries)")).
Proof.
  intros Hnul. split.
  - intros Hlast. unfold parseKeyValueNullList.
    rewrite key_value_bytes_flat.
    destruct (parseCStringArray_cstr (keys_and_values kvs)) as (-> & _).
    { apply keys_and_values_nul_free. exact Hnul. }
    { apply keys_and_values_ends. exact Hlast. }
    rewrite keys_and_values_even. cbn [negb]. eexists. split; [reflexivity|].
    intros k. rewrite kv_get_pair_up.
    destruct (kv_get (rev kvs) k); reflexivity.
  - intros k Hk Hne. unfold parseKeyValueNullList.
    rewrite key_value_bytes_flat, keys_and_values_app.
    cbn [keys_and_values flat_map fst snd app].
    change [k; ""%string] with ([k] ++ repeat ""%string 1).
    rewrite app_assoc.
    destruct (parseCStringArray_cstr (keys_and_values kvs ++ [k]))
      as (_ & -> & _).
    { apply Forall_app. split.
      - apply keys_and_values_nul_free. exact Hnul.
      - repeat constructor. exact Hk. }
    { intros (init & Hinit). apply app_inj_tail in Hinit.
      destruct Hinit as [_ ->]. congruence. }
    rewrite length_app, Nat.add_comm. cbn [length Nat.add].
    rewrite Nat.even_succ, <- Nat.negb_even, keys_and_values_even.
    reflexivity.
Qed.

Lemma key_value_list_round_trip_witness :
  (exists kv,
      parseKeyValueNullList
        (key_value_bytes [("st_size", "12"); ("st_ifmt", "S_IFREG");
                          ("st_size", "40")]%string) = Ok kv /\
      forall k, kv_get kv k
                = kv_get (rev [("st_size", "12"); ("st_ifmt", "S_IFREG");
                               ("st_size", "40")]%string) k) /\
  (forall k, nul_free k -> k <> ""%string ->
     parseKeyValueNullList
       (key_value_bytes ([("st_size", "12"); ("st_ifmt", "S_IFREG");
                          ("st_size", "40")]%string ++ [(k, ""%string)]))
     = Throw (Err "Invalid key/value AFC list (odd number of entries)")).
Proof.
  destruct (key_value_list_round_trip
              [("st_size", "12"); ("st_ifmt", "S_IFREG");
               ("st_size", "40")]%string) as (Hok & Hodd).
  - repeat constructor; vm_compute; intuition discriminate.
  - split; [|exact Hodd]. apply Hok. intros init k Hinit.
    apply (f_equal (fun l => List.last l (""%string, "x"%string))) in Hinit.
    rewrite List.last_last in Hinit. vm_compute in Hinit. discriminate.
Defined.

(** *** Responses *)

Lemma subarray_clamped (b : Buffer) (n : Z) :
  blen b <= n -> subarray b 0 n = b.
Proof.
  intros Hn. unfold subarray, rel_index, blen in *.
  change (0 <? 0) with false. cbn match.
  destruct (Z.ltb_spec n 0) as [Hneg | _]; [lia|].
  rewrite (Z.min_l 0) by lia. rewrite (Z.min_r n) by lia.
  rewrite Z.sub_0_r, Nat2Z.id. change (Z.to_nat 0) with 0%nat.
  rewrite drop_0. apply firstn_all.
Qed.

Lemma readUIntLE_out_of_range (n : nat) (b : Buffer) (off : Z) :
  off < 0 \/ blen b < off + Z.of_nat n ->
  readUIntLE n b off = Throw RangeErr.
Proof.
  intros Hout. unfold readUIntLE.
  destruct (Z.leb_spec 0 off); destruct (Z.leb_spec (off + Z.of_nat n) (blen b));
    cbn; try reflexivity; lia.
Qed.

Section Responses.
Context `{AfcEnv}.

Lemma readAfcResponse_encoded (op packetNum : Z) (ovr : option Z)
      (payload hdr rest : Buffer) (s : Socket) :
  encodeHeader op packetNum (blen payload) ovr = Ok hdr ->
  sock_buffer s = hdr ++ payload ++ rest ->
  let header :=
    mkAfcHeader AFCMAGIC (AFC_HEADER_SIZE + blen payload)
                (match ovr with
                 | Some v => v
                 | None => AFC_HEADER_SIZE + blen payload
                 end) packetNum op in
  let s' := sock_with_input s rest (sock_events s) (sock_destroyed s) in
  readAfcResponse s
  = (if op =? OP_STATUS
     then match readUInt64LE (subarray payload 0 8) 0 with
          | Ok status => Ok (mkAfcResponse status [] op header)
          | Throw e => Throw e
          end
     else Ok (mkAfcResponse AFC_SUCCESS payload op header),
     s').
Proof.
  intros Henc Hbuf header s'. unfold readAfcResponse.
  unfold se_bind at 1.
  rewrite (readAfcHeader_encoded _ _ _ _ _ _ _ Henc Hbuf).
  cbn [entireLength operation].
  replace (AFC_HEADER_SIZE + blen payload - AFC_HEADER_SIZE)
    with (blen payload) by lia.
  unfold se_bind at 1.
  destruct (Z.ltb_spec 0 (blen payload)) as [Hpos | Hzero].
  - rewrite (readExact_buffered
               (blen payload)
               (sock_with_input s (payload ++ rest) (sock_events s)
                                (sock_destroyed s))
               payload rest eq_refl eq_refl).
    cbn [sock_with_input sock_events sock_destroyed sock_written
         sock_write_error sock_peer].
    fold s'. destruct (op =? OP_STATUS); [|reflexivity].
    unfold se_bind, se_lift.
    destruct (readUInt64LE (subarray payload 0 8) 0); reflexivity.
  - assert (payload = []) as ->.
    { destruct payload; [reflexivity|]. unfold blen in Hzero. cbn in Hzero.
      lia. }
    unfold se_ret. cbn [app]. fold s'.
    destruct (op =? OP_STATUS); [|reflexivity].
    unfold se_bind, se_lift.
    destruct (readUInt64LE (subarray [] 0 8) 0); reflexivity.
Qed.

End Responses.

(** X4.  Response round trip of the file-conduit protocol.  When the
    receive buffer of the socket starts with a packet (the header
    [encodeHeader] gives for a payload, then the payload),
    [readAfcResponse] consumes exactly the packet.  For an operation
    other than STATUS it returns the status SUCCESS with the payload as
    data.  For STATUS it returns no data and the status read from the
    first eight bytes of the payload, and throws a range error when the
    payload has fewer than eight bytes. *)
Theorem afc_response_round_trip `{AfcEnv} (op packetNum : Z)
        (ovr : option Z) (payload hdr rest : Buffer) (s : Socket) :
  encodeHeader op packetNum (blen payload) ovr = Ok hdr ->
  sock_buffer s = hdr ++ payload ++ rest ->
  let header :=
    mkAfcHeader AFCMAGIC (AFC_HEADER_SIZE + blen payload)
                (match ovr with
                 | Some v => v
                 | None => AFC_HEADER_SIZE + blen payload
                 end) packetNum op in
  let s' := sock_with_input s rest (sock_events s) (sock_destroyed s) in
  (op <> OP_STATUS ->
   readAfcResponse s
   = (Ok (mkAfcResponse AFC_SUCCESS payload op header), s')) /\
  (op = OP_STATUS -> 8 <= blen payload ->
   readAfcResponse s
   = (Ok (mkAfcResponse (le_combine (firstn 8 payload)) [] op header), s')) /\
  (op = OP_STATUS -> blen payload < 8 ->
   readAfcResponse s = (Throw RangeErr, s')).
Proof.
  intros Henc Hbuf header s'.
  pose proof (readAfcResponse_encoded _ _ _ _ _ _ _ Henc Hbuf) as Hresp.
  cbv zeta in Hresp. fold header s' in Hresp.
  split; [|split].
  - intros Hop. rewrite Hresp.
    destruct (Z.eqb_spec op OP_STATUS); [contradiction | reflexivity].
  - intros Hop Hlen. rewrite Hresp.
    destruct (Z.eqb_spec op OP_STATUS); [|contradiction].
    rewrite subarray_prefix by (unfold blen in *; lia).
    unfold readUInt64LE, readBigUInt64LE. rewrite readUIntLE_in_range.
    + change (Z.to_nat 0) with 0%nat. rewrite drop_0.
      rewrite firstn_firstn. reflexivity.
    + lia.
    + unfold blen in *. rewrite length_firstn.
      change (Z.to_nat 8) with 8%nat. lia.
  - intros Hop Hlen. rewrite Hresp.
    destruct (Z.eqb_spec op OP_STATUS); [|contradiction].
    rewrite subarray_clamped by lia.
    unfold readUInt64LE, readBigUInt64LE. rewrite readUIntLE_out_of_range;
      [reflexivity|]. right. change (Z.of_nat 8) with 8. lia.
Qed.

Lemma afc_response_round_trip_witness :
  readAfcResponse (H := afc_protocol_env)
    (socket_holding (header_bytes 43 43 2 2 ++ sample_data ++ alloc 5))
  = (Ok (mkAfcResponse 0 sample_data 2 (mkAfcHeader AFCMAGIC 43 43 2 2)),
     socket_holding (alloc 5)) /\
  readAfcResponse (H := afc_protocol_env)
    (socket_holding (header_bytes 49 49 2 1 ++ (le_split 8 8 ++ alloc 1) ++ []))
  = (Ok (mkAfcResponse 8 [] 1 (mkAfcHeader AFCMAGIC 49 49 2 1)),
     socket_holding []) /\
  readAfcResponse (H := afc_protocol_env)
    (socket_holding (header_bytes 43 43 2 1 ++ sample_data ++ []))
  = (Throw RangeErr, socket_holding []).
Proof.
  split; [|split].
  - apply (afc_response_round_trip (H := afc_protocol_env) 2 2 None
             sample_data (header_bytes 43 43 2 2) (alloc 5)
             (socket_holding (header_bytes 43 43 2 2 ++ sample_data
                              ++ alloc 5)));
      vm_compute; first [reflexivity | discriminate].
  - apply (afc_response_round_trip (H := afc_protocol_env) 1 2 None
             (le_split 8 8 ++ alloc 1) (header_bytes 49 49 2 1) []
             (socket_holding (header_bytes 49 49 2 1
                              ++ (le_split 8 8 ++ alloc 1) ++ [])));
      vm_compute; first [reflexivity | discriminate].
  - apply (afc_response_round_trip (H := afc_protocol_env) 1 2 None
             sample_data (header_bytes 43 43 2 1) []
             (socket_holding (header_bytes 43 43 2 1 ++ sample_data ++ [])));
      vm_compute; first [reflexivity | discriminate].
Defined.

(** ** The file-conduit client *)

Section PacketNumbers.
Context `{AfcEnv}.

Lemma connect_packetNum (svc svc' : AfcService) (r : result unit) :
  _connect svc = (r, svc') -> packetNum svc' = packetNum svc.
Proof.
  unfold _connect.
  destruct (socket svc) as [s|]; [destruct (sock_destroyed s)|];
    try (intros [= <- <-]; reflexivity);
    destruct (network svc) as [| [e | s0 e | s0] rest];
    intros [= <- <-]; reflexivity.
Qed.

Lemma connect_socket (svc svc' : AfcService) :
  _connect svc = (Ok tt, svc') -> exists s, socket svc' = Some s.
Proof.
  unfold _connect.
  destruct (socket svc) as [s|] eqn:Hs; [destruct (sock_destroyed s)|];
    try (intros [= <-]; eauto);
    destruct (network svc) as [| [e | s0 e | s0] rest];
    intros [= <-]; cbn; eauto.
Qed.

Lemma on_socket_packetNum {A : Type} (m : SE Socket A)
      (svc svc' : AfcService) (r : result A) :
  on_socket m svc = (r, svc') -> packetNum svc' = packetNum svc.
Proof.
  unfold on_socket. destruct (socket svc) as [s|].
  - destruct (m s) as [r' s']. intros [= <- <-]. reflexivity.
  - intros [= <- <-]. reflexivity.
Qed.

Lemma receive_packetNum (svc svc' : AfcService) (r : result (Z * Buffer)) :
  _receive svc = (r, svc') -> packetNum svc' = packetNum svc.
Proof.
  unfold _receive, se_bind.
  destruct (_connect svc) as [[[] | e] svc0] eqn:Hc.
  - destruct (on_socket readAfcResponse svc0) as [[res | e] svc1] eqn:Hr.
    + intros [= <- <-].
      rewrite (on_socket_packetNum _ _ _ _ Hr).
      exact (connect_packetNum _ _ _ Hc).
    + intros [= <- <-].
      rewrite (on_socket_packetNum _ _ _ _ Hr).
      exact (connect_packetNum _ _ _ Hc).
  - intros [= <- <-]. exact (connect_packetNum _ _ _ Hc).
Qed.

Lemma dispatch_sends (op : Z) (payload : Buffer) (ovr : option Z)
      (svc svc' : AfcService) :
  _dispatch op payload ovr svc = (Ok tt, svc') ->
  exists svc0 s0 s' hdr,
    _connect svc = (Ok tt, svc0) /\ socket svc0 = Some s0 /\
    encodeHeader op (packetNum svc) (blen payload) ovr = Ok hdr /\
    readUInt64LE hdr 24 = Ok (packetNum svc) /\
    socket svc' = Some s' /\
    sock_written s'
    = sock_written s0 ++ hdr :: (if 0 <? blen payload then [payload] else []) /\
    packetNum svc' = packetNum svc + 1.
Proof.
  unfold _dispatch, se_bind.
  destruct (_connect svc) as [[[] | e] svc0] eqn:Hc; [|discriminate].
  pose proof (connect_packetNum _ _ _ Hc) as Hn.
  destruct (connect_socket _ _ Hc) as (s0 & Hs0).
  unfold next_packetNum, on_socket. cbn [socket packetNum network].
  rewrite Hs0, Hn.
  destruct (sendAfcPacket op (packetNum svc) payload ovr s0)
    as [r s'] eqn:Hsend.
  intros Heq. injection Heq as Hr Hsvc. subst r svc'. cbn [socket packetNum].
  unfold sendAfcPacket, se_bind, se_lift in Hsend.
  destruct (encodeHeader op (packetNum svc) (blen payload) ovr)
    as [hdr | e] eqn:Henc; [|discriminate].
  destruct (encodeHeader_inv _ _ _ _ _ Henc) as (_ & _ & _ & _ & Hp & _).
  exists svc0, s0, s', hdr. repeat split; try assumption; try reflexivity.
  unfold socket_write in Hsend.
  destruct (sock_write_error s0) eqn:Hw; [discriminate|].
  cbn [sock_write_error] in Hsend.
  destruct (0 <? blen payload).
  - injection Hsend as <-. cbn [sock_written].
    rewrite <- app_assoc. reflexivity.
  - unfold se_ret in Hsend. injection Hsend as <-. reflexivity.
Qed.

Lemma dispatch_packetNum (op : Z) (payload : Buffer) (ovr : option Z)
      (svc svc' : AfcService) (r : result unit) :
  _dispatch op payload ovr svc = (r, svc') ->
  packetNum svc <= packetNum svc' <= packetNum svc + 1.
Proof.
  unfold _dispatch, se_bind.
  destruct (_connect svc) as [[[] | e] svc0] eqn:Hc.
  - pose proof (connect_packetNum _ _ _ Hc) as Hn.
    unfold next_packetNum.
    destruct (on_socket _ _) as [r' svc1] eqn:Hon.
    intros [= <- <-]. apply on_socket_packetNum in Hon.
    cbn [packetNum] in Hon. lia.
  - intros [= <- <-]. rewrite (connect_packetNum _ _ _ Hc). lia.
Qed.

Lemma doOperation_packetNum (op : Z) (payload : Buffer) (ovr : option Z)
      (svc svc' : AfcService) (data : Buffer) :
  _doOperation op payload ovr svc = (Ok data, svc') ->
  packetNum svc' = packetNum svc + 1.
Proof.
  unfold _doOperation. unfold se_bind at 1.
  destruct (_dispatch op payload ovr svc) as [[[] | e] svc0] eqn:Hd;
    [|discriminate].
  destruct (dispatch_sends _ _ _ _ _ Hd)
    as (c0 & s0 & s1 & hdr & _ & _ & _ & _ & _ & _ & Hn).
  unfold se_bind.
  destruct (_receive svc0) as [[res | e] svc1] eqn:Hr; [|discriminate].
  apply receive_packetNum in Hr.
  destruct (negb _); [destruct (_ =? _); discriminate|].
  intros [= _ <-]. lia.
Qed.

End PacketNumbers.

(** X5.  Packet numbering of the file-conduit client.  A request that
    [_dispatch] sends writes to the connected socket one header, carrying
    the current packet number, followed by the payload when there is
    one, and advances the packet number by one; whatever its outcome, a
    dispatch advances the number by at most one; receiving a response
    leaves the number as it is; so an operation that succeeds advances
    it by exactly one. *)
Theorem requests_number_packets `{AfcEnv} (op : Z) (payload : Buffer)
        (ovr : option Z) (svc svc' : AfcService) :
  (_dispatch op payload ovr svc = (Ok tt, svc') ->
   exists svc0 s0 s' hdr,
     _connect svc = (Ok tt, svc0) /\ socket svc0 = Some s0 /\
     encodeHeader op (packetNum svc) (blen payload) ovr = Ok hdr /\
     readUInt64LE hdr 24 = Ok (packetNum svc) /\
     socket svc' = Some s' /\
     sock_written s'
     = sock_written s0 ++ hdr :: (if 0 <? blen payload then [payload] else []) /\
     packetNum svc' = packetNum svc + 1) /\
  (forall r, _dispatch op payload ovr svc = (r, svc') ->
             packetNum svc <= packetNum svc' <= packetNum svc + 1) /\
  (forall r, _receive svc = (r, svc') -> packetNum svc' = packetNum svc) /\
  (forall data, _doOperation op payload ovr svc = (Ok data, svc') ->
                packetNum svc' = packetNum svc + 1).
Proof.
  split; [apply dispatch_sends|].
  split; [intros r; apply dispatch_packetNum|].
  split; [intros r; apply receive_packetNum|].
  intros data. apply doOperation_packetNum.
Qed.

Lemma requests_number_packets_witness :
  packetNum (snd (_dispatch 16 sample_data (Some 48)
                            sample_write_service)) = 1 /\
  packetNum (snd (_doOperation (H := afc_protocol_env) 8 (cstr "/x") None
                               sample_write_service)) = 1.
Proof.
  split.
  - destruct (requests_number_packets (H := afc_protocol_env)
                16 sample_data (Some 48) sample_write_service
                (snd (_dispatch 16 sample_data
                                (Some 48) sample_write_service)))
      as (Hsend & _).
    destruct Hsend as (svc0 & s0 & s' & hdr & _ & _ & _ & _ & _ & _ & Hn).
    + apply run_ok. vm_compute. reflexivity.
    + exact Hn.
  - destruct (requests_number_packets (H := afc_protocol_env)
                8 (cstr "/x") None sample_write_service
                (snd (_doOperation (H := afc_protocol_env) 8 (cstr "/x") None
                                   sample_write_service)))
      as (_ & _ & _ & Hop).
    apply (Hop []). apply run_ok. vm_compute. reflexivity.
Defined.



(** *** Writing in chunks *)

Section Fwrite.
Context `{AfcEnv}.

Lemma fwrite_loop_eq (fuel : nat) (handle : Z) (data : Buffer)
      (chunkSize offset : Z) :
  fwrite_loop fuel handle data chunkSize offset
  = if offset <? blen data
    then
      match fuel with
      | O => fun _ => None
      | S fuel' =>
          let end_ := Z.min (offset + chunkSize) (blen data) in
          let chunk := subarray data offset end_ in
          h <~~ sef_lift (se_lift (writeUInt64LE handle)) ;;
          _ <~~ sef_lift (_dispatch OP_WRITE (h ++ chunk)
                                    (Some AFC_WRITE_THIS_LENGTH)) ;;
          res <~~ sef_lift _receive ;;
          if negb (fst res =? AFC_SUCCESS)
          then sef_throw (Err "fwrite chunk failed")
          else fwrite_loop fuel' handle data chunkSize end_
      end
    else sef_ret tt.
Proof. destruct fuel; reflexivity. Qed.

(** One iteration of the loop that goes on: the packet number has
    advanced by one when the next iteration starts. *)
Lemma fwrite_loop_step (fuel : nat) (handle : Z) (data : Buffer)
      (chunkSize offset : Z) (svc svc' : AfcService) :
  offset < blen data ->
  fwrite_loop (S fuel) handle data chunkSize offset svc = Some (Ok tt, svc') ->
  exists svc1,
    packetNum svc1 = packetNum svc + 1 /\
    fwrite_loop fuel handle data chunkSize
                (Z.min (offset + chunkSize) (blen data)) svc1
    = Some (Ok tt, svc').
Proof.
  intros Hlt. rewrite fwrite_loop_eq.
  destruct (Z.ltb_spec offset (blen data)) as [_ | Hge]; [|lia].
  cbv zeta. unfold sef_bind at 1. unfold sef_lift at 1, se_lift.
  destruct (writeUInt64LE handle) as [h | e]; [|discriminate].
  unfold sef_bind at 1. unfold sef_lift at 1.
  destruct (_dispatch _ _ _ svc) as [[[] | e] svc0] eqn:Hd; [|discriminate].
  destruct (dispatch_sends _ _ _ _ _ Hd)
    as (c0 & s0 & s1 & hdr & _ & _ & _ & _ & _ & _ & Hn).
  unfold sef_bind at 1. unfold sef_lift at 1.
  destruct (_receive svc0) as [[res | e] svc1] eqn:Hr; [|discriminate].
  apply receive_packetNum in Hr.
  destruct (negb _); [discriminate|].
  intros Hrest. exists svc1. split; [lia | exact Hrest].
Qed.

Lemma fwrite_loop_never_ends (handle : Z) (data : Buffer) (chunkSize : Z) :
  chunkSize <= 0 ->
  forall fuel offset svc svc',
    offset <= 0 -> 0 < blen data ->
    fwrite_loop fuel handle data chunkSize offset svc <> Some (Ok tt, svc').
Proof.
  intros Hc. induction fuel as [| fuel IH]; intros offset svc svc' Ho Hd.
  - rewrite fwrite_loop_eq.
    destruct (Z.ltb_spec offset (blen data)); [discriminate | lia].
  - intros Hrun.
    assert (Hlt : offset < blen data) by lia.
    destruct (fwrite_loop_step _ _ _ _ _ _ _ Hlt Hrun)
      as (svc1 & _ & Hrest).
    assert (Hmin : Z.min (offset + chunkSize) (blen data) <= 0) by lia.
    exact (IH _ _ _ Hmin Hd Hrest).
Qed.

Lemma fwrite_loop_chunks (handle : Z) (data : Buffer) (chunkSize : Z) :
  0 < chunkSize ->
  forall fuel offset svc svc',
    0 <= offset <= blen data ->
    fwrite_loop fuel handle data chunkSize offset svc = Some (Ok tt, svc') ->
    packetNum svc'
    = packetNum svc + (blen data - offset + chunkSize - 1) / chunkSize.
Proof.
  intros Hc. induction fuel as [| fuel IH]; intros offset svc svc' Ho Hrun.
  - rewrite fwrite_loop_eq in Hrun.
    destruct (Z.ltb_spec offset (blen data)); [discriminate|].
    injection Hrun as <-. replace offset with (blen data) by lia.
    replace (blen data - blen data + chunkSize - 1) with (chunkSize - 1)
      by lia.
    rewrite Z.div_small by lia. lia.
  - destruct (Z.ltb_spec offset (blen data)) as [Hlt | Hge].
    + destruct (fwrite_loop_step _ _ _ _ _ _ _ Hlt Hrun)
        as (svc1 & Hn & Hrest).
      apply IH in Hrest; [|lia]. rewrite Hrest, Hn.
      destruct (Z.le_gt_cases (blen data) (offset + chunkSize)) as [Hl | Hl].
      * rewrite Z.min_r by lia.
        replace (blen data - blen data + chunkSize - 1) with (chunkSize - 1)
          by lia.
        rewrite Z.div_small by lia.
        assert ((blen data - offset + chunkSize - 1) / chunkSize = 1) as ->;
          [|lia].
        symmetry. apply (Z.div_unique_pos _ _ 1 (blen data - offset - 1));
          lia.
      * rewrite Z.min_l by lia.
        replace (blen data - offset + chunkSize - 1)
          with (blen data - (offset + chunkSize) + chunkSize - 1
                + 1 * chunkSize) by lia.
        rewrite Z.div_add by lia. lia.
    + rewrite fwrite_loop_eq in Hrun.
      destruct (Z.ltb_spec offset (blen data)); [lia|].
      injection Hrun as <-. replace offset with (blen data) by lia.
      replace (blen data - blen data + chunkSize - 1) with (chunkSize - 1)
        by lia.
      rewrite Z.div_small by lia. lia.
Qed.

End Fwrite.

(** X7.  [fwrite] and the chunk size.  With nothing to write, [fwrite]
    returns at once and sends nothing.  With a positive chunk size, a
    write that completes has advanced the packet number by the number of
    chunks, the length of the data divided by the chunk size and rounded
    up; by default the chunk size is the length of the data, and the
    data goes in one packet.  With a chunk size of zero or less and data
    to write, the loop makes no progress: whatever the fuel, [fwrite]
    does not complete. *)
Theorem fwrite_chunks `{AfcEnv} (fuel : nat) (handle : Z) (data : Buffer)
        (chunkSize : Z) (svc svc' : AfcService) :
  (forall size, fwrite fuel handle [] size svc = Some (Ok tt, svc)) /\
  (0 < chunkSize ->
   fwrite fuel handle data (Some chunkSize) svc = Some (Ok tt, svc') ->
   packetNum svc'
   = packetNum svc + (blen data + chunkSize - 1) / chunkSize) /\
  (data <> [] ->
   fwrite fuel handle data None svc = Some (Ok tt, svc') ->
   packetNum svc' = packetNum svc + 1) /\
  (chunkSize <= 0 -> data <> [] ->
   fwrite fuel handle data (Some chunkSize) svc <> Some (Ok tt, svc')).
Proof.
  assert (Hpos : data <> [] -> 0 < blen data).
  { destruct data; [congruence|]. intros _. unfold blen. cbn. lia. }
  split; [|split; [|split]].
  - intros size. unfold fwrite. rewrite fwrite_loop_eq. reflexivity.
  - intros Hc Hrun. unfold fwrite in Hrun.
    apply fwrite_loop_chunks in Hrun; [| exact Hc | unfold blen; lia].
    rewrite Hrun. repeat f_equal. lia.
  - intros Hne Hrun. unfold fwrite in Hrun. specialize (Hpos Hne).
    apply fwrite_loop_chunks in Hrun; [| exact Hpos | unfold blen; lia].
    rewrite Hrun. f_equal.
    replace (blen data - 0 + blen data - 1) with (blen data - 1 + 1 * blen data)
      by lia.
    rewrite Z.div_add by lia. rewrite Z.div_small by lia. reflexivity.
  - intros Hc Hne. unfold fwrite.
    apply fwrite_loop_never_ends; [exact Hc | lia | exact (Hpos Hne)].
Qed.

Lemma fwrite_chunks_witness :
  exists svc',
    fwrite (H := afc_protocol_env) 1 7 sample_data (Some 3)
           sample_write_service = Some (Ok tt, svc') /\
    packetNum svc' = 1 /\
    fwrite (H := afc_protocol_env) 1 7 sample_data (Some 0)
           sample_write_service <> Some (Ok tt, svc').
Proof.
  destruct (sef_run_ok
              (fwrite (H := afc_protocol_env) 1 7 sample_data (Some 3))
              sample_write_service tt) as (svc' & Hrun);
    [vm_compute; reflexivity|].
  exists svc'. split; [exact Hrun|].
  destruct (fwrite_chunks (H := afc_protocol_env) 1 7 sample_data 3
              sample_write_service svc') as (_ & Hcount & _ & _).
  destruct (fwrite_chunks (H := afc_protocol_env) 1 7 sample_data 0
              sample_write_service svc') as (_ & _ & _ & Hnever).
  split.
  - rewrite Hcount; [vm_compute; reflexivity | lia | exact Hrun].
  - apply Hnever; [lia | discriminate].
Defined.

(** *** Attributes and handles *)

(** X8.  [stat] needs the three attributes it converts with [BigInt].
    When the GET_FILE_INFO operation returns a well-formed key/value
    list, [stat] returns exactly when [st_size], [st_mtime] and
    [st_birthtime] are present and are integers; otherwise it throws,
    although the device reported success.  The attributes [st_blocks]
    and [st_nlink] are not needed: when one is missing the result holds
    NaN for it. *)
Theorem stat_needs_sizes_and_times `{AfcEnv} (filePath : string)
        (svc svc' : AfcService) (data : Buffer)
        (kv : list (string * string)) :
  _doOperation OP_GET_FILE_INFO (buildStatPayload filePath) None svc
  = (Ok data, svc') ->
  parseKeyValueNullList data = Ok kv ->
  (forall size mtime birthtime,
      BigInt_of_field kv "st_size" = Ok size ->
      BigInt_of_field kv "st_mtime" = Ok mtime ->
      BigInt_of_field kv "st_birthtime" = Ok birthtime ->
      exists st,
        stat filePath svc = (Ok st, svc') /\
        st_size st = size /\
        st_blocks st = parseInt_of_field kv "st_blocks" /\
        st_nlink st = parseInt_of_field kv "st_nlink") /\
  (forall key,
      In key ["st_size"; "st_mtime"; "st_birthtime"]%string ->
      (kv_get kv key = None \/
       exists s, kv_get kv key = Some s /\ BigInt_of_string s = None) ->
      exists e, stat filePath svc = (Throw e, svc')).
Proof.
  intros Hop Hkv. split.
  - intros size mtime birthtime Hs Hm Hb.
    unfold stat, se_catch, se_bind. rewrite Hop. unfold se_lift.
    rewrite Hkv, Hs. unfold nanosecondsToMilliseconds. rewrite Hm, Hb.
    cbn. eexists. split; [reflexivity|]. repeat split.
  - intros key Hkey Hbad. exists TypeErr.
    assert (Hthrow : BigInt_of_field kv key = Throw TypeErr).
    { unfold BigInt_of_field.
      destruct Hbad as [-> | (s & -> & ->)]; reflexivity. }
    assert (Hany : forall k, exists r, BigInt_of_field kv k = r /\
                     (forall e, r = Throw e -> e = TypeErr)).
    { intros k. eexists. split; [reflexivity|]. unfold BigInt_of_field.
      destruct (kv_get kv k) as [s|]; [destruct (BigInt_of_string s)|];
        intros e [=]; congruence. }
    unfold stat, se_catch, se_bind. rewrite Hop. unfold se_lift.
    rewrite Hkv. unfold nanosecondsToMilliseconds.
    destruct (Hany "st_size"%string) as (r1 & Hr1 & He1).
    destruct (Hany "st_mtime"%string) as (r2 & Hr2 & He2).
    destruct (Hany "st_birthtime"%string) as (r3 & Hr3 & He3).
    cbn in Hkey. destruct Hkey as [<- | [<- | [<- | []]]].
    + rewrite Hthrow. reflexivity.
    + rewrite Hr1. destruct r1 as [v1 | e1];
        [| rewrite (He1 e1 eq_refl); reflexivity].
      rewrite Hthrow. reflexivity.
    + rewrite Hr1. destruct r1 as [v1 | e1];
        [| rewrite (He1 e1 eq_refl); reflexivity].
      rewrite Hr2. destruct r2 as [v2 | e2];
        [| rewrite (He2 e2 eq_refl); reflexivity].
      cbn. rewrite Hthrow. reflexivity.
Qed.

Lemma stat_needs_sizes_and_times_witness :
  (exists st svc',
      stat (H := afc_protocol_env) "/stuff" sample_rm_service = (Ok st, svc') /\
      st_size st = 4096) /\
  (exists e svc',
      stat (H := afc_protocol_env) "/x" service_bad_size
      = (Throw e, svc')).
Proof.
  split.
  - destruct (stat_needs_sizes_and_times (H := afc_protocol_env) "/stuff"
                sample_rm_service
                (snd (_doOperation (H := afc_protocol_env) 10
                                   (buildStatPayload "/stuff") None
                                   sample_rm_service))
                (device_attributes true)
                (pair_up [] (parseCStringArray (device_attributes true))))
      as (Hok & _).
    + apply run_ok. vm_compute. reflexivity.
    + vm_compute. reflexivity.
    + destruct (Hok 4096 1700000000000000000 1600000000000000000)
        as (st & Hst & Hsize & _);
        [vm_compute; reflexivity ..|].
      exists st. eexists. split; [exact Hst | exact Hsize].
  - destruct (stat_needs_sizes_and_times (H := afc_protocol_env) "/x"
                service_bad_size
                (snd (_doOperation (H := afc_protocol_env) 10
                                   (buildStatPayload "/x") None
                                   service_bad_size))
                (concat (map cstr ["st_size"; "big"]%string))
                [("st_size", "big")]%string)
      as (_ & Hbad).
    + apply run_ok. vm_compute. reflexivity.
    + vm_compute. reflexivity.
    + destruct (Hbad "st_size"%string) as (e & He);
        [left; reflexivity
        | right; exists "big"%string; split; vm_compute; reflexivity |].
      exists e. eexists. exact He.
Defined.

(** ** The instrumentation service: auxiliary values *)

Lemma write_at_alloc (n : nat) (bs : Buffer) :
  length bs = n -> write_at (alloc n) 0 bs = bs.
Proof.
  intros Hlen. unfold write_at, alloc. cbn [firstn app Nat.add].
  rewrite Hlen, skipn_all2 by (rewrite repeat_length; lia).
  apply app_nil_r.
Qed.

Lemma uint_buffer_inv (n : nat) (v : Z) (b : Buffer) :
  uint_buffer n v = Ok b -> 0 <= v < 2 ^ (8 * Z.of_nat n) /\ b = le_split n v.
Proof.
  unfold uint_buffer, writeUIntLE.
  destruct (Z.leb_spec 0 v); [|discriminate].
  destruct (Z.ltb_spec v (2 ^ (8 * Z.of_nat n))); [|discriminate].
  cbn [andb]. destruct (_ <=? _); [|discriminate].
  intros [= <-]. split; [lia|].
  apply write_at_alloc. apply length_le_split.
Qed.

Lemma readUIntLE_app (n : nat) (pre post : Buffer) (v o : Z) :
  o = blen pre -> 0 <= v < 2 ^ (8 * Z.of_nat n) ->
  readUIntLE n (pre ++ le_split n v ++ post) o = Ok v.
Proof.
  intros -> Hv. rewrite readUIntLE_in_range.
  - unfold blen. rewrite Nat2Z.id, drop_app_length.
    rewrite <- (length_le_split n v) at 1. rewrite take_app_length.
    rewrite le_combine_split_small by exact Hv. reflexivity.
  - unfold blen. lia.
  - unfold blen. rewrite !length_app, length_le_split. lia.
Qed.

Lemma subarray_middle (pre mid post : Buffer) (s e : Z) :
  s = blen pre -> e = blen pre + blen mid ->
  subarray (pre ++ mid ++ post) s e = mid.
Proof.
  intros -> ->. unfold subarray, rel_index, blen.
  rewrite !length_app.
  destruct (Z.ltb_spec (Z.of_nat (length pre)) 0); [lia|].
  destruct (Z.ltb_spec (Z.of_nat (length pre) + Z.of_nat (length mid)) 0);
    [lia|].
  rewrite !Z.min_l by lia.
  replace (Z.of_nat (length pre) + Z.of_nat (length mid)
           - Z.of_nat (length pre)) with (Z.of_nat (length mid)) by lia.
  rewrite !Nat2Z.id, drop_app_length, take_app_length. reflexivity.
Qed.

Section Auxiliary.
Context `{DvtEnv}.

Lemma parseAuxiliaryValue_built (auxValue : MessageAuxValue) (vb : Buffer) :
  aux_item_value auxValue = Ok vb ->
  forall pre post o,
    o = blen pre ->
    parseAuxiliaryValue (pre ++ vb ++ post) (aux_type auxValue) o
    = Ok (received_aux auxValue, o + blen vb).
Proof.
  unfold aux_item_value, parseAuxiliaryValue, received_aux.
  intros Hvb pre post o ->.
  destruct (aux_type auxValue =? DTX_CONSTANTS.AUX_TYPE_INT32).
  { destruct (aux_value auxValue) as [| | | v | | | | | | |];
      try discriminate.
    apply uint_buffer_inv in Hvb. destruct Hvb as [Hv ->].
    unfold readUInt32LE. rewrite readUIntLE_app by (reflexivity || assumption).
    cbn [rbind]. unfold blen. rewrite length_le_split. reflexivity. }
  destruct (aux_type auxValue =? DTX_CONSTANTS.AUX_TYPE_INT64).
  { destruct (aux_value auxValue) as [| | | v | v | | | | | |];
      try discriminate;
      (apply uint_buffer_inv in Hvb; destruct Hvb as [Hv ->];
       unfold readBigUInt64LE;
       rewrite readUIntLE_app by (reflexivity || assumption);
       cbn [rbind]; unfold blen; rewrite length_le_split; reflexivity). }
  destruct (aux_type auxValue =? DTX_CONSTANTS.AUX_TYPE_OBJECT);
    [|discriminate].
  destruct (uint_buffer 4 (blen (archiveValue (aux_value auxValue))))
    as [lengthBuffer |] eqn:Hlen; [|discriminate].
  cbn [rbind] in Hvb. injection Hvb as <-.
  apply uint_buffer_inv in Hlen. destruct Hlen as [Hl ->].
  rewrite <- app_assoc.
  unfold readUInt32LE. rewrite readUIntLE_app by (reflexivity || assumption).
  cbn [rbind].
  replace (pre ++ le_split 4 (blen (archiveValue (aux_value auxValue)))
               ++ archiveValue (aux_value auxValue) ++ post)
    with ((pre ++ le_split 4 (blen (archiveValue (aux_value auxValue))))
            ++ archiveValue (aux_value auxValue) ++ post)
    by (rewrite <- app_assoc; reflexivity).
  rewrite subarray_middle;
    [| unfold blen; rewrite length_app, length_le_split; lia
     | unfold blen; rewrite length_app, length_le_split; lia].
  f_equal. f_equal. unfold blen.
  rewrite length_app, length_le_split. lia.
Qed.

Lemma aux_items_cons_inv (auxValue : MessageAuxValue)
      (rest : list MessageAuxValue) (b : Buffer) :
  aux_items (auxValue :: rest) = Ok b ->
  exists vb rb,
    aux_item_value auxValue = Ok vb /\ aux_items rest = Ok rb /\
    0 <= aux_type auxValue < 2 ^ 32 /\
    b = le_split 4 DTX_CONSTANTS.EMPTY_DICTIONARY
        ++ le_split 4 (aux_type auxValue) ++ vb ++ rb.
Proof.
  cbn [aux_items].
  destruct (uint_buffer 4 DTX_CONSTANTS.EMPTY_DICTIONARY) as [m|] eqn:Hm;
    [|discriminate].
  destruct (uint_buffer 4 (aux_type auxValue)) as [t|] eqn:Ht;
    [|discriminate].
  cbn [rbind].
  destruct (aux_item_value auxValue) as [vb|]; [|discriminate].
  destruct (aux_items rest) as [rb|]; [|discriminate].
  cbn [rbind]. intros [= <-].
  apply uint_buffer_inv in Hm. destruct Hm as [_ ->].
  apply uint_buffer_inv in Ht. destruct Ht as [Hrange ->].
  exists vb, rb. repeat split; try reflexivity; apply Hrange.
Qed.

Lemma parse_aux_items_built (values : list MessageAuxValue) :
  forall (fuel : nat) (items pre : Buffer) (acc : list JSValue),
    aux_items values = Ok items ->
    (length values < fuel)%nat ->
    parse_aux_items fuel (pre ++ items) (blen pre + blen items) (blen pre) acc
    = Some (Ok (acc ++ map received_aux values)).
Proof.
  induction values as [| auxValue rest IH];
    intros fuel items pre acc Hitems Hfuel.
  - injection Hitems as <-. rewrite app_nil_r.
    destruct fuel; cbn [parse_aux_items map];
      (destruct (Z.ltb_spec (blen pre) (blen pre + blen []));
       [unfold blen in *; cbn in *; lia |]); cbn [andb];
      rewrite app_nil_r; reflexivity.
  - destruct (aux_items_cons_inv _ _ _ Hitems)
      as (vb & rb & Hvb & Hrb & Htype & ->).
    destruct fuel as [| fuel]; [cbn in Hfuel; lia|].
    set (m := le_split 4 DTX_CONSTANTS.EMPTY_DICTIONARY).
    set (t := le_split 4 (aux_type auxValue)).
    assert (Hm : blen m = 4) by (unfold blen, m; rewrite length_le_split; lia).
    assert (Ht : blen t = 4) by (unfold blen, t; rewrite length_le_split; lia).
    assert (Hlens : blen (m ++ t ++ vb ++ rb) = 8 + blen vb + blen rb).
    { unfold blen in *. rewrite !length_app. lia. }
    cbn [parse_aux_items].
    destruct (Z.ltb_spec (blen pre) (blen pre + blen (m ++ t ++ vb ++ rb)));
      [| unfold blen in *; lia].
    destruct (Z.ltb_spec (blen pre) (blen (pre ++ m ++ t ++ vb ++ rb)));
      [| unfold blen in *; rewrite !length_app in *; lia].
    cbn [andb].
    unfold readUInt32LE at 1. unfold m at 1.
    rewrite readUIntLE_app; [| reflexivity | vm_compute; split; congruence].
    rewrite Z.eqb_refl. fold m.
    replace (pre ++ m ++ t ++ vb ++ rb) with ((pre ++ m) ++ t ++ vb ++ rb)
      by (rewrite <- app_assoc; reflexivity).
    unfold readUInt32LE at 1. unfold t at 1.
    rewrite readUIntLE_app;
      [| unfold blen in *; rewrite length_app; lia | exact Htype].
    fold t.
    replace ((pre ++ m) ++ t ++ vb ++ rb) with ((pre ++ m ++ t) ++ vb ++ rb)
      by (rewrite <- !app_assoc; reflexivity).
    rewrite (parseAuxiliaryValue_built _ _ Hvb (pre ++ m ++ t) rb)
      by (unfold blen in *; rewrite !length_app; lia).
    replace ((pre ++ m ++ t) ++ vb ++ rb) with ((pre ++ m ++ t ++ vb) ++ rb)
      by (rewrite <- !app_assoc; reflexivity).
    replace (blen pre + blen (m ++ t ++ vb ++ rb))
      with (blen (pre ++ m ++ t ++ vb) + blen rb)
      by (unfold blen in *; rewrite !length_app; lia).
    replace (blen pre + 4 + 4 + blen vb) with (blen (pre ++ m ++ t ++ vb))
      by (unfold blen in *; rewrite !length_app; lia).
    rewrite (IH fuel rb (pre ++ m ++ t ++ vb) _ Hrb)
      by (cbn in Hfuel; lia).
    cbn [map]. rewrite <- app_assoc. reflexivity.
Qed.

Lemma aux_header_bytes (a b : Z) (header : Buffer) :
  (header1 <- writeBigUInt64LE (alloc 16) a 0 ;;
   writeBigUInt64LE header1 b 8) = Ok header ->
  0 <= a < 2 ^ 64 /\ 0 <= b < 2 ^ 64 /\
  header = le_split 8 a ++ le_split 8 b.
Proof.
  unfold writeBigUInt64LE, writeUIntLE.
  destruct (Z.leb_spec 0 a); [|discriminate].
  destruct (Z.ltb_spec a (2 ^ (8 * Z.of_nat 8))); [|discriminate].
  cbn [andb]. change (Z.of_nat 0 + Z.of_nat 8 <=? blen (alloc 16)) with true.
  cbn [rbind].
  destruct (Z.leb_spec 0 b); [|discriminate].
  destruct (Z.ltb_spec b (2 ^ (8 * Z.of_nat 8))); [|discriminate].
  cbn [andb]. destruct (_ <=? _); [|discriminate].
  intros [= <-]. split; [lia|]. split; [lia|].
  unfold write_at. rewrite !length_le_split.
  cbn [firstn app Nat.add].
  change (skipn 8 (alloc 16)) with (alloc 8).
  change (take 0 (alloc 16)) with (@nil Init.Byte.byte). cbn [app].
  rewrite (take_app_length' (le_split 8 a))
    by (symmetry; apply length_le_split).
  rewrite skipn_all2;
    [rewrite app_nil_r; reflexivity
    | rewrite length_app, length_le_split; cbn; lia].
Qed.

Lemma parseAuxiliaryData_built (values : list MessageAuxValue)
      (buffer : Buffer) (fuel : nat) :
  buildAuxiliaryData values = Ok buffer ->
  (length values < fuel)%nat ->
  parseAuxiliaryData fuel buffer = Some (Ok (map received_aux values)).
Proof.
  unfold buildAuxiliaryData. destruct values as [| auxValue rest].
  { intros [= <-] _. reflexivity. }
  destruct (aux_items (auxValue :: rest)) as [items |] eqn:Hitems;
    [|discriminate].
  cbn [rbind]. intros Hhdr Hfuel.
  destruct (writeBigUInt64LE (alloc 16) DTX_CONSTANTS.MESSAGE_AUX_MAGIC 0)
    as [h1 |] eqn:H1; [|discriminate].
  cbn [rbind] in Hhdr.
  destruct (writeBigUInt64LE h1 (blen items) 8) as [h2 |] eqn:H2;
    [|discriminate].
  cbn [rbind] in Hhdr. injection Hhdr as <-.
  destruct (aux_header_bytes DTX_CONSTANTS.MESSAGE_AUX_MAGIC (blen items) h2)
    as (Hmagic & Hsize & ->).
  { rewrite H1. cbn [rbind]. exact H2. }
  set (magic := le_split 8 DTX_CONSTANTS.MESSAGE_AUX_MAGIC).
  set (size := le_split 8 (blen items)).
  assert (Hlm : blen magic = 8)
    by (unfold blen, magic; rewrite length_le_split; lia).
  assert (Hls : blen size = 8)
    by (unfold blen, size; rewrite length_le_split; lia).
  unfold parseAuxiliaryData.
  destruct (Z.ltb_spec (blen ((magic ++ size) ++ items)) 16);
    [unfold blen in *; rewrite !length_app in *; lia|].
  rewrite <- !app_assoc.
  unfold readBigUInt64LE at 1. unfold magic at 1.
  rewrite (readUIntLE_app 8 [] (size ++ items)
             DTX_CONSTANTS.MESSAGE_AUX_MAGIC 0 eq_refl Hmagic
           : readUIntLE 8 (le_split 8 DTX_CONSTANTS.MESSAGE_AUX_MAGIC
                           ++ size ++ items) 0 = Ok _).
  rewrite Z.eqb_refl. cbn [negb]. fold magic.
  unfold parseAuxiliaryStandard.
  replace (magic ++ size ++ items) with (magic ++ size ++ items ++ [])
    by (rewrite app_nil_r; reflexivity).
  unfold readBigUInt64LE at 1. unfold size at 1.
  rewrite (readUIntLE_app 8 magic _ _ 8); [| lia | exact Hsize].
  fold size. rewrite app_nil_r.
  replace (magic ++ size ++ items) with ((magic ++ size) ++ items)
    by (rewrite <- app_assoc; reflexivity).
  replace 16 with (blen (magic ++ size))
    by (unfold blen in *; rewrite length_app; lia).
  rewrite (parse_aux_items_built _ fuel items (magic ++ size) [] Hitems Hfuel).
  reflexivity.
Qed.

End Auxiliary.

(** X9.  Round trip of the auxiliary values of a message.  Whatever
    [buildAuxiliaryData] encodes, [parseAuxiliaryData] parses back, given
    fuel for the number of values: a 32-bit integer as the same number,
    a 64-bit integer as a BigInt of the same value, and an object as the
    property list of its archive, not decoded. *)
Theorem auxiliary_round_trip `{DvtEnv} (values : list MessageAuxValue)
        (buffer : Buffer) (fuel : nat) :
  buildAuxiliaryData values = Ok buffer ->
  (length values < fuel)%nat ->
  parseAuxiliaryData fuel buffer = Some (Ok (map received_aux values)).
Proof. apply parseAuxiliaryData_built. Qed.

Lemma auxiliary_round_trip_witness :
  exists buffer,
    buildAuxiliaryData (H := toy_plist_env)
      (MessageAux.appendLong 9 (MessageAux.appendInt 7 [])) = Ok buffer /\
    parseAuxiliaryData (H := toy_plist_env) 3 buffer
    = Some (Ok [JNum 7; JBigInt 9]).
Proof.
  eexists. split; [vm_compute; reflexivity|].
  apply (auxiliary_round_trip (H := toy_plist_env)
           (MessageAux.appendLong 9 (MessageAux.appendInt 7 [])));
    [vm_compute; reflexivity | cbn; lia].
Defined.

(** ** The instrumentation service: messages *)

Lemma writeUIntLE_inv (n : nat) (b : Buffer) (v : Z) (off : nat) (b' : Buffer) :
  writeUIntLE n b v off = Ok b' -> 0 <= v < 2 ^ (8 * Z.of_nat n).
Proof.
  unfold writeUIntLE.
  destruct (Z.leb_spec 0 v); [|discriminate].
  destruct (Z.ltb_spec v (2 ^ (8 * Z.of_nat n))); [|discriminate].
  intros _. lia.
Qed.

Lemma writeInt32LE_inv (b : Buffer) (v : Z) (off : nat) (b' : Buffer) :
  writeInt32LE b v off = Ok b' -> - 2 ^ 31 <= v < 2 ^ 31.
Proof.
  unfold writeInt32LE.
  destruct (Z.leb_spec (- 2 ^ 31) v); [|discriminate].
  destruct (Z.ltb_spec v (2 ^ 31)); [|discriminate].
  intros _. lia.
Qed.

Ltac next_write :=
  match goal with
  | |- rbind ?w _ = Ok _ -> _ =>
      let Hw := fresh "Hw" in
      destruct w eqn:Hw; [cbn [rbind] | discriminate];
      first [ apply writeUIntLE_inv in Hw | apply writeInt32LE_inv in Hw ]
  end.

Lemma buildMessageHeader_fits (h : DTXMessageHeader) (buf : Buffer) :
  DTXMessage.buildMessageHeader h = Ok buf -> header_fits h.
Proof.
  unfold DTXMessage.buildMessageHeader, writeUInt32LE, writeUInt16LE.
  cbv zeta. do 9 next_write. intros _.
  unfold header_fits. repeat split; lia.
Qed.

Lemma buildPayloadHeader_fits (p : DTXMessagePayloadHeader) (buf : Buffer) :
  DTXMessage.buildPayloadHeader p = Ok buf -> payload_header_fits p.
Proof.
  unfold DTXMessage.buildPayloadHeader, writeUInt32LE, writeBigUInt64LE.
  cbv zeta. do 3 next_write. intros _.
  unfold payload_header_fits. repeat split; lia.
Qed.

Lemma readUIntLE_prefix (n : nat) (a b : Buffer) (off : Z) :
  0 <= off -> off + Z.of_nat n <= blen a ->
  readUIntLE n (a ++ b) off = readUIntLE n a off.
Proof.
  intros Hoff Hlen.
  rewrite !readUIntLE_in_range;
    [| lia | lia | lia | unfold blen in *; rewrite length_app; lia].
  f_equal. f_equal. unfold blen in Hlen.
  rewrite skipn_app, firstn_app.
  rewrite length_skipn.
  replace (n - (length a - Z.to_nat off))%nat with 0%nat by lia.
  cbn [firstn]. apply app_nil_r.
Qed.

Lemma parseMessageHeader_prefix (buf rest : Buffer) :
  blen buf = DTX_CONSTANTS.MESSAGE_HEADER_SIZE ->
  DTXMessage.parseMessageHeader (buf ++ rest)
  = DTXMessage.parseMessageHeader buf.
Proof.
  intros Hlen. unfold DTXMessage.parseMessageHeader.
  unfold DTX_CONSTANTS.MESSAGE_HEADER_SIZE in *.
  destruct (Z.ltb_spec (blen (buf ++ rest)) 32);
    [unfold blen in *; rewrite length_app in *; lia|].
  destruct (Z.ltb_spec (blen buf) 32); [lia|].
  unfold readInt32LE, readUInt32LE, readUInt16LE.
  rewrite !readUIntLE_prefix by (cbn; lia). reflexivity.
Qed.

Lemma parsePayloadHeader_prefix (buf rest : Buffer) :
  blen buf = DTX_CONSTANTS.PAYLOAD_HEADER_SIZE ->
  DTXMessage.parsePayloadHeader (buf ++ rest)
  = DTXMessage.parsePayloadHeader buf.
Proof.
  intros Hlen. unfold DTXMessage.parsePayloadHeader.
  unfold DTX_CONSTANTS.PAYLOAD_HEADER_SIZE in *.
  destruct (Z.ltb_spec (blen (buf ++ rest)) 16);
    [unfold blen in *; rewrite length_app in *; lia|].
  destruct (Z.ltb_spec (blen buf) 16); [lia|].
  unfold readUInt32LE, readBigUInt64LE.
  rewrite !readUIntLE_prefix by (cbn; lia). reflexivity.
Qed.

Lemma built_message_header (h : DTXMessageHeader) (buf rest : Buffer) :
  DTXMessage.buildMessageHeader h = Ok buf ->
  blen buf = DTX_CONSTANTS.MESSAGE_HEADER_SIZE /\
  DTXMessage.parseMessageHeader (buf ++ rest) = Ok h.
Proof.
  intros Hbuild.
  destruct (parse_build_message_header h (buildMessageHeader_fits _ _ Hbuild))
    as (buf' & Hbuild' & Hlen & Hparse).
  rewrite Hbuild in Hbuild'. injection Hbuild' as <-.
  split; [exact Hlen|]. rewrite parseMessageHeader_prefix by exact Hlen.
  exact Hparse.
Qed.

Lemma built_payload_header (p : DTXMessagePayloadHeader) (buf rest : Buffer) :
  DTXMessage.buildPayloadHeader p = Ok buf ->
  blen buf = DTX_CONSTANTS.PAYLOAD_HEADER_SIZE /\
  DTXMessage.parsePayloadHeader (buf ++ rest) = Ok p.
Proof.
  intros Hbuild.
  destruct (parse_build_payload_header p (buildPayloadHeader_fits _ _ Hbuild))
    as (buf' & Hbuild' & Hlen & Hparse).
  rewrite Hbuild in Hbuild'. injection Hbuild' as <-.
  split; [exact Hlen|]. rewrite parsePayloadHeader_prefix by exact Hlen.
  exact Hparse.
Qed.

Section Messages.
Context `{DvtEnv}.

(** The parts of an encoded message. *)
Lemma encode_message_parts (messageId channel : Z)
      (selector : option string) (args : option (list MessageAuxValue))
      (expectsReply : bool) (message : Buffer) :
  encode_message messageId channel selector args expectsReply = Ok message ->
  exists messageHeader payloadHeader auxBuffer,
    buildAuxiliaryData (message_values args) = Ok auxBuffer /\
    DTXMessage.buildPayloadHeader
      (mkDTXMessagePayloadHeader
         (message_flags expectsReply) (blen auxBuffer)
         (blen auxBuffer + blen (selector_bytes selector)))
    = Ok payloadHeader /\
    DTXMessage.buildMessageHeader
      (mkDTXMessageHeader
         DTX_CONSTANTS.MESSAGE_HEADER_MAGIC DTX_CONSTANTS.MESSAGE_HEADER_SIZE
         0 1
         (DTX_CONSTANTS.PAYLOAD_HEADER_SIZE + blen auxBuffer
          + blen (selector_bytes selector))
         messageId 0 channel (if expectsReply then 1 else 0))
    = Ok messageHeader /\
    message
    = messageHeader ++ payloadHeader ++ auxBuffer ++ selector_bytes selector.
Proof.
  unfold encode_message.
  assert (Haux : match args with
                 | Some values => buildAuxiliaryData values
                 | None => Ok []
                 end = buildAuxiliaryData (message_values args))
    by (destruct args; reflexivity).
  rewrite Haux.
  destruct (buildAuxiliaryData (message_values args)) as [auxBuffer |];
    [|discriminate].
  cbn [rbind]. fold (selector_bytes selector).
  fold (message_flags expectsReply).
  destruct (DTXMessage.buildPayloadHeader _) as [payloadHeader |] eqn:Hp;
    [|discriminate].
  cbn [rbind].
  destruct (DTXMessage.buildMessageHeader _) as [messageHeader |] eqn:Hm;
    [|discriminate].
  cbn [rbind]. intros [= <-].
  exists messageHeader, payloadHeader, auxBuffer. repeat split; assumption.
Qed.

Lemma sent_message_layout_holds (messageId channel : Z)
      (selector : option string) (args : option (list MessageAuxValue))
      (expectsReply : bool) (message : Buffer) :
  encode_message messageId channel selector args expectsReply = Ok message ->
  exists auxBuffer,
    buildAuxiliaryData (message_values args) = Ok auxBuffer /\
    skipn 48 message = auxBuffer ++ selector_bytes selector /\
    DTXMessage.parseMessageHeader message
    = Ok (mkDTXMessageHeader
            DTX_CONSTANTS.MESSAGE_HEADER_MAGIC
            DTX_CONSTANTS.MESSAGE_HEADER_SIZE 0 1
            (blen message - 32) messageId 0 channel
            (if expectsReply then 1 else 0)) /\
    DTXMessage.parsePayloadHeader (skipn 32 message)
    = Ok (mkDTXMessagePayloadHeader
            (message_flags expectsReply) (blen auxBuffer)
            (blen message - 48)).
Proof.
  intros Henc.
  destruct (encode_message_parts _ _ _ _ _ _ Henc)
    as (mh & ph & auxBuffer & Haux & Hph & Hmh & ->).
  destruct (built_message_header
              _ mh (ph ++ auxBuffer ++ selector_bytes selector) Hmh)
    as (Hlm & Hpm).
  destruct (built_payload_header
              _ ph (auxBuffer ++ selector_bytes selector) Hph)
    as (Hlp & Hpp).
  unfold DTX_CONSTANTS.MESSAGE_HEADER_SIZE, DTX_CONSTANTS.PAYLOAD_HEADER_SIZE
    in *.
  assert (Hm32 : length mh = 32%nat) by (unfold blen in Hlm; lia).
  assert (Hp16 : length ph = 16%nat) by (unfold blen in Hlp; lia).
  assert (Hlen : blen (mh ++ ph ++ auxBuffer ++ selector_bytes selector)
                 = 48 + blen auxBuffer + blen (selector_bytes selector)).
  { unfold blen. rewrite !length_app. lia. }
  exists auxBuffer. split; [exact Haux|]. split; [|split].
  - rewrite app_assoc.
    rewrite (drop_app_length' (mh ++ ph)) by (rewrite length_app; lia).
    reflexivity.
  - rewrite Hpm. repeat f_equal. lia.
  - rewrite (drop_app_length' mh) by lia.
    rewrite Hpp. repeat f_equal. lia.
Qed.

End Messages.

(** X10.  Layout of the messages [sendMessage] writes.  An encoded
    message is a single-fragment message: its first 32 bytes parse as a
    message header with the protocol magic, fragment 0 of 1, the message
    identifier and channel given, and a length equal to the number of
    bytes that follow the header; the next 16 bytes parse as a payload
    header whose auxiliary length is the length of the encoded auxiliary
    values and whose total length is the number of bytes that follow;
    these are the auxiliary values and then the archived selector. *)
Theorem sent_message_layout `{DvtEnv} (messageId channel : Z)
        (selector : option string) (args : option (list MessageAuxValue))
        (expectsReply : bool) (message : Buffer) :
  encode_message messageId channel selector args expectsReply = Ok message ->
  exists auxBuffer,
    buildAuxiliaryData (message_values args) = Ok auxBuffer /\
    skipn 48 message = auxBuffer ++ selector_bytes selector /\
    DTXMessage.parseMessageHeader message
    = Ok (mkDTXMessageHeader
            DTX_CONSTANTS.MESSAGE_HEADER_MAGIC
            DTX_CONSTANTS.MESSAGE_HEADER_SIZE 0 1
            (blen message - 32) messageId 0 channel
            (if expectsReply then 1 else 0)) /\
    DTXMessage.parsePayloadHeader (skipn 32 message)
    = Ok (mkDTXMessagePayloadHeader
            (message_flags expectsReply) (blen auxBuffer)
            (blen message - 48)).
Proof. apply sent_message_layout_holds. Qed.

Section Loopback.
Context `{DvtEnv}.

Lemma buildAuxiliaryData_empty (values : list MessageAuxValue) :
  buildAuxiliaryData values = Ok [] -> values = [].
Proof.
  destruct values as [| auxValue rest]; [reflexivity|].
  intros Hb. exfalso. unfold buildAuxiliaryData in Hb.
  destruct (aux_items (auxValue :: rest)) as [items |]; [|discriminate].
  cbn [rbind] in Hb.
  destruct (writeBigUInt64LE (alloc 16) DTX_CONSTANTS.MESSAGE_AUX_MAGIC 0)
    as [h1 |] eqn:H1; [|discriminate].
  cbn [rbind] in Hb.
  destruct (writeBigUInt64LE h1 (blen items) 8) as [h2 |] eqn:H2;
    [|discriminate].
  cbn [rbind] in Hb.
  destruct (aux_header_bytes DTX_CONSTANTS.MESSAGE_AUX_MAGIC (blen items) h2)
    as (_ & _ & ->).
  { rewrite H1. cbn [rbind]. exact H2. }
  assert (Hl : blen ((le_split 8 DTX_CONSTANTS.MESSAGE_AUX_MAGIC
                       ++ le_split 8 (blen items)) ++ items) = 0).
  { assert (Hnil : (le_split 8 DTX_CONSTANTS.MESSAGE_AUX_MAGIC
                      ++ le_split 8 (blen items)) ++ items = [])
      by (inversion Hb; reflexivity).
    rewrite Hnil. reflexivity. }
  unfold blen in Hl. rewrite !length_app, !length_le_split in Hl. lia.
Qed.

Lemma decode_sent_message (messageId channel : Z)
      (selector : option string) (args : option (list MessageAuxValue))
      (expectsReply : bool) (message : Buffer) (fuel : nat) :
  encode_message messageId channel selector args expectsReply = Ok message ->
  (length (message_values args) < fuel)%nat ->
  decode_packet fuel (skipn 32 message)
  = if expectsReply
    then Some (Throw (Err "Compressed messages not supported"))
    else Some (Ok (if 0 <? blen (selector_bytes selector)
                   then Some (selector_bytes selector)
                   else None,
                   map received_aux (message_values args))).
Proof.
  intros Henc Hfuel.
  destruct (encode_message_parts _ _ _ _ _ _ Henc)
    as (mh & ph & auxBuffer & Haux & Hph & Hmh & ->).
  destruct (built_message_header
              _ mh (ph ++ auxBuffer ++ selector_bytes selector) Hmh)
    as (Hlm & _).
  destruct (built_payload_header
              _ ph (auxBuffer ++ selector_bytes selector) Hph)
    as (Hlp & Hpp).
  unfold DTX_CONSTANTS.MESSAGE_HEADER_SIZE, DTX_CONSTANTS.PAYLOAD_HEADER_SIZE
    in *.
  rewrite (drop_app_length' mh) by (unfold blen in Hlm; lia).
  unfold decode_packet. rewrite Hpp. cbn [flags auxiliaryLength totalLength].
  destruct expectsReply; [reflexivity|].
  change (negb (Z.shiftr (Z.land (message_flags false) 0xff000) 12 =? 0))
    with false. cbv iota.
  unfold DTX_CONSTANTS.PAYLOAD_HEADER_SIZE.
  replace (blen auxBuffer + blen (selector_bytes selector) - blen auxBuffer)
    with (blen (selector_bytes selector)) by lia.
  pose proof (parseAuxiliaryData_built _ _ _ Haux Hfuel) as Hparse.
  destruct (Z.ltb_spec 0 (blen auxBuffer)) as [Hpos | Hzero].
  - rewrite subarray_middle by (unfold blen in *; lia).
    rewrite Hparse.
    destruct (Z.ltb_spec 0 (blen (selector_bytes selector)));
      [|reflexivity].
    replace (ph ++ auxBuffer ++ selector_bytes selector)
      with ((ph ++ auxBuffer) ++ selector_bytes selector ++ [])
      by (rewrite app_nil_r, <- app_assoc; reflexivity).
    rewrite subarray_middle;
      [reflexivity | unfold blen in *; rewrite length_app; lia
      | unfold blen in *; rewrite length_app; lia].
  - assert (auxBuffer = []) as ->.
    { destruct auxBuffer; [reflexivity|]. unfold blen in Hzero.
      cbn in Hzero. lia. }
    rewrite (buildAuxiliaryData_empty _ Haux). cbn [map app].
    destruct (Z.ltb_spec 0 (blen (selector_bytes selector)));
      [|reflexivity].
    replace (ph ++ selector_bytes selector)
      with (ph ++ selector_bytes selector ++ [])
      by (rewrite app_nil_r; reflexivity).
    rewrite subarray_middle; [reflexivity | lia | lia].
Qed.

End Loopback.

(** X11.  What the receive path makes of a message the send path
    encodes.  The payload of a message encoded without the expects-reply
    flag is decoded to the archived selector (or null when there is
    none) and to the auxiliary values as the receiver reads them.  With
    the expects-reply flag, the flag bit (0x1000) falls within the bits
    the receiver reads as the compression type (0xff000), and the
    payload is rejected as compressed. *)
Theorem sent_message_decoding `{DvtEnv} (messageId channel : Z)
        (selector : option string) (args : option (list MessageAuxValue))
        (expectsReply : bool) (message : Buffer) (fuel : nat) :
  encode_message messageId channel selector args expectsReply = Ok message ->
  (length (message_values args) < fuel)%nat ->
  decode_packet fuel (skipn 32 message)
  = if expectsReply
    then Some (Throw (Err "Compressed messages not supported"))
    else Some (Ok (if 0 <? blen (selector_bytes selector)
                   then Some (selector_bytes selector)
                   else None,
                   map received_aux (message_values args))).
Proof. apply decode_sent_message. Qed.

Lemma sent_message_layout_witness :
  exists message,
    encode_message (H := toy_plist_env) 2 1 (Some "ping"%string)
                   (Some (MessageAux.appendInt 7 [])) true = Ok message /\
    DTXMessage.parseMessageHeader message
    = Ok (mkDTXMessageHeader DTX_CONSTANTS.MESSAGE_HEADER_MAGIC 32 0 1
                             (blen message - 32) 2 0 1 1).
Proof.
  destruct (encode_message (H := toy_plist_env) 2 1 (Some "ping"%string)
                           (Some (MessageAux.appendInt 7 [])) true)
    as [message |] eqn:Henc; [| vm_compute in Henc; discriminate].
  exists message. split; [reflexivity|].
  destruct (sent_message_layout (H := toy_plist_env) 2 1 (Some "ping"%string)
              (Some (MessageAux.appendInt 7 [])) true message Henc)
    as (auxBuffer & _ & _ & Hheader & _).
  exact Hheader.
Defined.

Lemma sent_message_decoding_witness :
  (exists message,
      encode_message (H := toy_plist_env) 2 1 (Some "ping"%string)
                     (Some (MessageAux.appendInt 7 [])) false = Ok message /\
      decode_packet (H := toy_plist_env) 2 (skipn 32 message)
      = Some (Ok (Some (utf8_bytes "bplist00"), [JNum 7]))) /\
  (exists message,
      encode_message (H := toy_plist_env) 2 1 (Some "ping"%string)
                     (Some (MessageAux.appendInt 7 [])) true = Ok message /\
      decode_packet (H := toy_plist_env) 2 (skipn 32 message)
      = Some (Throw (Err "Compressed messages not supported"))).
Proof.
  split.
  - destruct (encode_message (H := toy_plist_env) 2 1 (Some "ping"%string)
                             (Some (MessageAux.appendInt 7 [])) false)
      as [message |] eqn:Henc; [| vm_compute in Henc; discriminate].
    exists message. split; [reflexivity|].
    apply (sent_message_decoding (H := toy_plist_env) 2 1 (Some "ping"%string)
             (Some (MessageAux.appendInt 7 [])) false message 2 Henc).
    cbn. lia.
  - destruct (encode_message (H := toy_plist_env) 2 1 (Some "ping"%string)
                             (Some (MessageAux.appendInt 7 [])) true)
      as [message |] eqn:Henc; [| vm_compute in Henc; discriminate].
    exists message. split; [reflexivity|].
    apply (sent_message_decoding (H := toy_plist_env) 2 1 (Some "ping"%string)
             (Some (MessageAux.appendInt 7 [])) true message 2 Henc).
    cbn. lia.
Defined.

(** ** The instrumentation service: reading from the socket *)





(** ** The instrumentation service: receiving fragments *)

Section ReceiveLoop.




End ReceiveLoop.

Section Delivery.




End Delivery.



Section Reassembly2.





End Reassembly2.



Section Demultiplexing.


End Demultiplexing.



(** ** The instrumentation service: message identifiers and errors *)

Section MessageIds.
Context `{DvtEnv} `{JsCoercion}.

Lemma id_grows_ret {A : Type} (a : A) : id_grows (@sef_ret DVTService A a).
Proof. intros svc r svc' [= <- <-]. lia. Qed.

Lemma id_grows_throw {A : Type} (e : JsError) :
  id_grows (@sef_throw DVTService A e).
Proof. intros svc r svc' [= <- <-]. lia. Qed.

Lemma id_grows_of {A : Type} (o : option (result A)) :
  id_grows (@sef_of DVTService A o).
Proof.
  intros svc r svc'. unfold sef_of. destruct o; [|discriminate].
  intros [= <- <-]. lia.
Qed.

Lemma id_grows_bind {A B : Type} (m : SEF DVTService A)
      (k : A -> SEF DVTService B) :
  id_grows m -> (forall a, id_grows (k a)) -> id_grows (sef_bind m k).
Proof.
  intros Hm Hk svc r svc'. unfold sef_bind.
  destruct (m svc) as [[[a | e] svc1]|] eqn:Hrun; [| |discriminate].
  - intros Hk1. pose proof (Hm _ _ _ Hrun). pose proof (Hk a _ _ _ Hk1). lia.
  - intros [= <- <-]. exact (Hm _ _ _ Hrun).
Qed.

Lemma id_grows_readExact (length : Z) : id_grows (dvt_readExact length).
Proof.
  intros svc r svc'. unfold dvt_readExact.
  destruct (dvt_socket svc) as [s|].
  - destruct (dvt_await length (readBuffer svc) (sock_events s))
      as [[[[e|] buffer] events']|]; [| |discriminate];
      intros [= <- <-]; cbn; lia.
  - intros [= <- <-]. lia.
Qed.

Lemma id_grows_set_channelMessages (m : gmap Z ChannelFragmenter) :
  id_grows (set_channelMessages m).
Proof. intros svc r svc' [= <- <-]. cbn. lia. Qed.

Lemma id_grows_track (rc ci id : Z) {A : Type} (k : SEF DVTService A) :
  id_grows k ->
  id_grows
    (svc <~~ get_service ;;
     _ <~~ (match channelMessages svc !! rc with
            | Some _ => sef_ret tt
            | None =>
                set_channelMessages
                  (<[rc := new_ChannelFragmenter]> (channelMessages svc))
            end) ;;
     _ <~~ (if (ci =? 0) && (curMessageId svc <? id)
            then set_curMessageId id
            else sef_ret tt) ;;
     k).
Proof.
  intros Hk svc r svc'. unfold sef_bind, get_service.
  destruct (channelMessages svc !! rc);
    unfold sef_ret, set_channelMessages;
    destruct ((ci =? 0) && (curMessageId svc <? id)) eqn:Hnew;
    unfold set_curMessageId, sef_ret; intros Hrun;
    apply Hk in Hrun; cbn in Hrun;
    try (apply andb_prop in Hnew; destruct Hnew as [_ Hlt];
         apply Z.ltb_lt in Hlt); lia.
Qed.

Lemma id_grows_recvPacketFragments (fuel : nat) (channel : Z) :
  id_grows (recvPacketFragments fuel channel).
Proof.
  induction fuel as [| fuel IH]; cbn [recvPacketFragments].
  - intros svc r svc' [=].
  - apply id_grows_bind; [intros svc r svc' [= <- <-]; lia | intros svc0].
    destruct (channelMessages svc0 !! channel) as [fragmenter|];
      [|apply id_grows_throw].
    destruct (ChannelFragmenter.get fragmenter) as [[message|] fragmenter'].
    + apply id_grows_bind;
        [apply id_grows_set_channelMessages | intros _; apply id_grows_ret].
    + apply id_grows_bind; [apply id_grows_readExact | intros hd].
      apply id_grows_bind; [apply id_grows_of | intros header].
      cbv zeta. apply id_grows_track.
      destruct (_ && _); [exact IH|].
      apply id_grows_bind; [apply id_grows_readExact | intros md].
      apply id_grows_bind; [intros s0 r0 s0' [= <- <-]; lia | intros svc3].
      apply id_grows_bind; [|intros _; exact IH].
      destruct (channelMessages svc3 !! _);
        [apply id_grows_set_channelMessages | apply id_grows_throw].
Qed.

Lemma id_grows_recvMessage (fuel : nat) (channel : Z) :
  id_grows (recvMessage fuel channel).
Proof.
  unfold recvMessage. apply id_grows_bind;
    [apply id_grows_recvPacketFragments | intros; apply id_grows_of].
Qed.

Lemma id_grows_recvPlist (fuel : nat) (channel : Z) :
  id_grows (recvPlist fuel channel).
Proof.
  unfold recvPlist. apply id_grows_bind;
    [apply id_grows_recvMessage | intros [data aux]].
  destruct data as [[| b bs]|]; try apply id_grows_ret.
  destruct (parseBinaryPlist (b :: bs)); [|apply id_grows_ret].
  destruct (decodeNSKeyedArchiver fuel a) as [[v | e]|];
    try apply id_grows_ret.
  intros svc r svc' [=].
Qed.

Lemma sendMessage_id (channel : Z) (selector : option string)
      (args : option (list MessageAuxValue)) (expectsReply : bool)
      (svc svc' : DVTService) (r : result unit) :
  sendMessage channel selector args expectsReply svc = (r, svc') ->
  match dvt_socket svc with
  | Some _ => curMessageId svc' = curMessageId svc + 1
  | None => svc' = svc /\ r = Throw (Err "Not connected to DVT service")
  end.
Proof.
  unfold sendMessage. destruct (dvt_socket svc) as [s|].
  - destruct (encode_message _ _ _ _ _) as [message | e].
    + destruct (socket_write message s) as [r' s']. intros [= <- <-].
      reflexivity.
    + intros [= <- <-]. reflexivity.
  - intros [= <- <-]. split; reflexivity.
Qed.

Lemma recvPlist_throws (fuel : nat) (channel : Z) (svc svc' : DVTService)
      (e : JsError) :
  recvPlist fuel channel svc = Some (Throw e, svc') <->
  recvMessage fuel channel svc = Some (Throw e, svc').
Proof.
  unfold recvPlist, sef_bind.
  destruct (recvMessage fuel channel svc) as [[[[data aux] | e'] svc1]|];
    [| split; intros [= -> ->]; reflexivity | split; discriminate].
  split; [|discriminate].
  destruct data as [[| b bs]|]; try discriminate.
  destruct (parseBinaryPlist (b :: bs)); [|discriminate].
  destruct (decodeNSKeyedArchiver fuel a) as [[v | e']|]; discriminate.
Qed.

Lemma recvPlist_returns (fuel : nat) (channel : Z) (svc svc' : DVTService)
      (data : option Buffer) (aux : list JSValue) :
  (1001 <= fuel)%nat ->
  recvMessage fuel channel svc = Some (Ok (data, aux), svc') ->
  exists decoded,
    recvPlist fuel channel svc = Some (Ok (decoded, aux), svc') /\
    (match data with
     | Some ((_ :: _) as bytes) =>
         forall e, parseBinaryPlist bytes = Throw e -> decoded = JNull
     | _ => decoded = JNull
     end).
Proof.
  intros Hfuel Hrecv. unfold recvPlist, sef_bind. rewrite Hrecv.
  destruct data as [[| b bs]|]; try (eexists; split; reflexivity).
  destruct (parseBinaryPlist (b :: bs)) as [parsed | e'].
  - destruct (decodeNSKeyedArchiver_returns fuel parsed Hfuel) as (v & ->).
    eexists. split; [reflexivity|]. intros e; discriminate.
  - eexists. split; [reflexivity|]. reflexivity.
Qed.

End MessageIds.

(** X16.  Message identifiers only grow.  Receiving, whatever its
    outcome, never lowers the message identifier the service tracks; a
    send on a connected service raises it by exactly one, also when the
    message cannot be encoded or written, and the message written
    carries the raised identifier; a send without connection throws and
    changes nothing. *)
Theorem message_identifiers_grow `{DvtEnv} `{JsCoercion}
        (fuel : nat) (channel : Z) (selector : option string)
        (args : option (list MessageAuxValue)) (expectsReply : bool)
        (svc svc' : DVTService) :
  (forall r, recvPacketFragments fuel channel svc = Some (r, svc') ->
             curMessageId svc <= curMessageId svc') /\
  (forall r, recvMessage fuel channel svc = Some (r, svc') ->
             curMessageId svc <= curMessageId svc') /\
  (forall r, recvPlist fuel channel svc = Some (r, svc') ->
             curMessageId svc <= curMessageId svc') /\
  (forall r, sendMessage channel selector args expectsReply svc = (r, svc') ->
             match dvt_socket svc with
             | Some _ => curMessageId svc' = curMessageId svc + 1
             | None => svc' = svc /\
                       r = Throw (Err "Not connected to DVT service")
             end) /\
  (sendMessage channel selector args expectsReply svc = (Ok tt, svc') ->
   exists s s' message,
     dvt_socket svc = Some s /\ dvt_socket svc' = Some s' /\
     sock_written s' = sock_written s ++ [message] /\
     exists h, DTXMessage.parseMessageHeader message = Ok h /\
               identifier h = curMessageId svc').
Proof.
  split; [intros r; apply id_grows_recvPacketFragments|].
  split; [intros r; apply id_grows_recvMessage|].
  split; [intros r; apply id_grows_recvPlist|].
  split; [intros r; apply sendMessage_id|].
  intros Hsend.
  destruct (sendMessage_spec _ _ _ _ _ _ _ Hsend) as (_ & _ & _ & _ & Hw).
  destruct (Hw eq_refl) as (s & s' & message & Hs & Henc & Hs' & Hwritten).
  exists s, s', message. repeat split; try assumption.
  destruct (sent_message_layout_holds _ _ _ _ _ _ Henc)
    as (auxBuffer & _ & _ & Hheader & _).
  eexists. split; [exact Hheader|]. cbn [identifier].
  pose proof (sendMessage_id _ _ _ _ _ _ _ Hsend) as Hid.
  rewrite Hs in Hid. symmetry. exact Hid.
Qed.

(** X17.  [recvPlist] swallows decoding errors.  It throws exactly when
    [recvMessage] throws, with the same error; when [recvMessage]
    returns, [recvPlist] returns the same auxiliary values, and the
    decoded data is null when the message carries no data or when its
    data is not a property list that can be parsed. *)
Theorem recvPlist_errors `{DvtEnv} `{JsCoercion} (fuel : nat) (channel : Z)
        (svc svc' : DVTService) (e : JsError)
        (data : option Buffer) (aux : list JSValue) :
  (recvPlist fuel channel svc = Some (Throw e, svc') <->
   recvMessage fuel channel svc = Some (Throw e, svc')) /\
  ((1001 <= fuel)%nat ->
   recvMessage fuel channel svc = Some (Ok (data, aux), svc') ->
   exists decoded,
     recvPlist fuel channel svc = Some (Ok (decoded, aux), svc') /\
     (match data with
      | Some ((_ :: _) as bytes) =>
          forall e, parseBinaryPlist bytes = Throw e -> decoded = JNull
      | _ => decoded = JNull
      end)).
Proof.
  split; [apply recvPlist_throws | apply recvPlist_returns].
Qed.

Lemma message_identifiers_grow_witness :
  exists svc' svc'',
    sendMessage (H := toy_plist_env) 0 (Some "ping"%string) None false
                service_for_channels = (Ok tt, svc') /\
    curMessageId svc' = 2 /\
    recvMessage (H := toy_plist_env) 3 0 svc'
    = Some (Ok (None, []), svc'') /\
    2 <= curMessageId svc''.
Proof.
  pose (svc' := snd (sendMessage (H := toy_plist_env) 0 (Some "ping"%string)
                                 None false service_for_channels)).
  assert (Hsend : sendMessage (H := toy_plist_env) 0 (Some "ping"%string)
                              None false service_for_channels = (Ok tt, svc'))
    by (apply run_ok; vm_compute; reflexivity).
  destruct (sef_run_ok (recvMessage (H := toy_plist_env) 3 0) svc' (None, []))
    as (svc'' & Hrecv); [vm_compute; reflexivity|].
  exists svc', svc''.
  destruct (message_identifiers_grow (H := toy_plist_env) (H0 := plain_coercion)
              3 0 (Some "ping"%string) None false service_for_channels svc')
    as (_ & _ & _ & Hid & _).
  destruct (message_identifiers_grow (H := toy_plist_env) (H0 := plain_coercion)
              3 0 (Some "ping"%string) None false svc' svc'')
    as (_ & Hgrow & _).
  specialize (Hid _ Hsend). cbn in Hid.
  specialize (Hgrow _ Hrecv).
  split; [exact Hsend|]. split; [exact Hid|]. split; [exact Hrecv|].
  rewrite Hid in Hgrow. exact Hgrow.
Defined.

Lemma recvPlist_errors_witness :
  (exists svc',
      recvPlist (H := toy_plist_env) (H0 := plain_coercion) 1001 0
                service_compressed
      = Some (Throw (Err "Compressed messages not supported"), svc')) /\
  (exists decoded svc',
      recvPlist (H := toy_plist_env) (H0 := plain_coercion) 1001 0
                service_unknown_aux
      = Some (Ok (decoded, [JNum 7]), svc') /\ decoded = JNull).
Proof.
  split.
  - destruct (recvMessage (H := toy_plist_env) 1001 0 service_compressed)
      as [[r svc']|] eqn:Hrecv; [| vm_compute in Hrecv; discriminate].
    assert (Hr : r = Throw (Err "Compressed messages not supported")).
    { apply (f_equal (option_map fst)) in Hrecv. vm_compute in Hrecv.
      congruence. }
    subst r. exists svc'.
    apply (recvPlist_errors (H := toy_plist_env) (H0 := plain_coercion)
             1001 0 service_compressed svc'
             (Err "Compressed messages not supported") None []).
    exact Hrecv.
  - destruct (sef_run_ok (recvMessage (H := toy_plist_env) 1001 0)
                service_unknown_aux (None, [JNum 7])) as (svc' & Hrecv);
      [vm_compute; reflexivity|].
    destruct (recvPlist_errors (H := toy_plist_env) (H0 := plain_coercion)
                1001 0 service_unknown_aux svc' (Err "") None [JNum 7])
      as (_ & Hok).
    destruct (Hok ltac:(lia) Hrecv) as (decoded & Hrun & Hnull).
    exists decoded, svc'. split; assumption.
Defined.

(** ** Selectors *)

Lemma replace_underscores_get (s : string) (i : nat) :
  String.get i (replace_underscores s)
  = match String.get i s with
    | Some c => Some (if Ascii.eqb c "_" then ":"%char else c)
    | None => None
    end.
Proof.
  revert i. induction s as [| c s IH]; intros i; [reflexivity|].
  destruct i as [| i]; cbn; [reflexivity | apply IH].
Qed.

Lemma replace_underscores_idempotent (s : string) :
  replace_underscores (replace_underscores s) = replace_underscores s.
Proof.
  induction s as [| c s IH]; [reflexivity|]. cbn. rewrite IH.
  destruct (Ascii.eqb_spec c "_"); [reflexivity|].
  destruct (Ascii.eqb_spec c "_"); [contradiction | reflexivity].
Qed.

(** X18.  What [convertToSelector] changes.  The selector has, at every
    position, the character of the method name, except that an
    underscore after the first position is a colon; an underscore in
    the first position stays.  So converting is idempotent, and a name
    whose characters after the first hold no underscore is its own
    selector. *)
Theorem convertToSelector_characters (name : string) :
  (forall i,
      String.get i (convertToSelector name)
      = match String.get i name with
        | Some c =>
            Some (if Ascii.eqb c "_"
                  then if Nat.eqb i 0 then "_"%char else ":"%char
                  else c)
        | None => None
        end) /\
  convertToSelector (convertToSelector name) = convertToSelector name /\
  ((forall i, String.get (S i) name <> Some "_"%char) ->
   convertToSelector name = name).
Proof.
  split; [|split].
  - intros i. destruct name as [| c rest]; [destruct i; reflexivity|].
    unfold convertToSelector. destruct (Ascii.eqb_spec c "_") as [-> | Hc].
    + destruct i as [| i]; cbn; [reflexivity|].
      apply replace_underscores_get.
    + rewrite replace_underscores_get.
      destruct i as [| i]; cbn.
      * destruct (Ascii.eqb_spec c "_"); [contradiction | reflexivity].
      * reflexivity.
  - destruct name as [| c rest]; [reflexivity|].
    unfold convertToSelector at 2.
    destruct (Ascii.eqb_spec c "_") as [-> | Hc].
    + cbn. rewrite replace_underscores_idempotent. reflexivity.
    + cbn [replace_underscores].
      destruct (Ascii.eqb_spec c "_"); [contradiction|].
      unfold convertToSelector.
      destruct (Ascii.eqb_spec c "_"); [contradiction|].
      cbn. destruct (Ascii.eqb_spec c "_"); [contradiction|].
      rewrite replace_underscores_idempotent. reflexivity.
  - intros Hno.
    assert (Hrest : forall s, (forall i, String.get i s <> Some "_"%char) ->
                              replace_underscores s = s).
    { induction s as [| c s IH]; intros Hs; [reflexivity|].
      cbn. specialize (Hs 0%nat) as Hc. cbn in Hc.
      destruct (Ascii.eqb_spec c "_"); [congruence|].
      rewrite IH; [reflexivity|]. intros i. exact (Hs (S i)). }
    destruct name as [| c rest]; [reflexivity|].
    unfold convertToSelector. destruct (Ascii.eqb_spec c "_") as [-> | Hc].
    + rewrite Hrest; [reflexivity | exact Hno].
    + cbn. destruct (Ascii.eqb_spec c "_"); [contradiction|].
      rewrite Hrest; [reflexivity | exact Hno].
Qed.

Lemma convertToSelector_characters_witness :
  String.get 8 (convertToSelector "_request_channel_") = Some ":"%char /\
  String.get 0 (convertToSelector "_request_channel_") = Some "_"%char /\
  convertToSelector "runningProcesses" = "runningProcesses"%string.
Proof.
  destruct (convertToSelector_characters "_request_channel_") as (Hget & _).
  destruct (convertToSelector_characters "runningProcesses") as (_ & _ & Hid).
  split; [rewrite Hget; reflexivity|].
  split; [rewrite Hget; reflexivity|].
  apply Hid. intros i.
  do 16 (destruct i as [| i]; [cbn; discriminate|]).
  cbn. discriminate.
Defined.

(** ** The archive decoder: values *)

Section DecoderValues.
Context `{JsCoercion}.
Import NSKeyedArchiverDecoder.

Lemma set_delete_add (seen : list JSValue) (k : JSValue) :
  set_has seen k = false -> key_eq k k = true ->
  set_delete (set_add seen k) k = seen.
Proof.
  intros Hnot Hrefl. unfold set_add. rewrite Hnot. unfold set_delete.
  rewrite List.filter_app. cbn [List.filter]. rewrite Hrefl. cbn [negb].
  rewrite app_nil_r. unfold set_has in Hnot.
  induction seen as [| x seen IH]; [reflexivity|].
  cbn [existsb] in Hnot. apply orb_false_elim in Hnot.
  destruct Hnot as [Hx Hrest]. cbn [List.filter]. rewrite Hx. cbn [negb].
  rewrite IH by exact Hrest. reflexivity.
Qed.

Lemma key_eq_num (i : Z) : key_eq (JNum i) (JNum i) = true.
Proof. cbn. apply Z.eqb_refl. Qed.

Lemma element_at_entry (objs : list JSValue) (i : Z) :
  0 <= i -> element_at objs (JNum i) = entry objs i.
Proof.
  intros Hi. unfold element_at, entry.
  destruct (Z.ltb_spec i 0); [lia | reflexivity].
Qed.

Lemma decodeObject_leaf (fuel : nat) (objs : list JSValue) (i depth : Z)
      (st : DecodeState) :
  depth <= MAX_DECODE_DEPTH ->
  0 <= i < Z.of_nat (length objs) ->
  is_leaf (entry objs i) = true ->
  set_has (visited st) (JNum i) = false ->
  map_get (decoded st) (JNum i) = None ->
  decodeObject (S fuel) objs (JNum i) depth st
  = Some (Ok (leaf_value (entry objs i)), st).
Proof.
  intros Hdepth Hi Hleaf Hseen Hcache. cbn [decodeObject].
  replace (MAX_DECODE_DEPTH <? depth) with false
    by (symmetry; apply Z.ltb_ge; exact Hdepth).
  cbn [lt_zero ge_length].
  replace (i <? 0) with false by (symmetry; apply Z.ltb_ge; lia).
  replace (Z.of_nat (length objs) <=? i) with false
    by (symmetry; apply Z.leb_gt; lia).
  cbn [orb]. unfold sef_bind at 1, visited_has at 1. rewrite Hseen.
  unfold sef_bind at 1, decoded_get at 1. rewrite Hcache.
  unfold sef_bind at 1, visited_add at 1.
  rewrite element_at_entry by lia.
  assert (Hback : mkDecodeState
                    (set_delete (set_add (visited st) (JNum i)) (JNum i))
                    (decoded st) = st).
  { rewrite set_delete_add by (assumption || apply key_eq_num).
    destruct st; reflexivity. }
  unfold leaf_value, is_leaf in *.
  destruct (is_string "$null" (entry objs i)) eqn:Hnull.
  - cbn [orb]. unfold sef_bind, visited_delete, sef_ret.
    cbn [visited decoded]. rewrite Hback. reflexivity.
  - cbn [orb]. destruct (entry objs i) eqn:Hentry; cbn in Hleaf;
      try discriminate; cbn [negb is_type typeof];
      unfold sef_bind, visited_delete, sef_ret; cbn [visited decoded];
      rewrite Hback; reflexivity.
Qed.

Lemma decode_ref_leaf (fuel : nat) (objs : list JSValue) (self : Z)
      (ref : JSValue) (i depth : Z) (st : DecodeState) :
  leaf_reference objs self ref i ->
  depth + 1 <= MAX_DECODE_DEPTH ->
  set_has (visited st) (JNum i) = false ->
  map_get (decoded st) (JNum i) = None ->
  decode_ref (decodeObject (S fuel) objs) ref depth st
  = Some (Ok (leaf_value (entry objs i)), st).
Proof.
  intros ([-> | ->] & Hi & _ & Hleaf) Hdepth Hseen Hcache; unfold decode_ref.
  - cbn [is_type typeof]. apply decodeObject_leaf; assumption.
  - unfold uid. cbn [is_type typeof].
    unfold is_uid_object. cbn [is_type typeof truthy andb has_property
                               fields_get String.eqb Ascii.eqb Bool.eqb].
    unfold sef_bind at 1, pure at 1.
    cbn [get_property fields_get String.eqb Ascii.eqb Bool.eqb].
    unfold sef_bind at 1, pure at 1.
    apply decodeObject_leaf; assumption.
Qed.

Lemma decode_refs_leaves (fuel : nat) (objs : list JSValue) (self : Z)
      (depth : Z) (st : DecodeState) (refs : list JSValue) (idxs : list Z) :
  Forall2 (leaf_reference objs self) refs idxs ->
  depth + 1 <= MAX_DECODE_DEPTH ->
  (forall i, In i idxs ->
             set_has (visited st) (JNum i) = false /\
             map_get (decoded st) (JNum i) = None) ->
  decode_refs (decodeObject (S fuel) objs) refs depth st
  = Some (Ok (map (fun i => leaf_value (entry objs i)) idxs), st).
Proof.
  intros Hrefs Hdepth. induction Hrefs as [| ref i refs idxs Href _ IH];
    intros Hst; [reflexivity|].
  cbn [decode_refs map]. unfold sef_bind at 1.
  destruct (Hst i (or_introl eq_refl)) as [Hseen Hcache].
  rewrite (decode_ref_leaf _ _ _ _ _ _ _ Href Hdepth Hseen Hcache).
  unfold sef_bind at 1.
  rewrite IH by (intros j Hj; apply Hst; right; exact Hj).
  reflexivity.
Qed.

(** The archive built around an object table decodes from its root. *)
Lemma decode_archive_root (fuel : nat) (root : JSValue)
      (objs : list JSValue) (a : Z) :
  root = JNum a \/ root = uid a ->
  objs <> [] ->
  decodeNSKeyedArchiver fuel (archive_of root objs)
  = match decodeObject fuel objs (JNum a) 0 (mkDecodeState [] []) with
    | None => None
    | Some (Ok v, _) => Some (Ok v)
    | Some (Throw _, _) => Some (Ok (archive_of root objs))
    end.
Proof.
  intros Hroot Hne. unfold decodeNSKeyedArchiver.
  change (negb (truthy (archive_of root objs))) with false. cbv iota.
  change (isNSKeyedArchive (archive_of root objs)) with (Ok true).
  change (new (archive_of root objs))
    with (Ok (mkDecoder (archive_of root objs) objs [])).
  cbv iota. unfold decode. cbn [objects].
  destruct objs as [| o objs']; [congruence|].
  assert (Hindex : root_index (mkDecoder (archive_of root (o :: objs'))
                                         (o :: objs') [])
                   = Ok (JNum a)).
  { destruct Hroot as [-> | ->]; reflexivity. }
  rewrite Hindex. unfold decodeObject_top. cbn [objects decoder_cache].
  destruct (decodeObject fuel (o :: objs') (JNum a) 0 (mkDecodeState [] []))
    as [[[v | e] st]|]; reflexivity.
Qed.

Lemma decodeObject_array (fuel : nat) (objs : list JSValue) (a : Z)
      (fields : list (string * JSValue)) (refs : list JSValue)
      (idxs : list Z) :
  0 <= a < Z.of_nat (length objs) ->
  entry objs a = JObj fields ->
  fields_get fields "CF$UID" = None ->
  fields_get fields "NS.keys" = None ->
  fields_get fields "NS.objects" = Some (JArr refs) ->
  Forall2 (leaf_reference objs a) refs idxs ->
  decodeObject (S (S fuel)) objs (JNum a) 0 (mkDecodeState [] [])
  = Some (Ok (JArr (map (fun i => leaf_value (entry objs i)) idxs)),
          mkDecodeState
            []
            [(JNum a, JArr (map (fun i => leaf_value (entry objs i)) idxs))]).
Proof.
  intros Ha Hentry Huid Hkeys Hobjects Hrefs.
  cbn [decodeObject].
  change (MAX_DECODE_DEPTH <? 0) with false. cbv iota.
  cbn [lt_zero ge_length].
  replace (a <? 0) with false by (symmetry; apply Z.ltb_ge; lia).
  replace (Z.of_nat (length objs) <=? a) with false
    by (symmetry; apply Z.leb_gt; lia).
  cbn [orb]. unfold sef_bind at 1, visited_has at 1.
  cbn [visited set_has existsb].
  unfold sef_bind at 1, decoded_get at 1. cbn [decoded map_get].
  unfold sef_bind at 1, visited_add at 1. cbn [visited decoded].
  rewrite element_at_entry by lia. rewrite Hentry.
  cbn [is_string orb negb is_type typeof isBuffer has_property get_property].
  rewrite Huid, Hkeys, Hobjects.
  unfold sef_bind at 1, pure at 1. unfold sef_bind at 1, pure at 1.
  unfold sef_bind at 1, pure at 1. cbn [andb].
  unfold sef_bind at 1, pure at 1.
  unfold sef_bind at 1. unfold decodeArray. unfold sef_bind at 1.
  change (set_add [] (JNum a)) with [JNum a].
  rewrite (decode_refs_leaves fuel objs a 0 _ refs idxs Hrefs).
  - unfold sef_ret at 1. unfold sef_bind, decoded_set, visited_delete, sef_ret.
    cbn [visited decoded map_set]. unfold set_delete. cbn [List.filter].
    rewrite key_eq_num. reflexivity.
  - unfold MAX_DECODE_DEPTH. lia.
  - intros i Hi. cbn [visited decoded set_has existsb map_get].
    split; [|reflexivity]. rewrite orb_false_r. cbn [key_eq].
    apply Z.eqb_neq.
    assert (Hall : Forall (fun i => i <> a) idxs).
    { clear - Hrefs. induction Hrefs as [| r j rs js (_ & _ & Hne & _) _ IH];
        constructor; assumption. }
    rewrite List.Forall_forall in Hall. apply Hall. exact Hi.
Qed.

End DecoderValues.

(** X19.  Decoding an archived array.  When the root of an archive
    refers to an entry that has [NS.objects] (and neither [NS.keys] nor
    [CF$UID]), and every element of [NS.objects] refers, as an index or
    as a reference object, to an entry that is not a container, the
    archive decodes to the array of the entries referred to, in order,
    with null in the place of the marker [$null]. *)
Theorem archived_array_decoding `{JsCoercion} (fuel : nat) (root : JSValue)
        (objs : list JSValue) (a : Z) (fields : list (string * JSValue))
        (refs : list JSValue) (idxs : list Z) :
  root = JNum a \/ root = uid a ->
  0 <= a < Z.of_nat (length objs) ->
  entry objs a = JObj fields ->
  fields_get fields "CF$UID" = None ->
  fields_get fields "NS.keys" = None ->
  fields_get fields "NS.objects" = Some (JArr refs) ->
  Forall2 (leaf_reference objs a) refs idxs ->
  decodeNSKeyedArchiver (S (S fuel)) (archive_of root objs)
  = Some (Ok (JArr (map (fun i => leaf_value (entry objs i)) idxs))).
Proof.
  intros Hroot Ha Hentry Huid Hkeys Hobjects Hrefs.
  rewrite (decode_archive_root _ root objs a Hroot)
    by (destruct objs; [cbn in Ha; lia | discriminate]).
  rewrite (decodeObject_array fuel objs a fields refs idxs) by assumption.
  reflexivity.
Qed.

Lemma archived_array_decoding_witness :
  decodeNSKeyedArchiver (H := plain_coercion) 2
    (archive_of (uid 1) sample_array_table)
  = Some (Ok (JArr [JStr "a"; JNum 7; JNull; JNull])).
Proof.
  apply (archived_array_decoding (H := plain_coercion) 0 (uid 1)
           sample_array_table 1
           [("NS.objects", JArr [uid 2; JNum 3; uid 0; JNum 4]);
            ("$class", uid 5)]%string
           [uid 2; JNum 3; uid 0; JNum 4] [2; 3; 0; 4]).
  - right. reflexivity.
  - cbn [length sample_array_table]. lia.
  - reflexivity.
  - reflexivity.
  - reflexivity.
  - reflexivity.
  - repeat constructor; try (right; reflexivity); try (left; reflexivity);
      cbn [length sample_array_table]; try lia; reflexivity.
Defined.

Section DecoderDictionaries.
Context `{JsCoercion}.
Import NSKeyedArchiverDecoder.

Lemma fields_set_fresh (fields : list (string * JSValue)) (k : string)
      (v : JSValue) :
  ~ In k (map fst fields) -> fields_set fields k v = fields ++ [(k, v)].
Proof.
  induction fields as [| [k' v'] fields IH]; intros Hfresh; [reflexivity|].
  cbn [fields_set map fst In] in *.
  destruct (String.eqb_spec k' k) as [-> | Hne]; [tauto|].
  rewrite IH by tauto. reflexivity.
Qed.

Lemma decode_pairs_leaves (fuel : nat) (objs : list JSValue) (self : Z)
      (depth : Z) (st : DecodeState) :
  depth + 1 <= MAX_DECODE_DEPTH ->
  forall (kidx vidx : list Z) (keys : list string)
         (acc : list (string * JSValue)),
    Forall (fun i => leaf_reference objs self (JNum i) i /\
                     set_has (visited st) (JNum i) = false /\
                     map_get (decoded st) (JNum i) = None) (kidx ++ vidx) ->
    map (entry objs) kidx = map JStr keys ->
    NoDup (map fst acc ++ keys) ->
    ~ In "$null"%string keys ->
    decode_pairs (decodeObject (S fuel) objs) (map JNum kidx) (map JNum vidx)
                 depth acc st
    = Some (Ok (acc ++ combine keys
                         (map (fun i => leaf_value (entry objs i)) vidx)),
            st).
Proof.
  intros Hdepth kidx.
  induction kidx as [| k kidx IH]; intros vidx keys acc Hall Hkeys Hdup Hnull.
  - destruct keys; [|discriminate]. cbn. rewrite app_nil_r. reflexivity.
  - destruct keys as [| key keys]; [discriminate|].
    cbn [map] in Hkeys. injection Hkeys as Hkey Hkeys.
    destruct vidx as [| v vidx].
    { cbn. rewrite app_nil_r. reflexivity. }
    cbn [map decode_pairs combine].
    cbn [app] in Hall. apply Forall_cons_1 in Hall.
    destruct Hall as [((_ & Hk & _ & Hkleaf) & Hkseen & Hkcache) Hall].
    assert (Hv := Hall). apply Forall_app in Hv. destruct Hv as [_ Hv].
    apply Forall_cons_1 in Hv.
    destruct Hv as [((_ & Hvi & _ & Hvleaf) & Hvseen & Hvcache) Hvs].
    unfold sef_bind at 1.
    rewrite (decodeObject_leaf fuel objs k (depth + 1) st)
      by (assumption || lia).
    unfold sef_bind at 1.
    rewrite (decodeObject_leaf fuel objs v (depth + 1) st)
      by (assumption || lia).
    rewrite Hkey. unfold leaf_value at 1. cbn [is_string].
    assert (Hne : key <> "$null"%string).
    { intros ->. apply Hnull. left. reflexivity. }
    apply String.eqb_neq in Hne. rewrite Hne.
    assert (Hfresh : ~ In key (map fst acc)).
    { intros Hin. apply NoDup_app in Hdup.
      destruct Hdup as (_ & Hdisj & _). apply (Hdisj key).
      - apply list_elem_of_In. exact Hin.
      - apply list_elem_of_In. left. reflexivity. }
    rewrite fields_set_fresh by exact Hfresh.
    rewrite (IH vidx keys).
    + rewrite <- app_assoc. reflexivity.
    + apply Forall_app. split.
      * apply Forall_app in Hall. tauto.
      * exact Hvs.
    + exact Hkeys.
    + rewrite map_app, <- app_assoc. exact Hdup.
    + intros Hin. apply Hnull. right. exact Hin.
Qed.

Lemma decodeObject_dictionary (fuel : nat) (objs : list JSValue) (a : Z)
      (fields : list (string * JSValue)) (kidx vidx : list Z)
      (keys : list string) :
  0 <= a < Z.of_nat (length objs) ->
  entry objs a = JObj fields ->
  fields_get fields "CF$UID" = None ->
  fields_get fields "NS.keys" = Some (JArr (map JNum kidx)) ->
  fields_get fields "NS.objects" = Some (JArr (map JNum vidx)) ->
  Forall (fun i => leaf_reference objs a (JNum i) i) (kidx ++ vidx) ->
  map (entry objs) kidx = map JStr keys ->
  NoDup keys ->
  ~ In "$null"%string keys ->
  let result :=
    JObj (combine keys (map (fun i => leaf_value (entry objs i)) vidx)) in
  decodeObject (S (S fuel)) objs (JNum a) 0 (mkDecodeState [] [])
  = Some (Ok result, mkDecodeState [] [(JNum a, result)]).
Proof.
  intros Ha Hentry Huid Hkeys Hobjects Hrefs Hnames Hdup Hnull result.
  cbn [decodeObject].
  change (MAX_DECODE_DEPTH <? 0) with false. cbv iota.
  cbn [lt_zero ge_length].
  replace (a <? 0) with false by (symmetry; apply Z.ltb_ge; lia).
  replace (Z.of_nat (length objs) <=? a) with false
    by (symmetry; apply Z.leb_gt; lia).
  cbn [orb]. unfold sef_bind at 1, visited_has at 1.
  cbn [visited set_has existsb].
  unfold sef_bind at 1, decoded_get at 1. cbn [decoded map_get].
  unfold sef_bind at 1, visited_add at 1. cbn [visited decoded].
  rewrite element_at_entry by lia. rewrite Hentry.
  cbn [is_string orb negb is_type typeof isBuffer has_property get_property].
  rewrite Huid, Hkeys, Hobjects.
  unfold sef_bind at 1, pure at 1. unfold sef_bind at 1, pure at 1.
  unfold sef_bind at 1, pure at 1. cbn [andb].
  unfold sef_bind at 1, pure at 1. unfold sef_bind at 1, pure at 1.
  unfold sef_bind at 1. unfold decodeDictionary. unfold sef_bind at 1.
  change (set_add [] (JNum a)) with [JNum a].
  rewrite (decode_pairs_leaves fuel objs a 0 _ ltac:(unfold MAX_DECODE_DEPTH; lia)
             kidx vidx keys []).
  - unfold sef_ret at 1. unfold sef_bind, decoded_set, visited_delete, sef_ret.
    cbn [visited decoded map_set app]. unfold set_delete. cbn [List.filter].
    rewrite key_eq_num. reflexivity.
  - clear - Hrefs. induction Hrefs as [| i idxs Hi _ IH]; constructor;
      [|exact IH].
    split; [exact Hi|]. cbn [visited decoded set_has existsb map_get].
    split; [|reflexivity]. rewrite orb_false_r. cbn [key_eq].
    apply Z.eqb_neq. destruct Hi as (_ & _ & Hne & _). exact Hne.
  - exact Hnames.
  - exact Hdup.
  - exact Hnull.
Qed.

(** A reference object used as an index names no entry: the call
    returns [undefined] and leaves the state as it was. *)
Lemma decodeObject_reference_object (fuel : nat) (objs : list JSValue)
      (k depth : Z) (st : DecodeState) :
  reference_as_index ->
  depth <= MAX_DECODE_DEPTH ->
  set_has (visited st) (uid k) = false ->
  map_get (decoded st) (uid k) = None ->
  decodeObject (S fuel) objs (uid k) depth st = Some (Ok JUndefined, st).
Proof.
  intros Hco Hdepth Hseen Hcache.
  destruct (Hco k objs (Z.of_nat (length objs)))
    as (Hneg & Hge & Helem & Hsame).
  cbn [decodeObject].
  replace (MAX_DECODE_DEPTH <? depth) with false
    by (symmetry; apply Z.ltb_ge; exact Hdepth).
  unfold uid in *. cbn [lt_zero ge_length]. rewrite Hneg, Hge.
  cbn [orb]. unfold sef_bind at 1, visited_has at 1. rewrite Hseen.
  unfold sef_bind at 1, decoded_get at 1. rewrite Hcache.
  unfold sef_bind at 1, visited_add at 1.
  cbn [element_at]. rewrite Helem.
  cbn [is_string orb negb is_type typeof].
  unfold sef_bind, visited_delete, sef_ret. cbn [visited decoded].
  rewrite set_delete_add by (assumption || exact Hsame).
  destruct st; reflexivity.
Qed.

Lemma decode_pairs_reference_objects (fuel : nat) (objs : list JSValue)
      (depth : Z) (st : DecodeState) :
  reference_as_index ->
  depth + 1 <= MAX_DECODE_DEPTH ->
  (forall k, set_has (visited st) (uid k) = false /\
             map_get (decoded st) (uid k) = None) ->
  forall (kidx vidx : list Z) (acc : list (string * JSValue)),
    decode_pairs (decodeObject (S fuel) objs) (map uid kidx) (map uid vidx)
                 depth acc st
    = Some (Ok acc, st).
Proof.
  intros Hco Hdepth Hst kidx.
  induction kidx as [| k kidx IH]; intros vidx acc; [reflexivity|].
  destruct vidx as [| v vidx]; [reflexivity|].
  cbn [map decode_pairs]. unfold sef_bind at 1.
  rewrite (decodeObject_reference_object fuel objs k (depth + 1) st Hco)
    by (lia || apply Hst).
  unfold sef_bind at 1.
  rewrite (decodeObject_reference_object fuel objs v (depth + 1) st Hco)
    by (lia || apply Hst).
  apply IH.
Qed.

Lemma decodeObject_uid_dictionary (fuel : nat) (objs : list JSValue) (a : Z)
      (fields : list (string * JSValue)) (kidx vidx : list Z) :
  reference_as_index ->
  0 <= a < Z.of_nat (length objs) ->
  entry objs a = JObj fields ->
  fields_get fields "CF$UID" = None ->
  fields_get fields "NS.keys" = Some (JArr (map uid kidx)) ->
  fields_get fields "NS.objects" = Some (JArr (map uid vidx)) ->
  decodeObject (S (S fuel)) objs (JNum a) 0 (mkDecodeState [] [])
  = Some (Ok (JObj []), mkDecodeState [] [(JNum a, JObj [])]).
Proof.
  intros Hco Ha Hentry Huid Hkeys Hobjects.
  cbn [decodeObject].
  change (MAX_DECODE_DEPTH <? 0) with false. cbv iota.
  cbn [lt_zero ge_length].
  replace (a <? 0) with false by (symmetry; apply Z.ltb_ge; lia).
  replace (Z.of_nat (length objs) <=? a) with false
    by (symmetry; apply Z.leb_gt; lia).
  cbn [orb]. unfold sef_bind at 1, visited_has at 1.
  cbn [visited set_has existsb].
  unfold sef_bind at 1, decoded_get at 1. cbn [decoded map_get].
  unfold sef_bind at 1, visited_add at 1. cbn [visited decoded].
  rewrite element_at_entry by lia. rewrite Hentry.
  cbn [is_string orb negb is_type typeof isBuffer has_property get_property].
  rewrite Huid, Hkeys, Hobjects.
  unfold sef_bind at 1, pure at 1. unfold sef_bind at 1, pure at 1.
  unfold sef_bind at 1, pure at 1. cbn [andb].
  unfold sef_bind at 1, pure at 1. unfold sef_bind at 1, pure at 1.
  unfold sef_bind at 1. unfold decodeDictionary. unfold sef_bind at 1.
  change (set_add [] (JNum a)) with [JNum a].
  rewrite (decode_pairs_reference_objects fuel objs 0 _ Hco
             ltac:(unfold MAX_DECODE_DEPTH; lia)).
  - unfold sef_ret at 1. unfold sef_bind, decoded_set, visited_delete, sef_ret.
    cbn [visited decoded map_set]. unfold set_delete. cbn [List.filter].
    rewrite key_eq_num. reflexivity.
  - intros k. cbn [visited decoded set_has existsb map_get key_eq uid].
    split; reflexivity.
Qed.

End DecoderDictionaries.

(** X20.  Decoding an archived dictionary.  When the root of an archive
    refers to an entry with [NS.keys] and [NS.objects] (and no
    [CF$UID]) that hold indices of entries that are not containers, and
    the entries the keys refer to are pairwise different strings, none
    of them the marker [$null], the archive decodes to the object that
    maps each key to the entry at the same position of [NS.objects]
    (null in the place of the marker [$null]), up to the shorter of the
    two lists. *)
Theorem archived_dictionary_decoding `{JsCoercion} (fuel : nat)
        (root : JSValue) (objs : list JSValue) (a : Z)
        (fields : list (string * JSValue)) (kidx vidx : list Z)
        (keys : list string) :
  root = JNum a \/ root = uid a ->
  0 <= a < Z.of_nat (length objs) ->
  entry objs a = JObj fields ->
  fields_get fields "CF$UID" = None ->
  fields_get fields "NS.keys" = Some (JArr (map JNum kidx)) ->
  fields_get fields "NS.objects" = Some (JArr (map JNum vidx)) ->
  Forall (fun i => leaf_reference objs a (JNum i) i) (kidx ++ vidx) ->
  map (entry objs) kidx = map JStr keys ->
  NoDup keys ->
  ~ In "$null"%string keys ->
  ~ In "__proto__"%string keys ->
  decodeNSKeyedArchiver (S (S fuel)) (archive_of root objs)
  = Some (Ok (JObj (combine keys
                      (map (fun i => leaf_value (entry objs i)) vidx)))).
Proof.
  intros Hroot Ha Hentry Huid Hkeys Hobjects Hrefs Hnames Hdup Hnull _.
  rewrite (decode_archive_root _ root objs a Hroot)
    by (destruct objs; [cbn in Ha; lia | discriminate]).
  rewrite (decodeObject_dictionary fuel objs a fields kidx vidx keys)
    by assumption.
  reflexivity.
Qed.

Lemma archived_dictionary_decoding_witness :
  decodeNSKeyedArchiver (H := plain_coercion) 2
    (archive_of (uid 1) sample_dictionary_table)
  = Some (Ok (JObj [("name", JStr "a"); ("size", JNull)]%string)).
Proof.
  apply (archived_dictionary_decoding (H := plain_coercion) 0 (uid 1)
           sample_dictionary_table 1
           [("NS.keys", JArr [JNum 2; JNum 3]);
            ("NS.objects", JArr [JNum 4; JNum 0]);
            ("$class", uid 5)]%string
           [2; 3] [4; 0] ["name"; "size"]%string).
  - right. reflexivity.
  - cbn [length sample_dictionary_table]. lia.
  - reflexivity.
  - reflexivity.
  - reflexivity.
  - reflexivity.
  - repeat constructor; cbn [length sample_dictionary_table]; try lia;
      reflexivity.
  - reflexivity.
  - apply NoDup_ListNoDup.
    repeat (apply List.NoDup_cons; [cbn [In]; intuition discriminate|]).
    apply List.NoDup_nil.
  - cbn [In]. intuition discriminate.
  - cbn [In]. intuition discriminate.
Defined.

(** X21.  Reference objects in a dictionary are not followed.  Unlike
    [decodeArray], [decodeDictionary] hands every element of [NS.keys]
    and of [NS.objects] to [decodeObject] as it is.  When these
    elements are reference objects [{CF$UID: k}] (and the language
    treats such an object as an index the way described by
    [reference_as_index]), no key decodes to a string, and the
    dictionary decodes to the empty object whatever the entries referred
    to are. *)
Theorem uid_dictionary_decodes_empty `{JsCoercion} (fuel : nat)
        (root : JSValue) (objs : list JSValue) (a : Z)
        (fields : list (string * JSValue)) (kidx vidx : list Z) :
  reference_as_index ->
  root = JNum a \/ root = uid a ->
  0 <= a < Z.of_nat (length objs) ->
  entry objs a = JObj fields ->
  fields_get fields "CF$UID" = None ->
  fields_get fields "NS.keys" = Some (JArr (map uid kidx)) ->
  fields_get fields "NS.objects" = Some (JArr (map uid vidx)) ->
  decodeNSKeyedArchiver (S (S fuel)) (archive_of root objs)
  = Some (Ok (JObj [])).
Proof.
  intros Hco Hroot Ha Hentry Huid Hkeys Hobjects.
  rewrite (decode_archive_root _ root objs a Hroot)
    by (destruct objs; [cbn in Ha; lia | discriminate]).
  rewrite (decodeObject_uid_dictionary fuel objs a fields kidx vidx)
    by assumption.
  reflexivity.
Qed.

Lemma uid_dictionary_decodes_empty_witness :
  decodeNSKeyedArchiver (H := plain_coercion) 2
    (archive_of (uid 1) sample_uid_dictionary_table)
  = Some (Ok (JObj [])).
Proof.
  apply (uid_dictionary_decodes_empty (H := plain_coercion) 0 (uid 1)
           sample_uid_dictionary_table 1
           [("NS.keys", JArr [uid 2; uid 3]);
            ("NS.objects", JArr [uid 4; uid 0]);
            ("$class", uid 5)]%string
           [2; 3] [4; 0]).
  - intros k objs n. cbn. rewrite Z.eqb_refl. repeat split; reflexivity.
  - right. reflexivity.
  - cbn [length sample_uid_dictionary_table]. lia.
  - reflexivity.
  - reflexivity.
  - reflexivity.
  - reflexivity.
Defined.
